(** * A shallow embedding of the FTP client [src/ftp.js]

    Definitions first, following the sources:

    - [Js]       : the string primitives the client relies on ([trim],
                   [toLowerCase], [parseInt], [&]);
    - [Dispatch] : the command queue of [src/ftp.js] ([parseResponse],
                   [parse], [nextCmd], [execute], [runCommand]) together
                   with the callbacks the client itself enqueues
                   ([getFeatures], [auth], [setType], [rename]);
    - [Pasv]     : [RE_PASV], [getPasvPort] and the reply handler of
                   [getPasvSocket];
    - [Once]     : [src/lib/once.js];
    - [Put]      : the [fs.stat] callback of [put];
    - [Events]   : the emitter the client inherits from, in its two
                   texts [src/unnamed/part_000] and [src/unnamed/part_001];
    - [Ops]      : the event handlers of [list], [get] and [put], with
                   the emitter of the session that [pasvTimeout] uses;
    - [Ls]       : [ls], over a listing parser that is not among the
                   sources;
    - [Spec]     : the words of the specification the properties are
                   stated in;
    - [Linear]   : the count of a caller's function in a session;
    - [Session]  : [hasFeat] and the words the properties of whole
                   sessions are stated in.

    Then the properties: the equations of the source, the dispatcher,
    the feature set, the implicit auth chain, the PASV reply, [put] from
    a local path, and the completion functions; then the queue as a
    whole, logging in, [setType] and [rename], the values computed from
    replies, the transfers event by event, and the emitter.

    JavaScript strings are modelled as [string] (code units below 256),
    numbers that are reply codes or ports as [Z]. *)

From Stdlib Require Import ZArith List String Ascii Bool Arith Lia DecimalString.
Import ListNotations.

Local Open Scope string_scope.
Local Open Scope nat_scope.
Local Open Scope list_scope.

(* ===================================================================== *)
(** * JavaScript string primitives *)
(* ===================================================================== *)

Module Js.

(** [WhiteSpace] and [LineTerminator] code units below 256: TAB, LF, VT,
    FF, CR, SP and NBSP.  These are what [String.prototype.trim] strips. *)
Definition isWhiteSpace (c : ascii) : bool :=
  let n := nat_of_ascii c in
  ((9 <=? n) && (n <=? 13)) || (n =? 32) || (n =? 160).

Fixpoint trimStart (s : string) : string :=
  match s with
  | EmptyString => EmptyString
  | String c s' => if isWhiteSpace c then trimStart s' else s
  end.

Fixpoint trimEnd (s : string) : string :=
  match s with
  | EmptyString => EmptyString
  | String c s' =>
      match trimEnd s' with
      | EmptyString => if isWhiteSpace c then EmptyString else String c EmptyString
      | t => String c t
      end
  end.

(** [String.prototype.trim]. *)
Definition trim (s : string) : string := trimEnd (trimStart s).

(** [String.prototype.toLowerCase] on code units below 256: A-Z and the
    Latin-1 capitals (0xC0-0xDE except the multiplication sign 0xD7) move
    up by 32, everything else is kept. *)
Definition lowerChar (c : ascii) : ascii :=
  let n := nat_of_ascii c in
  if ((65 <=? n) && (n <=? 90))
     || ((192 <=? n) && (n <=? 222) && negb (n =? 215))
  then ascii_of_nat (n + 32) else c.

Fixpoint toLowerCase (s : string) : string :=
  match s with
  | EmptyString => EmptyString
  | String c s' => String (lowerChar c) (toLowerCase s')
  end.

(** The two characters written as ['\r\n'] in the source. *)
Definition CRLF : string := String "013" (String "010" EmptyString).

(** The line feed, written ['\n'] in the source. *)
Definition LF : string := String "010" EmptyString.

(** [Array.prototype.join] with a separator. *)
Definition join (sep : string) (l : list string) : string := String.concat sep l.

(** Truthiness of a string: only the empty string is falsy. *)
Definition truthy (s : string) : bool :=
  match s with EmptyString => false | _ => true end.

(** [a || b] on strings. *)
Definition orElse (a b : string) : string := if truthy a then a else b.

Definition isDigit (c : ascii) : bool :=
  let n := nat_of_ascii c in (48 <=? n) && (n <=? 57).

Definition digitVal (c : ascii) : Z := (Z.of_nat (nat_of_ascii c) - 48)%Z.

(** The digits read by [parseInt]: the longest prefix of decimal digits,
    accumulated left to right; [None] when there is no digit at all. *)
Fixpoint readDigits (acc : option Z) (s : string) : option Z :=
  match s with
  | EmptyString => acc
  | String c s' =>
      if isDigit c
      then readDigits (Some (match acc with Some a => a * 10 | None => 0 end + digitVal c)%Z) s'
      else acc
  end.

(** [parseInt(s, 10)]: leading white space is skipped, one sign is
    accepted, then the digits; [None] stands for [NaN].  The value is the
    exact integer (a JavaScript number is exact up to 2^53, far above any
    value a PASV reply carries). *)
Definition parseInt (s : string) : option Z :=
  match trimStart s with
  | String "-" s' => option_map Z.opp (readDigits None s')
  | String "+" s' => readDigits None s'
  | s' => readDigits None s'
  end.

(** [ToInt32]: wrap modulo 2^32 into the signed range; [NaN] becomes 0. *)
Definition toInt32 (v : option Z) : Z :=
  match v with
  | None => 0%Z
  | Some n => ((n + 2 ^ 31) mod 2 ^ 32 - 2 ^ 31)%Z
  end.

(** [a & b] for a JavaScript number [a] and an integer literal [b]. *)
Definition bitAnd (a : option Z) (b : Z) : Z := Z.land (toInt32 a) b.

End Js.

(* ===================================================================== *)
(** * The command queue and its callbacks ([src/ftp.js]) *)
(* ===================================================================== *)

Module Dispatch.

Import Js.

(** A parsed server reply, as the response parser hands it to
    [parseResponse]: the four properties the client reads. *)
Record Response := mkResponse {
  code : Z;
  text : string;
  isError : bool;
  isMark : bool
}.

(** An [Error] object: its message and its [code] property, when set. *)
Record JsError := mkError {
  message : string;
  errCode : option Z
}.

(** The [expectsMark] property of a command callback. *)
Record ExpectsMark := mkExpectsMark {
  marks : list Z;
  ignore : option Z
}.

Definition expectedMarks : ExpectsMark :=
  {| marks := [125; 150]%Z; ignore := Some 226%Z |}.

(** A function supplied by a caller of the client.  Its body is not part
    of the client: a call is recorded in the session's log, and what the
    function then asks of the session is a later input to it.  [expects]
    is the [expectsMark] property, which the callers [list], [get] and
    [put] attach to the function they pass to [execute]. *)
Record UserFn := mkUserFn {
  fid : nat;
  expects : option ExpectsMark
}.

(** The closures the client creates, one constructor per [function]
    expression, carrying the variables the closure captures.

    [Callback] are the functions stored in [commandQueue] and called by
    [parse] with [(error, response)]; [Cont] are the functions passed as
    [callback] to [getFeatures] and [auth]. *)
Inductive Callback : Type :=
| NOOP
| UserCb (f : UserFn)
| FeatCb (k : Cont)                         (* getFeatures, reply to 'feat' *)
| SystCb (k : Cont)                         (* getFeatures, reply to 'syst' *)
| AuthUserCb (user pass : string) (k : Cont) (* auth, reply to 'user' *)
| AuthPassCb (user pass : string) (k : Cont) (* auth, reply to 'pass' *)
| AuthTypeCb (response : Response) (k : Cont) (* auth, reply to 'type I' *)
| SetTypeCb (type : string) (k : Cont)      (* setType, reply to 'type' *)
| RnfrCb (to : string) (f : UserFn)         (* rename, reply to 'rnfr' *)
with Cont : Type :=
| UserK (f : UserFn)
| AuthChainK (action : string) (cb : Callback) (* runCommand: function() { self.auth(...) } *)
| EnqueueK (action : string) (cb : Callback).  (* runCommand: function() { push(cmd); nextCmd() } *)

Record Command := mkCommand {
  action : string;
  callback : Callback
}.

(** The second argument of a call to a caller's function. *)
Inductive Arg : Type :=
| Undefined
| Resp (r : Response)
| Feats (l : list string).

(** What leaves the client: lines written to the control socket and calls
    of callers' functions. *)
Inductive Event : Type :=
| Sent (data : string)
| Called (f : UserFn) (err : option JsError) (arg : Arg).

(** The fields of an [FTP] object that the queue and the callbacks use.
    [socketWritable] is [this.socket && this.socket.writable];
    [firstAction] is the connect listener given to [Net.createConnection]
    by [_createSocket], until the socket connects. *)
Record FTP := mkFTP {
  user : string;
  pass : string;
  commandQueue : list Command;
  inProgress : bool;
  ignoreCmdCode : option Z;
  authenticated : bool;
  authenticating : bool;
  features : option (list string);
  system : option string;
  type : option string;
  socketWritable : bool;
  firstAction : option Command;
  log : list Event
}.

Definition set_user v s := mkFTP v (pass s) (commandQueue s) (inProgress s) (ignoreCmdCode s) (authenticated s) (authenticating s) (features s) (system s) (type s) (socketWritable s) (firstAction s) (log s).
Definition set_pass v s := mkFTP (user s) v (commandQueue s) (inProgress s) (ignoreCmdCode s) (authenticated s) (authenticating s) (features s) (system s) (type s) (socketWritable s) (firstAction s) (log s).
Definition set_commandQueue v s := mkFTP (user s) (pass s) v (inProgress s) (ignoreCmdCode s) (authenticated s) (authenticating s) (features s) (system s) (type s) (socketWritable s) (firstAction s) (log s).
Definition set_inProgress v s := mkFTP (user s) (pass s) (commandQueue s) v (ignoreCmdCode s) (authenticated s) (authenticating s) (features s) (system s) (type s) (socketWritable s) (firstAction s) (log s).
Definition set_ignoreCmdCode v s := mkFTP (user s) (pass s) (commandQueue s) (inProgress s) v (authenticated s) (authenticating s) (features s) (system s) (type s) (socketWritable s) (firstAction s) (log s).
Definition set_authenticated v s := mkFTP (user s) (pass s) (commandQueue s) (inProgress s) (ignoreCmdCode s) v (authenticating s) (features s) (system s) (type s) (socketWritable s) (firstAction s) (log s).
Definition set_authenticating v s := mkFTP (user s) (pass s) (commandQueue s) (inProgress s) (ignoreCmdCode s) (authenticated s) v (features s) (system s) (type s) (socketWritable s) (firstAction s) (log s).
Definition set_features v s := mkFTP (user s) (pass s) (commandQueue s) (inProgress s) (ignoreCmdCode s) (authenticated s) (authenticating s) v (system s) (type s) (socketWritable s) (firstAction s) (log s).
Definition set_system v s := mkFTP (user s) (pass s) (commandQueue s) (inProgress s) (ignoreCmdCode s) (authenticated s) (authenticating s) (features s) v (type s) (socketWritable s) (firstAction s) (log s).
Definition set_type v s := mkFTP (user s) (pass s) (commandQueue s) (inProgress s) (ignoreCmdCode s) (authenticated s) (authenticating s) (features s) (system s) v (socketWritable s) (firstAction s) (log s).
Definition set_socketWritable v s := mkFTP (user s) (pass s) (commandQueue s) (inProgress s) (ignoreCmdCode s) (authenticated s) (authenticating s) (features s) (system s) (type s) v (firstAction s) (log s).
Definition set_firstAction v s := mkFTP (user s) (pass s) (commandQueue s) (inProgress s) (ignoreCmdCode s) (authenticated s) (authenticating s) (features s) (system s) (type s) (socketWritable s) v (log s).
Definition emit (e : Event) s := mkFTP (user s) (pass s) (commandQueue s) (inProgress s) (ignoreCmdCode s) (authenticated s) (authenticating s) (features s) (system s) (type s) (socketWritable s) (firstAction s) (log s ++ [e]).

(** [FTP_NEWLINE = /\r\n|\n/] used by [String.prototype.split]: the
    pieces between the separators, left to right; [cur] is the piece being
    read, in reverse. *)
Fixpoint splitNewline (cur : list ascii) (s : string) : list string :=
  match s with
  | EmptyString => [string_of_list_ascii (rev cur)]
  | String c s' =>
      if Ascii.eqb c "010" then string_of_list_ascii (rev cur) :: splitNewline [] s'
      else
        match s' with
        | String c' s'' =>
            if Ascii.eqb c "013" && Ascii.eqb c' "010"
            then string_of_list_ascii (rev cur) :: splitNewline [] s''
            else splitNewline (c :: cur) s'
        | EmptyString => splitNewline (c :: cur) s'
        end
  end.

(** [Array.prototype.slice(1, -1)]. *)
Definition slice_1_m1 {A} (l : list A) : list A := removelast (tl l).

(** [FTP.prototype._parseFeats]. *)
Definition parseFeats (feats : string) : list string :=
  let featureLines := slice_1_m1 (splitNewline [] feats) in
  filter truthy (map (fun feat => toLowerCase (trim feat)) featureLines).

(** [FTP.prototype.send]. *)
Definition send (command : string) (s : FTP) : FTP :=
  if truthy command then emit (Sent (command ++ CRLF)%string) s else s.

(** [FTP.prototype.nextCmd]. *)
Definition nextCmd (s : FTP) : FTP :=
  match commandQueue s with
  | cmd :: _ =>
      if negb (inProgress s) then set_inProgress true (send (action cmd) s) else s
  | [] => s
  end.

(** [this.commandQueue.push(cmd); this.nextCmd();], the body shared by
    the first branch of [runCommand] and by the closure [EnqueueK]. *)
Definition pushCmd (cmd : Command) (s : FTP) : FTP :=
  nextCmd (set_commandQueue (commandQueue s ++ [cmd]) s).

(** [FTP.prototype._createSocket]: the previous socket is destroyed (its
    connect listener with it), [authenticated] is cleared, and the new
    socket is writable from its creation. *)
Definition createSocket (first : option Command) (s : FTP) : FTP :=
  set_firstAction first (set_socketWritable true (set_authenticated false s)).

(** [/^(feat|syst|user|pass)/.test(action)]. *)
Definition RE_AUTH (action : string) : bool :=
  String.prefix "feat" action || String.prefix "syst" action
  || String.prefix "user" action || String.prefix "pass" action.

(** [FTP.prototype.execute], over the function that runs the command on
    a writable socket. *)
Definition executeWith (run : string -> Callback -> FTP -> FTP)
    (action : string) (cb : Callback) (s : FTP) : FTP :=
  if socketWritable s then run action cb s
  else createSocket (Some (mkCommand action cb)) (set_authenticated false s).

(** The line [runCmd] builds from the command and its arguments. *)
Definition completeCmd (cmd : string) (args : list string) : string :=
  trim (cmd ++ " " ++ join " " args)%string.

(** [this.raw(cmd, args..., cb)] for the commands 'user' and 'feat', which
    [auth] and [getFeatures] issue.  Their line matches [RE_AUTH], so
    [runCommand] pushes them; the lemma [rawAuth_raw] shows that this is
    the function [raw] below on such commands. *)
Definition rawAuth (cmd : string) (args : list string) (cb : Callback) (s : FTP) : FTP :=
  executeWith (fun a c => pushCmd (mkCommand a c)) (completeCmd cmd args) cb s.

(** A call of a caller's function. *)
Definition callUser (f : UserFn) (err : option JsError) (arg : Arg) (s : FTP) : FTP :=
  emit (Called f err arg) s.

Definition alreadyAuthenticating : JsError :=
  mkError "This client is already authenticating" None.

(** [FTP.prototype.auth], over the call of its [callback] argument. *)
Definition authWith (invoke : option JsError -> Arg -> FTP -> FTP)
    (user pass : string) (k : Cont) (s : FTP) : FTP :=
  if authenticating s then invoke (Some alreadyAuthenticating) Undefined s
  else
    let user := orElse user "anonymous" in
    let pass := orElse pass "@anonymous" in
    rawAuth "user" [user] (AuthUserCb user pass k) (set_authenticating true s).

(** A call [k(err, arg)] of a continuation. *)
Definition callK (k : Cont) (err : option JsError) (arg : Arg) (s : FTP) : FTP :=
  match k with
  | UserK f => callUser f err arg s
  | EnqueueK a cb => pushCmd (mkCommand a cb) s
  | AuthChainK a cb =>
      authWith (fun _ _ => pushCmd (mkCommand a cb)) (user s) (pass s) (EnqueueK a cb) s
  end.

(** [FTP.prototype.auth]. *)
Definition auth (user pass : string) (k : Cont) (s : FTP) : FTP :=
  authWith (callK k) user pass k s.

Definition argFeatures (o : option (list string)) : Arg :=
  match o with Some l => Feats l | None => Undefined end.

(** [FTP.prototype.getFeatures]. *)
Definition getFeatures (k : Cont) (s : FTP) : FTP :=
  match features s with
  | Some fs => callK k None (Feats fs) s
  | None => rawAuth "feat" [] (FeatCb k) s
  end.

(** [FTP.prototype.runCommand]. *)
Definition runCommand (action : string) (cb : Callback) (s : FTP) : FTP :=
  if authenticated s || RE_AUTH action
  then pushCmd (mkCommand action cb) s
  else getFeatures (AuthChainK action cb) s.

(** [FTP.prototype.execute]. *)
Definition execute (action : string) (cb : Callback) (s : FTP) : FTP :=
  executeWith runCommand action cb s.

(** [runCmd], that is [this.raw(cmd, args..., cb)]; [NOOP] when the last
    argument is not a function. *)
Definition raw (cmd : string) (args : list string) (cb : Callback) (s : FTP) : FTP :=
  execute (completeCmd cmd args) cb s.

Definition isSome {A} (o : option A) : bool :=
  match o with Some _ => true | None => false end.

Definition memZ (x : Z) (l : list Z) : bool := existsb (Z.eqb x) l.

(** A call [cb(error, response)] of a queued callback by [parse]. *)
Definition call (cb : Callback) (error : option JsError) (response : Response) (s : FTP) : FTP :=
  match cb with
  | NOOP => s
  | UserCb f => callUser f error (Resp response) s
  | FeatCb k =>
      let s := set_features
                 (Some (if isSome error then [] else parseFeats (text response))) s in
      raw "syst" [] (SystCb k) s
  | SystCb k =>
      let s := if negb (isSome error) && (code response =? 215)%Z
               then set_system (Some (toLowerCase (text response))) s else s in
      callK k None (argFeatures (features s)) s
  | AuthUserCb user pass k =>
      if isSome error || negb (memZ (code response) [230; 331; 332]%Z)
      then callK k error Undefined (set_authenticating false s)
      else raw "pass" [pass] (AuthPassCb user pass k) s
  | AuthPassCb user pass k =>
      let s := set_authenticating false s in
      if isSome error then callK k error Undefined s
      else if memZ (code response) [230; 202]%Z then
        let s := set_pass pass (set_user user (set_authenticated true s)) in
        raw "type" ["I"] (AuthTypeCb response k) s
      else if (code response =? 332)%Z then raw "acct" [""] NOOP s
      else s
  | AuthTypeCb response' k => callK k None (Resp response') s
  | SetTypeCb type k =>
      let s := if isSome error then s else set_type (Some type) s in
      callK k error (Resp response) s
  | RnfrCb to f =>
      if isSome error then callUser f error Undefined s
      else raw "rnto" [to] (UserCb f) s
  end.

(** The [expectsMark] property of a queued callback: only functions from
    callers carry one. *)
Definition expectsMark (cb : Callback) : option ExpectsMark :=
  match cb with
  | UserCb f => expects f
  | _ => None
  end.

(** The [error] that [parse] builds for a reply. *)
Definition errorOf (response : Response) : option JsError :=
  if isError response
  then Some (mkError (orElse (text response) "Unknown FTP error.") (Some (code response)))
  else None.

(** [FTP.prototype.parse]. *)
Definition parse (response : Response) (command : Command) (s : FTP) : FTP :=
  let s := call (callback command) (errorOf response) response s in
  nextCmd (set_inProgress false s).

(** Truthiness of [expectsMark.ignore]: a number other than 0. *)
Definition truthyCode (o : option Z) : bool :=
  match o with Some z => negb (z =? 0)%Z | None => false end.

(** [this.ignoreCmdCode === response.code]. *)
Definition sameCode (o : option Z) (c : Z) : bool :=
  match o with Some z => (z =? c)%Z | None => false end.

(** Lines 156-162 of [parseResponse]: the ignored code is consumed, or
    the head command is shifted off the queue and paired with the reply. *)
Definition pairOrIgnore (response : Response) (cmd : Command) (rest : list Command)
    (s : FTP) : FTP :=
  if sameCode (ignoreCmdCode s) (code response)
  then set_ignoreCmdCode None s
  else parse response cmd (set_commandQueue rest s).

(** [FTP.prototype.parseResponse]. *)
Definition parseResponse (response : Response) (s : FTP) : FTP :=
  match commandQueue s with
  | [] => s
  | cmd :: rest =>
      if (code response =? 220)%Z then s
      else
        let next := callback cmd in
        if isMark response then
          match expectsMark next with
          | None => s
          | Some em =>
              if negb (memZ (code response) (marks em)) then s
              else
                let s := if truthyCode (ignore em)
                         then set_ignoreCmdCode (ignore em) s else s in
                pairOrIgnore response cmd rest s
          end
        else pairOrIgnore response cmd rest s
  end.

(** The connect listener of the control socket: [firstAction] runs once. *)
Definition onConnect (s : FTP) : FTP :=
  match firstAction s with
  | Some cmd => runCommand (action cmd) (callback cmd) (set_firstAction None s)
  | None => s
  end.

(** [String.prototype.toUpperCase] on code units below 256, as far as
    [setType] needs it: a-z move down by 32. *)
Definition upperChar (c : ascii) : ascii :=
  let n := nat_of_ascii c in
  if (97 <=? n) && (n <=? 122) then ascii_of_nat (n - 32) else c.

Fixpoint toUpperCase (s : string) : string :=
  match s with
  | EmptyString => EmptyString
  | String c s' => String (upperChar c) (toUpperCase s')
  end.

(** [FTP.prototype.setType]. *)
Definition setType (t : string) (k : Cont) (s : FTP) : FTP :=
  let t := toUpperCase t in
  match type s with
  | Some t' => if String.eqb t' t then callK k None Undefined s
               else raw "type" [t] (SetTypeCb t k) s
  | None => raw "type" [t] (SetTypeCb t k) s
  end.

(** [FTP.prototype.rename]. *)
Definition rename (from to : string) (f : UserFn) (s : FTP) : FTP :=
  raw "rnfr" [from] (RnfrCb to f) s.

(** [FTP.prototype.destroy]: the sockets are ended, the features and
    the authentication are forgotten. *)
Definition destroy (s : FTP) : FTP :=
  set_authenticated false (set_features None
    (set_firstAction None (set_socketWritable false s))).

(** The control socket is closed by the server: it is no longer
    writable. *)
Definition onClose (s : FTP) : FTP := set_socketWritable false s.

(** The session built by the constructor [FTP(options)]: the option
    defaults, an empty queue and a freshly created socket. *)
Definition newFTP (optUser optPass : string) : FTP :=
  createSocket None
    (mkFTP (orElse optUser "anonymous") (orElse optPass "@anonymous")
       [] false None false false None None None false None []).

(** The replies of a server, delivered one after the other. *)
Definition feed (rs : list Response) (s : FTP) : FTP :=
  fold_left (fun s r => parseResponse r s) rs s.

End Dispatch.

(* ===================================================================== *)
(** * Passive mode: [RE_PASV], [getPasvPort], [getPasvSocket] *)
(* ===================================================================== *)

Module Pasv.

Import Js Dispatch.

(** The pieces [RE_PASV] is made of: a literal character, the greedy
    repetition [[-\d]+], and the parentheses of a capture group. *)
Inductive Node : Type :=
| Lit (c : ascii)
| ClassPlus
| GroupOpen (n : nat)
| GroupClose (n : nat).

(** [/([-\d]+,[-\d]+,[-\d]+,[-\d]+),([-\d]+),([-\d]+)/]. *)
Definition RE_PASV : list Node :=
  [ GroupOpen 1; ClassPlus; Lit ","; ClassPlus; Lit ","; ClassPlus; Lit ",";
    ClassPlus; GroupClose 1; Lit ",";
    GroupOpen 2; ClassPlus; GroupClose 2; Lit ",";
    GroupOpen 3; ClassPlus; GroupClose 3 ].

(** The character class [[-\d]]. *)
Definition isClass (c : ascii) : bool := Ascii.eqb c "-" || isDigit c.

(** The state of one match attempt: the text matched so far, the groups
    still open with what they captured so far, and the closed groups. *)
Record MatchState := mkMatchState {
  whole : string;
  opened : list (nat * string);
  closed : list (nat * string)
}.

Definition startState : MatchState := mkMatchState "" [] [].

(** The attempt consumes the characters [cs]. *)
Definition consume (cs : string) (st : MatchState) : MatchState :=
  mkMatchState (whole st ++ cs)%string
    (map (fun g => (fst g, (snd g ++ cs)%string)) (opened st))
    (closed st).

Definition openGroup (n : nat) (st : MatchState) : MatchState :=
  mkMatchState (whole st) ((n, "") :: opened st) (closed st).

Definition closeGroup (n : nat) (st : MatchState) : MatchState :=
  match opened st with
  | (m, txt) :: rest => mkMatchState (whole st) rest ((m, txt) :: closed st)
  | [] => st
  end.

(** The greedy repetition, after its first character: it takes one more
    class character when it can and lets the rest of the pattern ([k])
    run; when that fails it gives the character back and lets the rest
    run from here.  [run] is the text taken so far. *)
Fixpoint greedyStar {R} (k : string -> string -> option R) (run : string) (s : string)
  : option R :=
  match s with
  | String c s' =>
      if isClass c then
        match greedyStar k (run ++ String c "")%string s' with
        | Some r => Some r
        | None => k run s
        end
      else k run s
  | EmptyString => k run s
  end.

(** [[-\d]+]: at least one class character. *)
Definition greedyPlus {R} (k : string -> string -> option R) (s : string) : option R :=
  match s with
  | String c s' => if isClass c then greedyStar k (String c "") s' else None
  | EmptyString => None
  end.

(** One match attempt of the pattern at the start of [s]. *)
Fixpoint matchHere (re : list Node) (st : MatchState) (s : string) : option MatchState :=
  match re with
  | [] => Some st
  | Lit c :: re' =>
      match s with
      | String c' s' =>
          if Ascii.eqb c c' then matchHere re' (consume (String c "") st) s' else None
      | EmptyString => None
      end
  | ClassPlus :: re' =>
      greedyPlus (fun run s' => matchHere re' (consume run st) s') s
  | GroupOpen n :: re' => matchHere re' (openGroup n st) s
  | GroupClose n :: re' => matchHere re' (closeGroup n st) s
  end.

(** [RegExp.prototype.exec] for a pattern without the global flag: the
    first start position, from the left, at which an attempt succeeds. *)
Fixpoint exec (re : list Node) (s : string) : option MatchState :=
  match matchHere re startState s with
  | Some st => Some st
  | None =>
      match s with
      | String _ s' => exec re s'
      | EmptyString => None
      end
  end.

(** [match[n]] for a group that took part in the match. *)
Fixpoint group (n : nat) (gs : list (nat * string)) : string :=
  match gs with
  | [] => ""
  | (m, txt) :: gs' => if Nat.eqb m n then txt else group n gs'
  end.

(** [s.replace(/,/g, '.')]. *)
Fixpoint commasToDots (s : string) : string :=
  match s with
  | EmptyString => EmptyString
  | String c s' => String (if Ascii.eqb c "," then "."%char else c) (commasToDots s')
  end.

Record PasvOptions := mkPasvOptions {
  host : string;
  port : Z
}.

(** [getPasvPort]. *)
Definition getPasvPort (text : string) : option PasvOptions :=
  match exec RE_PASV text with
  | None => None
  | Some m =>
      Some {| host := commasToDots (group 1 (closed m));
              port := (bitAnd (parseInt (group 2 (closed m))) 255 * 256
                       + bitAnd (parseInt (group 3 (closed m))) 255)%Z |}
  end.

(** What the callback given to [execute('pasv', ...)] in [getPasvSocket]
    does with the reply: it calls [callback(error)], or opens a
    connection with the options and calls [callback(null, socket)]. *)
Inductive PasvOutcome : Type :=
| PasvFail (e : JsError)
| PasvConnect (options : PasvOptions).

Definition badPassive : JsError :=
  mkError "Bad passive host/port combination" None.

Definition pasvReply (error : option JsError) (response : Response) : PasvOutcome :=
  match error with
  | Some e => PasvFail e
  | None =>
      match getPasvPort (text response) with
      | None => PasvFail badPassive
      | Some options => PasvConnect options
      end
  end.

End Pasv.

(* ===================================================================== *)
(** * [src/lib/once.js] *)
(* ===================================================================== *)

Module Once.

(** The two properties [once] keeps on the wrapper it returns; [value]
    is [None] while it is still [undefined]. *)
Record Cell (V : Type) := mkCell {
  called : bool;
  value : option V
}.
Arguments mkCell {V}.
Arguments called {V}.
Arguments value {V}.

(** [cb.called = false] on the fresh wrapper. *)
Definition fresh {V} : Cell V := mkCell false None.

Section Wrapper.
(** The wrapper lives in a program state [S]; [getCell] and [setCell]
    read and write its two properties there.  [fn] is the wrapped
    function, run on its arguments [A] in that state. *)
Variables S A V : Type.
Variable getCell : S -> Cell V.
Variable setCell : Cell V -> S -> S.
Variable fn : A -> S -> S * V.

(** The function [cb] of [once]: a later call returns [cb.value];
    the first one sets [cb.called] and then applies [fn]. *)
Definition cb (a : A) (s : S) : S * option V :=
  if called (getCell s) then (s, value (getCell s))
  else
    let s := setCell (mkCell true (value (getCell s))) s in
    let '(s, v) := fn a s in
    (setCell (mkCell (called (getCell s)) (Some v)) s, Some v).

(** Calls of the wrapper, one after the other. *)
Fixpoint calls (l : list A) (s : S) : S * list (option V) :=
  match l with
  | [] => (s, [])
  | a :: l' =>
      let '(s, v) := cb a s in
      let '(s, vs) := calls l' s in
      (s, v :: vs)
  end.
End Wrapper.

(** The simplest program state: the wrapper's own cell and a counter of
    the runs of the wrapped function, which returns its argument. *)
Definition countingFn {A} (a : A) (s : Cell A * nat) : (Cell A * nat) * A :=
  ((fst s, Datatypes.S (snd s)), a).

Definition countingCb {A} : A -> Cell A * nat -> (Cell A * nat) * option A :=
  cb (Cell A * nat) A A fst (fun c s => (c, snd s)) countingFn.

End Once.

(* ===================================================================== *)
(** * [FTP.prototype.put]: the callback of [fs.stat] *)
(* ===================================================================== *)

Module Put.

Import Js.

(** The [error] of [fs.stat], of which the callback reads [code]. *)
Record FsError := mkFsError { fsCode : string }.

(** The [stats] of [fs.stat], of which the callback reads
    [isDirectory()] and [size]. *)
Record Stats := mkStats {
  isDirectory : bool;
  size : Z
}.

(** How the callback of [fs.stat] ends: it returns [callback(new
    Error(msg))], it throws the [TypeError] of a property access on
    [undefined], or it goes on to [putReadable] with a total size. *)
Inductive StatOutcome : Type :=
| CallbackError (msg : string)
| ThrowsTypeError
| PutReadable (totalSize : Z).

(** [error && error.code === 'ENOENT']. *)
Definition isENOENT (error : option FsError) : bool :=
  match error with
  | Some e => String.eqb (fsCode e) "ENOENT"
  | None => false
  end.

(** Whether the callback reaches the access [stats.isDirectory()]. *)
Definition reachesIsDirectory (error : option FsError) : bool :=
  negb (isENOENT error).

(** The function given to [fs.stat] in [put], lines 585-598. *)
Definition statCallback (error : option FsError) (stats : option Stats) : StatOutcome :=
  if isENOENT error then CallbackError "Local file doesn't exist."
  else
    match stats with
    | None => ThrowsTypeError
    | Some st =>
        if isDirectory st then CallbackError "Local path cannot be a directory"
        else PutReadable (match error with Some _ => 0%Z | None => size st end)
    end.

End Put.

(* ===================================================================== *)
(** * The emitter the client inherits from ([lib/events]) *)
(* ===================================================================== *)

(** The class [Events] comes in two texts, [src/unnamed/part_000] and
    [src/unnamed/part_001].  They have the same [on], [emit] and [off]
    and differ in [once]: in the context it registers its closure with
    and in the arguments the closure gives to [off].  Event names are
    strings. *)
Module Events.

(** The [this] a listener is registered with: the emitter itself,
    [undefined], or another object. *)
Inductive Context : Type :=
| Self
| NoContext
| Other (n : nat).

(** [===] on contexts. *)
Definition Context_eqb (a b : Context) : bool :=
  match a, b with
  | Self, Self | NoContext, NoContext => true
  | Other n, Other m => n =? m
  | _, _ => false
  end.

(** What a listener returns, as far as [emit] tells values apart. *)
Inductive Result : Type :=
| RFalse
| RUndefined
| RValue (n : nat).

(** A function of a caller, registered as a listener.  Its body is not
    part of the emitter: a call is recorded, with its [this] and its
    arguments, and yields [result]; it does not register or remove
    listeners while it runs. *)
Record Fn := mkFn {
  fnId : nat;
  result : Result
}.

(** The functions an emitter holds: a caller's function as it is, or the
    closure [feedback] that a call of [once] creates around it.  [n]
    numbers the calls of [once], that is the closures. *)
Inductive Listener : Type :=
| Plain (f : Fn)
| Feedback000 (n : nat) (listener : Fn)   (* [once] of part_000 *)
| Feedback001 (n : nat) (listener : Fn).  (* [once] of part_001 *)

(** [===] on functions. *)
Definition Listener_eqb (a b : Listener) : bool :=
  match a, b with
  | Plain f, Plain g => fnId f =? fnId g
  | Feedback000 n _, Feedback000 m _ => n =? m
  | Feedback001 n _, Feedback001 m _ => n =? m
  | _, _ => false
  end.

(** An element of [events[name]]. *)
Record Entry := mkEntry {
  fn : Listener;
  context : Context
}.

(** A call of a caller's function. *)
Inductive Call : Type :=
| Ran (f : Fn) (this : Context) (data : list nat).

(** The emitter: the object [__events], the number of closures [once]
    has created, and the calls of callers' functions so far. *)
Record Emitter := mkEmitter {
  events : list (string * list Entry);
  closures : nat;
  ran : list Call
}.

Definition empty : Emitter := mkEmitter [] 0 [].

Definition set_events v e := mkEmitter v (closures e) (ran e).
Definition record (c : Call) e := mkEmitter (events e) (closures e) (ran e ++ [c]).

(** The entries the object [__events] itself holds: reading one,
    [events[name] = l] and [delete events[name]]. *)
Fixpoint lookup (name : string) (m : list (string * list Entry)) : option (list Entry) :=
  match m with
  | [] => None
  | (k, l) :: m' => if String.eqb k name then Some l else lookup name m'
  end.

Fixpoint store (name : string) (l : list Entry) (m : list (string * list Entry))
  : list (string * list Entry) :=
  match m with
  | [] => [(name, l)]
  | (k, l') :: m' =>
      if String.eqb k name then (k, l) :: m' else (k, l') :: store name l m'
  end.

Fixpoint delete (name : string) (m : list (string * list Entry))
  : list (string * list Entry) :=
  match m with
  | [] => []
  | (k, l) :: m' =>
      if String.eqb k name then delete name m' else (k, l) :: delete name m'
  end.

(** [__events] is a plain object: for a name it has no entry for,
    [events[name]] is what the object inherits from [Object.prototype]
    under that name.  These are the inherited names, each with the
    [length] of the inherited value: the arity of the function, and
    nothing for ['__proto__'], whose value is [Object.prototype]
    itself. *)
Definition inherited (name : string) : option (option nat) :=
  if String.eqb name "constructor" then Some (Some 1)
  else if String.eqb name "hasOwnProperty" then Some (Some 1)
  else if String.eqb name "isPrototypeOf" then Some (Some 1)
  else if String.eqb name "propertyIsEnumerable" then Some (Some 1)
  else if String.eqb name "toString" then Some (Some 0)
  else if String.eqb name "toLocaleString" then Some (Some 0)
  else if String.eqb name "valueOf" then Some (Some 0)
  else if String.eqb name "__defineGetter__" then Some (Some 2)
  else if String.eqb name "__defineSetter__" then Some (Some 2)
  else if String.eqb name "__lookupGetter__" then Some (Some 1)
  else if String.eqb name "__lookupSetter__" then Some (Some 1)
  else if String.eqb name "__proto__" then Some None
  else None.

(** What [events[name]] evaluates to: the array of the entry, an
    inherited value (which is truthy and no array), or [undefined]. *)
Inductive Property : Type :=
| Own (l : list Entry)
| Inherited (length : option nat)
| Missing.

Definition property (name : string) (e : Emitter) : Property :=
  match lookup name (events e) with
  | Some l => Own l
  | None =>
      match inherited name with
      | Some length => Inherited length
      | None => Missing
      end
  end.

(** The elements [listeners[i]] that [emit] and [off] can read from
    [events[name] || []]: those of the array of the entry; an inherited
    value has none. *)
Definition listenersOf (name : string) (e : Emitter) : list Entry :=
  match lookup name (events e) with
  | Some l => l
  | None => []
  end.

(** [listeners.length] as the loop of [emit] compares it with [i]: the
    length of the array, the arity of an inherited function, and no
    number (so no turn of the loop) for an inherited object. *)
Definition lengthOf (name : string) (e : Emitter) : nat :=
  match property name e with
  | Own l => List.length l
  | Inherited (Some n) => n
  | Inherited None => 0
  | Missing => 0
  end.

(** How a call of [on], [once] or [off] ends: it returns the emitter, or
    it throws a [TypeError] and leaves [__events] as it was. *)
Inductive Effect : Type :=
| Done (e : Emitter)
| Thrown (e : Emitter).

(** [arguments.length < 3 ? self : context], for the optional third
    argument of [on] and [off]. *)
Definition orSelf (context : option Context) : Context :=
  match context with
  | Some c => c
  | None => Self
  end.

(** [Events.prototype.on]: [(events[name] || (events[name] = [])).push]
    pushes on the array of the entry or on a new one; on an inherited
    value, which has no [push], it throws. *)
Definition on (name : string) (listener : Listener) (context : option Context)
    (e : Emitter) : Effect :=
  let entry := mkEntry listener (orSelf context) in
  match property name e with
  | Own l => Done (set_events (store name (l ++ [entry]) (events e)) e)
  | Missing => Done (set_events (store name [entry] (events e)) e)
  | Inherited _ => Thrown e
  end.

(** [Events.prototype.once] of part_000: the closure is registered with
    the [context] argument as it is, [undefined] when it is left out. *)
Definition once000 (name : string) (listener : Fn) (context : option Context)
    (e : Emitter) : Effect :=
  let feedback := Feedback000 (closures e) listener in
  let context := match context with Some c => c | None => NoContext end in
  on name feedback (Some context)
    (mkEmitter (events e) (S (closures e)) (ran e)).

(** [Events.prototype.once] of part_001: the context defaults to the
    emitter. *)
Definition once001 (name : string) (listener : Fn) (context : option Context)
    (e : Emitter) : Effect :=
  let feedback := Feedback001 (closures e) listener in
  on name feedback (Some (orSelf context))
    (mkEmitter (events e) (S (closures e)) (ran e)).

(** The loop of [off]: the first element with this function and this
    context is spliced out. *)
Fixpoint removeFirst (listener : Listener) (context : Context) (l : list Entry)
  : list Entry :=
  match l with
  | [] => []
  | en :: l' =>
      if Listener_eqb (fn en) listener && Context_eqb (Events.context en) context
      then l' else en :: removeFirst listener context l'
  end.

(** [Events.prototype.off] without arguments, with a name, and with a
    name and a listener (and maybe a context).  The last one reads
    [listeners[i].fn] for [i] below [listeners.length]: on an inherited
    function of arity at least 1 it throws at [i = 0]; on one of arity 0,
    or on the inherited object, the loop does not run and there is no
    entry to delete. *)
Definition offAll (e : Emitter) : Emitter := set_events [] e.

Definition offName (name : string) (e : Emitter) : Emitter :=
  set_events (delete name (events e)) e.

Definition off (name : string) (listener : Listener) (context : option Context)
    (e : Emitter) : Effect :=
  match property name e with
  | Own l =>
      match removeFirst listener (orSelf context) l with
      | [] => Done (set_events (delete name (events e)) e)
      | l' => Done (set_events (store name l' (events e)) e)
      end
  | Inherited (Some (S _)) => Thrown e
  | Inherited _ => Done e
  | Missing => Done e
  end.

(** [apply(listener.fn, listener.context, data)] in [emit]: a caller's
    function runs; a closure of [once] first calls [off] (with the name
    and itself in part_000, and with its [this] as well in part_001),
    then runs the function it wraps, and returns nothing.  [None] when
    [off] throws. *)
Definition applyEntry (name : string) (en : Entry) (data : list nat) (e : Emitter)
  : option (Emitter * Result) :=
  match fn en with
  | Plain f => Some (record (Ran f (context en) data) e, result f)
  | Feedback000 n f =>
      match off name (Feedback000 n f) None e with
      | Done e => Some (record (Ran f (context en) data) e, RUndefined)
      | Thrown _ => None
      end
  | Feedback001 n f =>
      match off name (Feedback001 n f) (Some (context en)) e with
      | Done e => Some (record (Ran f (context en) data) e, RUndefined)
      | Thrown _ => None
      end
  end.

(** [if (returned !== false) { returned = result; }]. *)
Definition keepFalse (returned result : Result) : Result :=
  match returned with
  | RFalse => RFalse
  | _ => result
  end.

(** How [emit] ends: it returns [returned], or it throws the [TypeError]
    of reading [fn] of [undefined]. *)
Inductive Outcome : Type :=
| Returned (returned : Result) (e : Emitter)
| ThrewTypeError (e : Emitter).

(** The loop of [emit].  [length] is read once, before the loop, and
    [listeners[i]] is read from the array at each turn: the array [off]
    splices is the one the loop walks.  ([delete events[name]] happens
    only when that array is empty, so the elements the loop can read are
    [listenersOf] at every turn.)  [todo] is [length - i]. *)
Fixpoint emitLoop (name : string) (data : list nat) (i todo : nat)
    (returned : Result) (e : Emitter) : Outcome :=
  match todo with
  | 0 => Returned returned e
  | S todo' =>
      match nth_error (listenersOf name e) i with
      | None => ThrewTypeError e
      | Some en =>
          match applyEntry name en data e with
          | Some (e', result) =>
              emitLoop name data (S i) todo' (keepFalse returned result) e'
          | None => ThrewTypeError e
          end
      end
  end.

(** [Events.prototype.emit]. *)
Definition emit (name : string) (data : list nat) (e : Emitter) : Outcome :=
  emitLoop name data 0 (lengthOf name e) RUndefined e.

(** The function a listener wraps, and whether it is a caller's function
    as it is. *)
Definition wrapped (en : Entry) : Fn :=
  match fn en with
  | Plain f | Feedback000 _ f | Feedback001 _ f => f
  end.

Definition isPlain (en : Entry) : bool :=
  match fn en with
  | Plain _ => true
  | _ => false
  end.

(** What a listener returns to [emit]: the closures of [once] return
    nothing. *)
Definition resultOf (en : Entry) : Result :=
  match fn en with
  | Plain f => result f
  | _ => RUndefined
  end.

(** No element of [l] is the function [listener] with the context
    [context]. *)
Definition absent (listener : Listener) (context : Context) (l : list Entry) : bool :=
  forallb (fun en => negb (Listener_eqb (fn en) listener
                           && Context_eqb (Events.context en) context)) l.

(** The calls that running the listeners [l], one after the other,
    records. *)
Definition runs (data : list nat) (l : list Entry) : list Call :=
  map (fun en => Ran (wrapped en) (context en) data) l.

(** What [emit] returns for the results of the listeners it ran: [false]
    once a listener has returned [false], else the result of the last
    one. *)
Definition emitValue (results : list Result) : Result :=
  if existsb (fun r => match r with RFalse => true | _ => false end) results
  then RFalse else last results RUndefined.

(** A closure of [once] that its own call of [off] finds: in part_000
    [off] looks for the context of the emitter, in part_001 for the
    context the closure runs with. *)
Definition removesItself (en : Entry) : bool :=
  match fn en with
  | Plain _ => false
  | Feedback000 _ _ => Context_eqb (context en) Self
  | Feedback001 _ _ => true
  end.

End Events.

(* ===================================================================== *)
(** * The transfers: [list], [get], [put] and their event handlers *)
(* ===================================================================== *)

Module Ops.

Import Js Dispatch Pasv.

(** The first argument a completion function is called with: nothing
    ([null], [undefined] or no argument at all), an [Error], or the
    [hadError] flag of a socket's 'close' event. *)
Inductive Arg1 : Type :=
| NoError
| Err (e : JsError)
| HadError (b : bool).

(** The second argument: nothing, the text of a listing, or the data
    socket. *)
Inductive Arg2 : Type :=
| Nothing
| Listing (txt : string)
| Socket.

(** [if (error)]. *)
Definition truthy1 (a : Arg1) : bool :=
  match a with
  | NoError => false
  | Err _ => true
  | HadError b => b
  end.

(** What a transfer does to the outside: calls of the caller's completion
    function, commands handed to [execute], and what it does to the data
    socket and the session. *)
Inductive Out : Type :=
| UserCall (a1 : Arg1) (a2 : Arg2)
| Execute (line : string)
| EmitTimeout            (* the call [self.emit('timeout')] *)
| SocketEnd
| SocketPause
| Pipe.

(** The four transfers: [list], [get] with a function, [get] with a
    local path, and [put] (through [getPutSocket]). *)
Inductive Op : Type := List | GetFn | GetFile | PutOp.

(** The events of the data socket (and of the write stream of
    [get]) that the transfers listen to. *)
Inductive EvName : Type :=
| EvData | EvTimeout | EvClose | EvError | EvEnd | EvReadable | EvFileError.

Definition EvName_eqb (a b : EvName) : bool :=
  match a, b with
  | EvData, EvData | EvTimeout, EvTimeout | EvClose, EvClose
  | EvError, EvError | EvEnd, EvEnd | EvReadable, EvReadable
  | EvFileError, EvFileError => true
  | _, _ => false
  end.

(** What an event carries. *)
Inductive Payload : Type :=
| PNone
| PData (d : string)
| PHadError (b : bool)
| PError (e : JsError).

(** The functions that are the target of [pasvTimeout] or are registered
    as listeners as they are: the once-guarded completion function of the
    caller, or [cmdCallback] of [getGetSocket]. *)
Inductive Target : Type := TUser | TCmdGet.

(** The listeners the transfers register. *)
Inductive Handler : Type :=
| HListData             (* list: function(data) { listing += data } *)
| HListClose            (* list: function(error) { callback(error, listing) } *)
| HTimeout (t : Target) (* pasvTimeout(socket, t) *)
| HCall (t : Target)    (* t itself registered as the listener *)
| HGetError             (* getGetSocket: function(error) { ...; cmdCallback(error) } *)
| HProgress.            (* get: emitProgress *)

Record Listener := mkListener {
  event : EvName;
  isOnce : bool;
  handler : Handler
}.

(** The state of one transfer: the cells of the wrappers [once] made
    for it, the text [list] accumulates, the listeners on the data socket
    and the write stream, whether the transfer command has been given to
    [execute], the emitter of the session (the [FTP] object is an
    [Events]; [pasvTimeout] calls its [emit]), and what the transfer did
    so far.  The field [_pasvSocket] and the 'close' listener of
    [getPasvSocket], which only clears that field, are left out.

    - [cUser]  : [once(callback)] around the caller's completion function
                 ([list] line 399, [get] lines 463/465, [getPutSocket]
                 line 620);
    - [cPasv]  : [once(callback || NOOP)] of [getPasvSocket];
    - [cOuter] : [once(callback)] of [getGetSocket], [feedback] of
                 [getPutSocket];
    - [cCmd]   : [putCallback] of [getPutSocket]. *)
Record OpSt := mkOpSt {
  cUser : Once.Cell unit;
  cPasv : Once.Cell unit;
  cOuter : Once.Cell unit;
  cCmd : Once.Cell unit;
  listing : string;
  listeners : list Listener;
  cmdIssued : bool;
  session : Events.Emitter;
  trace : list Out
}.

Definition set_cUser v s := mkOpSt v (cPasv s) (cOuter s) (cCmd s) (listing s) (listeners s) (cmdIssued s) (session s) (trace s).
Definition set_cPasv v s := mkOpSt (cUser s) v (cOuter s) (cCmd s) (listing s) (listeners s) (cmdIssued s) (session s) (trace s).
Definition set_cOuter v s := mkOpSt (cUser s) (cPasv s) v (cCmd s) (listing s) (listeners s) (cmdIssued s) (session s) (trace s).
Definition set_cCmd v s := mkOpSt (cUser s) (cPasv s) (cOuter s) v (listing s) (listeners s) (cmdIssued s) (session s) (trace s).
Definition set_listing v s := mkOpSt (cUser s) (cPasv s) (cOuter s) (cCmd s) v (listeners s) (cmdIssued s) (session s) (trace s).
Definition set_listeners v s := mkOpSt (cUser s) (cPasv s) (cOuter s) (cCmd s) (listing s) v (cmdIssued s) (session s) (trace s).
Definition set_cmdIssued v s := mkOpSt (cUser s) (cPasv s) (cOuter s) (cCmd s) (listing s) (listeners s) v (session s) (trace s).
Definition set_session v s := mkOpSt (cUser s) (cPasv s) (cOuter s) (cCmd s) (listing s) (listeners s) (cmdIssued s) v (trace s).
Definition out (o : Out) s := mkOpSt (cUser s) (cPasv s) (cOuter s) (cCmd s) (listing s) (listeners s) (cmdIssued s) (session s) (trace s ++ [o]).

Definition Args : Type := Arg1 * Arg2.

(** [socket.on(event, handler)] and [socket.once(event, handler)]. *)
Definition on (ev : EvName) (h : Handler) (s : OpSt) : OpSt :=
  set_listeners (listeners s ++ [mkListener ev false h]) s.

Definition once (ev : EvName) (h : Handler) (s : OpSt) : OpSt :=
  set_listeners (listeners s ++ [mkListener ev true h]) s.

(** The caller's completion function: its call is recorded. *)
Definition userFn (a : Args) (s : OpSt) : OpSt * unit :=
  (out (UserCall (fst a) (snd a)) s, tt).

(** The wrapper [once(callback)] around the caller's function. *)
Definition userOnce (a : Args) (s : OpSt) : OpSt :=
  fst (Once.cb OpSt Args unit cUser set_cUser userFn a s).

Definition passiveTimeout : JsError := mkError "Passive socket timeout" None.

(** [FTP.prototype.pasvTimeout]: the listener is registered with
    [once]. *)
Definition pasvTimeout (t : Target) (s : OpSt) : OpSt :=
  once EvTimeout (HTimeout t) s.

(** [finalCallback] of [get]: the once-guarded function of the caller, or,
    for a local path, the function that pipes the socket into the file. *)
Definition finalCallback (op : Op) (a : Args) (s : OpSt) : OpSt * unit :=
  match op with
  | GetFile =>
      if truthy1 (fst a) then (userOnce (fst a, Nothing) s, tt)
      else
        let s := on EvFileError (HCall TUser) s in
        let s := on EvReadable HProgress s in
        let s := on EvError (HCall TUser) s in
        let s := on EvEnd (HCall TUser) s in
        let s := on EvClose (HCall TUser) s in
        (out Pipe s, tt)
  | _ => (userOnce a s, tt)
  end.

(** [callback = once(callback)] in [getGetSocket]. *)
Definition getCallback (op : Op) (a : Args) (s : OpSt) : OpSt :=
  fst (Once.cb OpSt Args unit cOuter set_cOuter (finalCallback op) a s).

Definition unexpected (response : Response) : JsError :=
  mkError ("Unexpected command " ++ text response)%string None.

(** [cmdCallback] of [getGetSocket], called with an error alone or
    with the pair that [parse] gives.  (A call with neither, which only a
    listener fired without an error could make, reads [response.code] of
    [undefined] and throws: nothing more happens.)  The closure always
    holds the socket, so the guard [!socket] never fires. *)
Definition cmdCallbackGet (op : Op) (error : Arg1) (response : option Response)
    (s : OpSt) : OpSt :=
  if truthy1 error then getCallback op (error, Nothing) s
  else
    match response with
    | Some r =>
        if (code r =? 125)%Z || (code r =? 150)%Z
        then getCallback op (NoError, Socket) s
        else getCallback op (Err (unexpected r), Nothing) s
    | None => s
    end.

(** [feedback] of [getPutSocket]: the function [once] wraps, then the
    wrapper.  The function [put] passes as [callback] only acts when
    there is no error: it pipes the source into the socket. *)
Definition feedbackFn (a : Args) (s : OpSt) : OpSt * unit :=
  if truthy1 (fst a) then (userOnce (fst a, Nothing) s, tt)
  else (out Pipe s, tt).

Definition feedback (a : Args) (s : OpSt) : OpSt :=
  fst (Once.cb OpSt Args unit cOuter set_cOuter feedbackFn a s).

(** [putCallback] of [getPutSocket]: the function [once] wraps, then the
    wrapper. *)
Definition putCallbackFn (a : option JsError * Response) (s : OpSt) : OpSt * unit :=
  match fst a with
  | Some e => (feedback (Err e, Nothing) s, tt)
  | None =>
      let r := snd a in
      if (code r =? 125)%Z || (code r =? 150)%Z
      then (feedback (NoError, Socket) (pasvTimeout TUser s), tt)
      else (feedback (Err (unexpected r), Nothing) s, tt)
  end.

Definition putCallback (error : option JsError) (response : Response) (s : OpSt) : OpSt :=
  fst (Once.cb OpSt (option JsError * Response) unit cCmd set_cCmd putCallbackFn
         (error, response) s).

Definition expectedMarksError (response : Response) : JsError :=
  mkError ("Expected marks [object Object] instead of: " ++ text response)%string None.

(** [cmdCallback] of [list]. *)
Definition cmdCallbackList (error : option JsError) (response : Response) (s : OpSt) : OpSt :=
  match error with
  | Some e => userOnce (Err e, Nothing) s
  | None =>
      if existsb (fun mark => (mark =? code response)%Z) (marks expectedMarks) then s
      else userOnce (Err (expectedMarksError response), Nothing) s
  end.

(** A call of a target with the arguments a listener receives. *)
Definition callTarget (op : Op) (t : Target) (a : Arg1) (s : OpSt) : OpSt :=
  match t with
  | TUser => userOnce (a, Nothing) s
  | TCmdGet => cmdCallbackGet op a None s
  end.

Definition arg1Of (p : Payload) : Arg1 :=
  match p with
  | PError e => Err e
  | PHadError b => HadError b
  | _ => NoError
  end.

(** The listener [pasvTimeout] registers, lines 655-660:
    [self.emit('timeout')] runs the 'timeout' listeners of the session;
    when it returns, the socket is ended and the target is called with
    the error; when it throws, neither happens.  The flag tells whether
    the listener threw. *)
Definition timeoutHandler (op : Op) (t : Target) (s : OpSt) : OpSt * bool :=
  match Events.emit "timeout" [] (session s) with
  | Events.Returned _ e =>
      (callTarget op t (Err passiveTimeout)
         (out SocketEnd (set_session e (out EmitTimeout s))), false)
  | Events.ThrewTypeError e => (set_session e (out EmitTimeout s), true)
  end.

(** The body of each listener, and whether it threw. *)
Definition runHandler (op : Op) (h : Handler) (p : Payload) (s : OpSt) : OpSt * bool :=
  match h with
  | HListData =>
      match p with
      | PData d => (set_listing (listing s ++ d)%string s, false)
      | _ => (s, false)
      end
  | HListClose => (userOnce (arg1Of p, Listing (listing s)) s, false)
  | HTimeout t => timeoutHandler op t s
  | HCall t => (callTarget op t (arg1Of p) s, false)
  | HGetError => (callTarget op TCmdGet (arg1Of p) s, false)
  | HProgress => (s, false)
  end.

(** Removal of the first listener equal to the one that fires, which is
    what a listener registered with [once] does before it runs. *)
Definition Handler_eqb (a b : Handler) : bool :=
  match a, b with
  | HListData, HListData | HListClose, HListClose
  | HGetError, HGetError | HProgress, HProgress => true
  | HTimeout TUser, HTimeout TUser | HTimeout TCmdGet, HTimeout TCmdGet => true
  | HCall TUser, HCall TUser | HCall TCmdGet, HCall TCmdGet => true
  | _, _ => false
  end.

Fixpoint removeListener (l : Listener) (ls : list Listener) : list Listener :=
  match ls with
  | [] => []
  | l' :: ls' =>
      if EvName_eqb (event l) (event l') && Bool.eqb (isOnce l) (isOnce l')
         && Handler_eqb (handler l) (handler l')
      then ls' else l' :: removeListener l ls'
  end.

(** [emit(event, payload)] on the data socket: the listeners registered
    for the event when it is emitted run in the order of registration,
    until one throws. *)
Fixpoint fire (op : Op) (ls : list Listener) (ev : EvName) (p : Payload) (s : OpSt) : OpSt :=
  match ls with
  | [] => s
  | l :: ls' =>
      if EvName_eqb (event l) ev then
        let s := if isOnce l then set_listeners (removeListener l (listeners s)) s else s in
        let '(s, threw) := runHandler op (handler l) p s in
        if threw then s else fire op ls' ev p s
      else fire op ls' ev p s
  end.

Definition emitEvent (op : Op) (ev : EvName) (p : Payload) (s : OpSt) : OpSt :=
  fire op (listeners s) ev p s.

(** The function each transfer gives to [getPasvSocket], called with
    [(error)] or [(null, socket)]. *)
Definition pasvDone (op : Op) (path : string) (a : Args) (s : OpSt) : OpSt * unit :=
  match op with
  | List =>
      if truthy1 (fst a) then (userOnce (fst a, Nothing) s, tt)
      else
        let s := on EvData HListData s in
        let s := pasvTimeout TUser s in
        let s := once EvClose HListClose s in
        let s := once EvError (HCall TUser) s in
        (out (Execute ("list " ++ path)) (set_cmdIssued true s), tt)
  | GetFn | GetFile =>
      if truthy1 (fst a) then (cmdCallbackGet op (fst a) None s, tt)
      else
        let s := on EvError HGetError s in
        let s := pasvTimeout TCmdGet s in
        let s := out SocketPause s in
        (out (Execute ("retr " ++ path)) (set_cmdIssued true s), tt)
  | PutOp =>
      if truthy1 (fst a) then (feedback (fst a, Nothing) s, tt)
      else
        let s := on EvClose (HCall TUser) s in
        let s := on EvError (HCall TUser) s in
        (out (Execute ("stor " ++ path)) (set_cmdIssued true s), tt)
  end.

(** [callback = once(callback || NOOP)] in [getPasvSocket]. *)
Definition pasvCallback (op : Op) (path : string) (a : Args) (s : OpSt) : OpSt :=
  fst (Once.cb OpSt Args unit cPasv set_cPasv (pasvDone op path) a s).

(** What reaches a transfer: the reply to 'pasv' and the reply to the
    transfer command, both delivered by [parse], and the events of the
    data socket and the write stream. *)
Inductive Event : Type :=
| PasvReply (error : option JsError) (response : Response)
| CmdReply (error : option JsError) (response : Response)
| Emit (ev : EvName) (p : Payload).

(** The transfer right after its call, in a session with the emitter
    [session]: the wrappers are fresh and 'pasv' has been given to
    [execute]. *)
Definition start (session : Events.Emitter) : OpSt :=
  mkOpSt Once.fresh Once.fresh Once.fresh Once.fresh "" [] false session [Execute "pasv"].

Definition step (op : Op) (path : string) (e : Event) (s : OpSt) : OpSt :=
  match e with
  | PasvReply error response =>
      match pasvReply error response with
      | PasvFail e => pasvCallback op path (Err e, Nothing) s
      | PasvConnect _ => pasvCallback op path (NoError, Socket) s
      end
  | CmdReply error response =>
      if cmdIssued s then
        match op with
        | List => cmdCallbackList error response s
        | GetFn | GetFile =>
            cmdCallbackGet op (match error with Some e => Err e | None => NoError end)
              (Some response) s
        | PutOp => putCallback error response s
        end
      else s
  | Emit ev p => emitEvent op ev p s
  end.

Definition run (op : Op) (path : string) (es : list Event) (s : OpSt) : OpSt :=
  fold_left (fun s e => step op path e s) es s.

(** The calls of the caller's completion function in a trace. *)
Definition userCalls (t : list Out) : list Out :=
  filter (fun o => match o with UserCall _ _ => true | _ => false end) t.

(** [put] from a local path: the callback of [fs.stat] calls the
    caller's function with an error and returns, or throws, or goes on
    to the upload, which is then driven by the events. *)
Definition putFromPath (error : option Put.FsError) (stats : option Put.Stats)
    (path : string) (es : list Event) (session : Events.Emitter) : list Out :=
  match Put.statCallback error stats with
  | Put.CallbackError msg => [UserCall (Err (mkError msg None)) Nothing]
  | Put.ThrowsTypeError => []
  | Put.PutReadable _ => trace (run PutOp path es (start session))
  end.

End Ops.

(* ===================================================================== *)
(** * [FTP.prototype.ls] *)
(* ===================================================================== *)

Module Ls.

Import Js Dispatch Ops.

(** A file object of a listing: its name, and the rest of its
    properties, which [ls] does not read. *)
Record FileEntry := mkFileEntry {
  name : string;
  others : nat
}.

(** What [entriesToList] hands to the listing parser,
    [entries.text || entries]: a text, the response itself when its text
    is empty, or another object that has no [text]. *)
Inductive ParserInput : Type :=
| InText (t : string)
| InResponse (r : Response)
| InOther.

(** What the listing parser calls its callback with: an error, or the
    files. *)
Inductive ParseOutcome : Type :=
| ParseFailed (e : JsError)
| Parsed (files : list FileEntry).

(** Modelled from the spec: the listing parser ([lib/parse-listing]) and
    the Unicode normalisation ([unorm]) are not among the sources.  The
    specification takes them as the pure functions [parse_entries(text)
    -> [FileEntry]] and [nfc(string) -> string]; in the source
    [parseFTPEntries] gives its result, or an error, to its callback,
    which it calls once. *)
Record External := mkExternal {
  parseFTPEntries : ParserInput -> ParseOutcome;
  nfc : string -> string
}.

(** A call of the function given to [ls]: [callback(error)] or
    [callback(null, files)]. *)
Inductive LsCall : Type :=
| LsError (error : Arg1)
| LsFiles (files : list FileEntry).

(** The second argument of [entriesToList]: nothing, the text of a
    listing, a response, or another object. *)
Inductive Entries : Type :=
| ENone
| EText (t : string)
| EResponse (r : Response)
| EOther.

(** The callback [entriesToList] gives to [parseFTPEntries], applied to
    what the parser yields. *)
Definition parsed (x : External) (input : ParserInput) : list LsCall :=
  match parseFTPEntries x input with
  | ParseFailed e => [LsError (Err e)]
  | Parsed files =>
      [LsFiles (map (fun file => mkFileEntry (nfc x (name file)) (others file)) files)]
  end.

(** [entriesToList], lines 718-736: the calls of [callback] it makes.
    Without an error and without entries, [entries.text] throws and
    [callback] is not called. *)
Definition entriesToList (x : External) (error : Arg1) (entries : Entries) : list LsCall :=
  if truthy1 error then [LsError error]
  else
    match entries with
    | ENone => []
    | EText t => parsed x (InText t)
    | EResponse r => parsed x (if truthy (text r) then InText (text r) else InResponse r)
    | EOther => parsed x InOther
    end.

(** [entriesToList] as the completion function of [list]. *)
Definition fromList (x : External) (o : Out) : list LsCall :=
  match o with
  | UserCall a1 a2 =>
      entriesToList x a1
        (match a2 with
         | Nothing => ENone
         | Listing t => EText t
         | Socket => EOther
         end)
  | _ => []
  end.

(** [self.list(filePath, entriesToList)]: the calls of [callback] that
    the events of the transfer lead to. *)
Definition viaList (x : External) (path : string) (events : list Ops.Event)
    (session : Events.Emitter) : list LsCall :=
  flat_map (fromList x) (trace (run List path events (start session))).

(** [s.indexOf(needle) > -1]. *)
Fixpoint includes (needle s : string) : bool :=
  String.prefix needle s
  || match s with
     | EmptyString => false
     | String _ s' => includes needle s'
     end.

(** [error && (error.code === 502 || error.code === 500)]. *)
Definition errored (error : option JsError) : bool :=
  match error with
  | Some e =>
      match errCode e with
      | Some c => (c =? 502)%Z || (c =? 500)%Z
      | None => false
      end
  | None => false
  end.

(** [self.system && self.system.indexOf('hummingbird') > -1]. *)
Definition isHummingbird (system : option string) : bool :=
  match system with
  | Some sy => truthy sy && includes "hummingbird" sy
  | None => false
  end.

(** The function [ls] gives to [raw('stat', filePath, ...)], lines
    743-761, on one call [(error, data)] by the dispatcher.  [system] is
    [self.system] at that time, [events] what reaches the transfer that
    [list] then starts. *)
Definition statCallback (x : External) (path : string) (system : option string)
    (events : list Ops.Event) (session : Events.Emitter)
    (call : option JsError * Arg) : list LsCall :=
  if errored (fst call) || isHummingbird system
  then viaList x path events session
  else
    entriesToList x
      (match fst call with Some e => Err e | None => NoError end)
      (match snd call with
       | Resp r => EResponse r
       | Undefined => ENone
       | Feats _ => EOther
       end).

(** The calls the dispatcher made of the caller's function [id], as its
    log records them. *)
Fixpoint callsOf (id : nat) (l : list Dispatch.Event) : list (option JsError * Arg) :=
  match l with
  | [] => []
  | Called f error arg :: l' =>
      if fid f =? id then (error, arg) :: callsOf id l' else callsOf id l'
  | Sent _ :: l' => callsOf id l'
  end.

(** [FTP.prototype.ls]: the calls of its [callback].  With [useList] it
    goes through [list]; else it gives a function to [raw('stat', ...)],
    and [statCalls] are the calls of that function. *)
Definition ls (x : External) (useList : bool) (path : string) (system : option string)
    (statCalls : list (option JsError * Arg))
    (events : list Ops.Event) (session : Events.Emitter) : list LsCall :=
  if useList then viaList x path events session
  else flat_map (statCallback x path system events session) statCalls.

End Ls.

(* ===================================================================== *)
(** * The words of the specification *)
(* ===================================================================== *)

Module Spec.

Import Js Dispatch.

(** Modelled from the spec: the response parser
    ([lib/ftp-response-parser]) is not among the sources.  The data model
    of the specification gives the two derived fields of a reply:
    [is_error] is [code] in [400, 599] and [is_mark] is [code] in
    [100, 199]. *)
Definition reply (c : Z) (t : string) : Response :=
  mkResponse c t ((400 <=? c) && (c <=? 599))%Z ((100 <=? c) && (c <=? 199))%Z.



(** The canonical decimal numeral of a number. *)
Definition decimal (n : nat) : string :=
  DecimalString.NilEmpty.string_of_uint (Nat.to_uint n).

(** The canonical six-number group [h1,h2,h3,h4,p1,p2] of a PASV reply. *)
Definition pasvGroup (h1 h2 h3 h4 p1 p2 : nat) : string :=
  (decimal h1 ++ "," ++ decimal h2 ++ "," ++ decimal h3 ++ "," ++ decimal h4
   ++ "," ++ decimal p1 ++ "," ++ decimal p2)%string.

(** The host [h1.h2.h3.h4]. *)
Definition dotted (h1 h2 h3 h4 : nat) : string :=
  (decimal h1 ++ "." ++ decimal h2 ++ "." ++ decimal h3 ++ "." ++ decimal h4)%string.

(** The sentence "parsing a PASV reply text containing the canonical
    six-number group yields host = h1.h2.h3.h4 and port = p1*256 + p2",
    for any text around the group. *)
Definition roundTripAnywhere : Prop :=
  forall (h1 h2 h3 h4 p1 p2 : nat) (pre post : string),
    h1 <= 255 -> h2 <= 255 -> h3 <= 255 -> h4 <= 255 -> p1 <= 255 -> p2 <= 255 ->
    Pasv.getPasvPort (pre ++ pasvGroup h1 h2 h3 h4 p1 p2 ++ post)
    = Some {| Pasv.host := dotted h1 h2 h3 h4;
              Pasv.port := (Z.of_nat p1 * 256 + Z.of_nat p2)%Z |}.

(** The sentence "for any reply text in which the PASV regex finds no
    match, get_pasv_socket fails with the error Bad passive host/port
    combination": the reply reaches the callback of [getPasvSocket]
    through [parse], with the error [parse] builds for it. *)
Definition noMatchIsBadPassive : Prop :=
  forall response : Response,
    Pasv.exec Pasv.RE_PASV (text response) = None ->
    Pasv.pasvReply (errorOf response) response
    = Pasv.PasvFail (mkError "Bad passive host/port combination" None).

(** The group is delimited in the reply text: what comes before it holds
    no comma and does not end in a character of the class [[-\d]], and
    what comes after it does not start with one, as in
    [227 Entering Passive Mode (h1,h2,h3,h4,p1,p2)]. *)
Fixpoint noComma (s : string) : bool :=
  match s with
  | EmptyString => true
  | String c s' => negb (Ascii.eqb c ",") && noComma s'
  end.

Fixpoint lastIsClass (s : string) : bool :=
  match s with
  | EmptyString => false
  | String c EmptyString => Pasv.isClass c
  | String _ s' => lastIsClass s'
  end.

Fixpoint allClass (s : string) : bool :=
  match s with
  | EmptyString => true
  | String c s' => Pasv.isClass c && allClass s'
  end.

(** What the proof of the round trip needs of the numeral of a number:
    it is not empty, made of class characters, free of commas, and reads
    back, under [& 255], as the number. *)
Definition numeralOk (n : nat) : bool :=
  truthy (decimal n) && allClass (decimal n) && noComma (decimal n)
  && (bitAnd (parseInt (decimal n)) 255 =? Z.of_nat n)%Z.

Definition headIsClass (s : string) : bool :=
  match s with
  | EmptyString => false
  | String c _ => Pasv.isClass c
  end.

(** The text stops a run of class characters before anything but a
    comma. *)
Fixpoint stopsBeforeComma (s : string) : bool :=
  match s with
  | EmptyString => true
  | String c s' => if Pasv.isClass c then stopsBeforeComma s' else negb (Ascii.eqb c ",")
  end.

Definition headIsComma (s : string) : bool :=
  match s with
  | String c _ => Ascii.eqb c ","
  | EmptyString => false
  end.

(** The calls of callers' functions recorded in a log. *)
Definition calls (l : list Event) : list Event :=
  filter (fun e => match e with Called _ _ _ => true | Sent _ => false end) l.

(** The head command expects a mark with the code [c]. *)
Definition headExpects (c : Z) (s : FTP) : bool :=
  match commandQueue s with
  | cmd :: _ =>
      match expectsMark (callback cmd) with
      | Some em => memZ c (marks em)
      | None => false
      end
  | [] => false
  end.

(** A reply that is neither a mark, nor the greeting, nor the code the
    session is set to ignore: with a command in the queue, [parseResponse]
    pairs it with the head command. *)
Definition terminal (r : Response) (s : FTP) : bool :=
  negb (isMark r) && negb (code r =? 220)%Z
  && negb (sameCode (ignoreCmdCode s) (code r)).

(** The USER reply lets [auth] go on to PASS. *)
Definition userAccepted (r : Response) : bool :=
  negb (isError r) && memZ (code r) [230; 331; 332]%Z.

(** Lines 151-153 of [parseResponse]: the code to ignore is armed when
    [expectsMark.ignore] is truthy. *)
Definition arm (em : ExpectsMark) (s : FTP) : FTP :=
  if truthyCode (ignore em) then set_ignoreCmdCode (ignore em) s else s.

(** The sentence "the dispatcher arms [ignore_next_code] and keeps that
    command at the head of the queue" for an expected mark. *)
Definition markKeepsHead : Prop :=
  forall (s : FTP) (cmd : Command) (rest : list Command) (em : ExpectsMark) (r : Response),
    commandQueue s = cmd :: rest ->
    expectsMark (callback cmd) = Some em ->
    isMark r = true ->
    memZ (code r) (marks em) = true ->
    ignoreCmdCode (parseResponse r s) = ignore em
    /\ commandQueue (parseResponse r s) = cmd :: rest.




(** The guard of a transfer: while the wrapper around the caller's
    completion function has not been called the function has not run, and
    it never ran more than once. *)
Definition guarded (s : Ops.OpSt) : Prop :=
  match Once.called (Ops.cUser s) with
  | false => Ops.userCalls (Ops.trace s) = []
  | true => List.length (Ops.userCalls (Ops.trace s)) <= 1
  end.

(** A step of a transfer that keeps the guard. *)
Definition keeps (F : Ops.OpSt -> Ops.OpSt) : Prop :=
  forall s, guarded s -> guarded (F s).

Definition isUserCall (o : Ops.Out) : bool :=
  match o with Ops.UserCall _ _ => true | _ => false end.

End Spec.

(* ===================================================================== *)
(** * Counting a caller's function in a session *)
(* ===================================================================== *)

Module Linear.

Import Js Dispatch.

Definition isFn (id : nat) (f : UserFn) : nat := if fid f =? id then 1 else 0.

(** How many times the function [id] of a caller is held by a closure. *)
Fixpoint occCb (id : nat) (cb : Callback) : nat :=
  match cb with
  | NOOP => 0
  | UserCb f => isFn id f
  | FeatCb k | SystCb k | AuthUserCb _ _ k | AuthPassCb _ _ k
  | AuthTypeCb _ k | SetTypeCb _ k => occK id k
  | RnfrCb _ f => isFn id f
  end
with occK (id : nat) (k : Cont) : nat :=
  match k with
  | UserK f => isFn id f
  | AuthChainK _ cb | EnqueueK _ cb => occCb id cb
  end.

Definition occCmd (id : nat) (cmd : Command) : nat := occCb id (callback cmd).

Definition occQueue (id : nat) (q : list Command) : nat :=
  list_sum (map (occCmd id) q).

(** How many times the session holds the function: in the queue and in
    the connect listener. *)
Definition occ (id : nat) (s : FTP) : nat :=
  occQueue id (commandQueue s)
  + match firstAction s with Some cmd => occCmd id cmd | None => 0 end.

(** How many times the function was called. *)
Fixpoint called (id : nat) (l : list Event) : nat :=
  match l with
  | [] => 0
  | Called f _ _ :: l' => isFn id f + called id l'
  | Sent _ :: l' => called id l'
  end.

(** The calls still possible plus the calls made. *)
Definition pot (id : nat) (s : FTP) : nat := occ id s + called id (log s).

(** What reaches a session: a reply, the connection of the control
    socket, and the operations a caller starts. *)
Inductive Input : Type :=
| Reply (r : Response)
| Connected
| Closed
| Destroy
| Raw (cmd : string) (args : list string) (cb : Callback)
| Execute (action : string) (cb : Callback)
| Auth (user pass : string) (k : Cont)
| GetFeatures (k : Cont)
| SetType (t : string) (k : Cont)
| Rename (from to : string) (f : UserFn).

Definition stepInput (i : Input) (s : FTP) : FTP :=
  match i with
  | Reply r => parseResponse r s
  | Connected => onConnect s
  | Closed => onClose s
  | Destroy => destroy s
  | Raw cmd args cb => raw cmd args cb s
  | Execute a cb => execute a cb s
  | Auth u p k => auth u p k s
  | GetFeatures k => getFeatures k s
  | SetType t k => setType t k s
  | Rename from to f => rename from to f s
  end.

Definition runInputs (l : list Input) (s : FTP) : FTP :=
  fold_left (fun s i => stepInput i s) l s.

(** How many times an input hands the function to the session. *)
Definition occInput (id : nat) (i : Input) : nat :=
  match i with
  | Reply _ | Connected | Closed | Destroy => 0
  | Raw _ _ cb | Execute _ cb => occCb id cb
  | Auth _ _ k | GetFeatures k | SetType _ k => occK id k
  | Rename _ _ f => isFn id f
  end.

Definition occInputs (id : nat) (l : list Input) : nat :=
  list_sum (map (occInput id) l).

End Linear.

(* ===================================================================== *)
(** * More of the session: [hasFeat], and what its properties speak of *)
(* ===================================================================== *)

Module Session.

Import Js Dispatch.

(** What [hasFeat] does: it returns a boolean, or it throws the
    [TypeError] of [this.features.indexOf] when no features are cached. *)
Inductive HasFeat : Type :=
| Returns (b : bool)
| ThrowsTypeError.

(** [FTP.prototype.hasFeat]. *)
Definition hasFeat (feature : string) (s : FTP) : HasFeat :=
  if truthy feature then
    match features s with
    | Some fs => Returns (existsb (String.eqb (toLowerCase feature)) fs)
    | None => ThrowsTypeError
    end
  else Returns false.

(** A command is in flight exactly when the queue is not empty. *)
Definition consistent (s : FTP) : Prop :=
  inProgress s = match commandQueue s with [] => false | _ :: _ => true end.

(** The number of lines written to the control socket. *)
Fixpoint sends (l : list Event) : nat :=
  match l with
  | [] => 0
  | Sent _ :: l' => S (sends l')
  | Called _ _ _ :: l' => sends l'
  end.

(** A reply that is neither a mark nor the greeting. *)
Definition plain (r : Response) : bool :=
  negb (isMark r) && negb (code r =? 220)%Z.

(** The commands of callers: an action and the function to call. *)
Definition userCommand (p : string * UserFn) : Command :=
  mkCommand (fst p) (UserCb (snd p)).

(** What a queue of callers' commands and a sequence of replies leave in
    the log: each reply calls the function of the command at the head,
    then the next command, if there is one, is written. *)
Fixpoint fifoLog (q : list (string * UserFn)) (rs : list Response) : list Event :=
  match q, rs with
  | (_, f) :: q', r :: rs' =>
      Called f (errorOf r) (Resp r)
      :: match q' with
         | (a', _) :: _ => if truthy a' then [Sent (a' ++ CRLF)] else []
         | [] => []
         end
      ++ fifoLog q' rs'
  | _, _ => []
  end.

(** A connected session at rest: the control socket is writable, no
    command is queued or in flight, and no code is set to be ignored. *)
Definition idle (s : FTP) : Prop :=
  socketWritable s = true /\ commandQueue s = [] /\ inProgress s = false
  /\ ignoreCmdCode s = None.

(** An input that is not a reply of the server. *)
Definition notReply (i : Linear.Input) : bool :=
  match i with Linear.Reply _ => false | _ => true end.

(** A step of the session that writes at most one line, and none while
    a command is in flight, which it then leaves in flight. *)
Definition quiet (F : FTP -> FTP) : Prop :=
  forall s,
    sends (log (F s)) <= sends (log s) + 1
    /\ (inProgress s = true ->
        sends (log (F s)) = sends (log s) /\ inProgress (F s) = true).

(** A string made of characters that satisfy [p]. *)
Fixpoint allChars (p : ascii -> bool) (s : string) : bool :=
  match s with
  | EmptyString => true
  | String c s' => p c && allChars p s'
  end.

(** A code unit below 128.  On strings of these, [toUpperCase] of the
    model is [String.prototype.toUpperCase]. *)
Definition isAscii7 (c : ascii) : bool := nat_of_ascii c <? 128.

(** What a group of [RE_PASV] can capture: characters of the class
    [[-\d]] and commas. *)
Definition groupChar (c : ascii) : bool := Pasv.isClass c || Ascii.eqb c ",".

(** The groups of a match state hold characters of the class and commas
    only. *)
Definition groupsOk (st : Pasv.MatchState) : Prop :=
  Forall (fun g => allChars groupChar (snd g) = true) (Pasv.opened st)
  /\ Forall (fun g => allChars groupChar (snd g) = true) (Pasv.closed st).

(** The host after [replace(/,/g, '.')]: characters of the class and
    dots. *)
Definition hostChar (c : ascii) : bool := Pasv.isClass c || Ascii.eqb c ".".

(** What [trimStart] returns does not start with white space. *)
Definition headNotWhite (s : string) : bool :=
  match s with
  | EmptyString => true
  | String c _ => negb (isWhiteSpace c)
  end.

(** A feature as [_parseFeats] caches it: not empty, without white space
    at either end, without capital letters. *)
Definition normalFeature (f : string) : Prop :=
  truthy f = true /\ trim f = f /\ toLowerCase f = f.

End Session.

(* ===================================================================== *)
(** * Properties of the dispatcher *)
(* ===================================================================== *)

Import Js Dispatch Spec.

(** ** The equations of the source

    [auth] and [getFeatures] issue 'user' and 'feat' through [raw]; the
    definitions above use [rawAuth] there.  The two agree, so every
    function satisfies the equation its source text reads as. *)

Lemma trimEnd_cons (c : ascii) (s : string) :
  isWhiteSpace c = false -> trimEnd (String c s) = String c (trimEnd s).
Proof.
  intros Hc. cbn [trimEnd]. destruct (trimEnd s); [rewrite Hc|]; reflexivity.
Qed.

Lemma completeCmd_word4 (a b c d : ascii) (args : list string) :
  isWhiteSpace a = false -> isWhiteSpace b = false ->
  isWhiteSpace c = false -> isWhiteSpace d = false ->
  exists t,
    completeCmd (String a (String b (String c (String d "")))) args
    = String a (String b (String c (String d t))).
Proof.
  intros Ha Hb Hc Hd. unfold completeCmd, trim. cbn [String.append trimStart].
  rewrite Ha. rewrite !trimEnd_cons by assumption. eauto.
Qed.

Lemma RE_AUTH_user (args : list string) : RE_AUTH (completeCmd "user" args) = true.
Proof.
  destruct (completeCmd_word4 "u" "s" "e" "r" args) as [t Ht]; try reflexivity.
  rewrite Ht. unfold RE_AUTH. destruct t; cbn; rewrite ?orb_true_r; reflexivity.
Qed.

Lemma RE_AUTH_pass (args : list string) : RE_AUTH (completeCmd "pass" args) = true.
Proof.
  destruct (completeCmd_word4 "p" "a" "s" "s" args) as [t Ht]; try reflexivity.
  rewrite Ht. unfold RE_AUTH. destruct t; cbn; rewrite ?orb_true_r; reflexivity.
Qed.

Lemma RE_AUTH_feat (args : list string) : RE_AUTH (completeCmd "feat" args) = true.
Proof.
  destruct (completeCmd_word4 "f" "e" "a" "t" args) as [t Ht]; try reflexivity.
  rewrite Ht. unfold RE_AUTH. destruct t; cbn; rewrite ?orb_true_r; reflexivity.
Qed.


Lemma rawAuth_raw (cmd : string) (args : list string) (cb : Callback) (s : FTP) :
  RE_AUTH (completeCmd cmd args) = true -> rawAuth cmd args cb s = raw cmd args cb s.
Proof.
  intros H. unfold rawAuth, raw, execute, executeWith, runCommand.
  rewrite H, orb_true_r. reflexivity.
Qed.

(** [raw] on a writable socket, for a line that [runCommand] pushes. *)
Lemma raw_push (cmd : string) (args : list string) (cb : Callback) (s : FTP) :
  socketWritable s = true ->
  authenticated s || RE_AUTH (completeCmd cmd args) = true ->
  raw cmd args cb s = pushCmd (mkCommand (completeCmd cmd args) cb) s.
Proof.
  intros Hw H. unfold raw, execute, executeWith, runCommand. rewrite Hw, H. reflexivity.
Qed.

Lemma auth_eq (u p : string) (k : Cont) (s : FTP) :
  auth u p k s =
  if authenticating s then callK k (Some alreadyAuthenticating) Undefined s
  else raw "user" [orElse u "anonymous"]
         (AuthUserCb (orElse u "anonymous") (orElse p "@anonymous") k)
         (set_authenticating true s).
Proof.
  unfold auth, authWith. destruct (authenticating s); [reflexivity|].
  apply rawAuth_raw, RE_AUTH_user.
Qed.

Lemma getFeatures_eq (k : Cont) (s : FTP) :
  getFeatures k s =
  match features s with
  | Some fs => callK k None (Feats fs) s
  | None => raw "feat" [] (FeatCb k) s
  end.
Proof.
  unfold getFeatures. destruct (features s); [reflexivity|].
  apply rawAuth_raw, RE_AUTH_feat.
Qed.

Lemma callK_AuthChainK (a : string) (cb : Callback) (e : option JsError) (x : Arg) (s : FTP) :
  callK (AuthChainK a cb) e x s = auth (user s) (pass s) (EnqueueK a cb) s.
Proof. reflexivity. Qed.

Lemma callK_EnqueueK (a : string) (cb : Callback) (e : option JsError) (x : Arg) (s : FTP) :
  callK (EnqueueK a cb) e x s
  = nextCmd (set_commandQueue (commandQueue s ++ [mkCommand a cb]) s).
Proof. reflexivity. Qed.

(** ** What [send], [nextCmd] and [pushCmd] leave alone *)

Ltac case_cond :=
  match goal with
  | |- context [if ?b then _ else _] => destruct b
  | |- context [match commandQueue ?s with _ => _ end] => destruct (commandQueue s)
  end.

Ltac frame := intros; cbv beta delta [pushCmd nextCmd send] iota; repeat case_cond; reflexivity.

Lemma send_commandQueue c s : commandQueue (send c s) = commandQueue s.
Proof. frame. Qed.

Lemma send_ignoreCmdCode c s : ignoreCmdCode (send c s) = ignoreCmdCode s.
Proof. frame. Qed.

Lemma nextCmd_commandQueue s : commandQueue (nextCmd s) = commandQueue s.
Proof.
  unfold nextCmd. destruct (commandQueue s) eqn:E; [exact E|].
  destruct (negb _); [|exact E]. cbn. rewrite send_commandQueue. exact E.
Qed.

Lemma nextCmd_ignoreCmdCode s : ignoreCmdCode (nextCmd s) = ignoreCmdCode s.
Proof.
  unfold nextCmd. destruct (commandQueue s); [reflexivity|].
  destruct (negb _); [|reflexivity]. cbn. apply send_ignoreCmdCode.
Qed.

Lemma nextCmd_authenticated s : authenticated (nextCmd s) = authenticated s.
Proof. frame. Qed.

Lemma nextCmd_authenticating s : authenticating (nextCmd s) = authenticating s.
Proof. frame. Qed.


Lemma nextCmd_socketWritable s : socketWritable (nextCmd s) = socketWritable s.
Proof. frame. Qed.

Lemma nextCmd_calls s : calls (log (nextCmd s)) = calls (log s).
Proof.
  unfold nextCmd, send. repeat case_cond; try reflexivity.
  cbn. unfold calls. rewrite filter_app. cbn. apply app_nil_r.
Qed.

Lemma pushCmd_commandQueue cmd s :
  commandQueue (pushCmd cmd s) = commandQueue s ++ [cmd].
Proof. unfold pushCmd. rewrite nextCmd_commandQueue. reflexivity. Qed.

Lemma pushCmd_ignoreCmdCode cmd s : ignoreCmdCode (pushCmd cmd s) = ignoreCmdCode s.
Proof. unfold pushCmd. rewrite nextCmd_ignoreCmdCode. reflexivity. Qed.


(** ** A reply paired with the head command *)

Lemma parseResponse_terminal (r : Response) (s : FTP) (cmd : Command) (rest : list Command) :
  commandQueue s = cmd :: rest -> terminal r s = true ->
  parseResponse r s = parse r cmd (set_commandQueue rest s).
Proof.
  intros Hq Ht. unfold terminal in Ht.
  apply andb_prop in Ht as [Ht Hi]. apply andb_prop in Ht as [Hm H220].
  apply negb_true_iff in Hm, H220, Hi.
  unfold parseResponse, pairOrIgnore. rewrite Hq, H220, Hm, Hi. reflexivity.
Qed.

Lemma isSome_errorOf (r : Response) : isSome (errorOf r) = isError r.
Proof. unfold errorOf. destruct (isError r); reflexivity. Qed.

(* ===================================================================== *)
(** * A function handed to the session is called at most once *)
(* ===================================================================== *)

Import Linear.

Lemma called_app (id : nat) (l1 l2 : list Event) :
  called id (l1 ++ l2) = called id l1 + called id l2.
Proof.
  induction l1 as [|[d|f e x] l1 IH]; cbn; [reflexivity | exact IH | rewrite IH; lia].
Qed.

Lemma occQueue_app (id : nat) (q1 q2 : list Command) :
  occQueue id (q1 ++ q2) = occQueue id q1 + occQueue id q2.
Proof. unfold occQueue. rewrite map_app, list_sum_app. reflexivity. Qed.

Lemma pot_fields (id : nat) (s s' : FTP) :
  commandQueue s' = commandQueue s -> firstAction s' = firstAction s ->
  log s' = log s -> pot id s' = pot id s.
Proof. intros Hq Hf Hl. unfold pot, occ. rewrite Hq, Hf, Hl. reflexivity. Qed.

Lemma pot_send (id : nat) (c : string) (s : FTP) : pot id (send c s) = pot id s.
Proof.
  unfold send. destruct (truthy c); [|reflexivity].
  unfold pot, occ, emit. cbn [log commandQueue firstAction].
  rewrite called_app. cbn [called]. lia.
Qed.

Lemma pot_nextCmd (id : nat) (s : FTP) : pot id (nextCmd s) = pot id s.
Proof.
  unfold nextCmd. destruct (commandQueue s); [reflexivity|].
  destruct (negb _); [|reflexivity].
  rewrite <- (pot_send id (action c) s). apply pot_fields; reflexivity.
Qed.

Lemma pot_pushCmd (id : nat) (cmd : Command) (s : FTP) :
  pot id (pushCmd cmd s) = pot id s + occCmd id cmd.
Proof.
  unfold pushCmd. rewrite pot_nextCmd. unfold pot, occ, set_commandQueue.
  cbn [log commandQueue firstAction].
  rewrite occQueue_app. unfold occQueue at 2. cbn [map list_sum fold_right]. lia.
Qed.

Lemma pot_callUser (id : nat) (f : UserFn) (e : option JsError) (x : Arg) (s : FTP) :
  pot id (callUser f e x s) = pot id s + isFn id f.
Proof.
  unfold callUser, pot, occ, emit. cbn [log commandQueue firstAction].
  rewrite called_app. cbn [called]. lia.
Qed.

(** Setting a field other than the queue, the connect listener and the
    log does not change the count. *)
Ltac pot_set := apply pot_fields; reflexivity.

Lemma pot_createSocket (id : nat) (cmd : Command) (s : FTP) :
  pot id (createSocket (Some cmd) (set_authenticated false s))
  <= pot id s + occCmd id cmd.
Proof.
  unfold pot, occ, createSocket, set_firstAction, set_socketWritable, set_authenticated.
  cbn [log commandQueue firstAction]. lia.
Qed.

Lemma pot_executeWith (id : nat) (run : string -> Callback -> FTP -> FTP)
    (a : string) (cb : Callback) (s : FTP) :
  (forall s', pot id (run a cb s') <= pot id s' + occCb id cb) ->
  pot id (executeWith run a cb s) <= pot id s + occCb id cb.
Proof.
  intros H. unfold executeWith. destruct (socketWritable s); [apply H|].
  apply (pot_createSocket id (mkCommand a cb)).
Qed.

Lemma pot_rawAuth (id : nat) (cmd : string) (args : list string) (cb : Callback) (s : FTP) :
  pot id (rawAuth cmd args cb s) <= pot id s + occCb id cb.
Proof.
  unfold rawAuth. apply pot_executeWith. intros s'.
  rewrite pot_pushCmd. reflexivity.
Qed.

Lemma pot_authWith (id : nat) (invoke : option JsError -> Arg -> FTP -> FTP)
    (u p : string) (k : Cont) (s : FTP) :
  (forall e x s', pot id (invoke e x s') <= pot id s' + occK id k) ->
  pot id (authWith invoke u p k s) <= pot id s + occK id k.
Proof.
  intros H. unfold authWith. destruct (authenticating s); [apply H|].
  etransitivity; [apply pot_rawAuth|]. cbn [occCb].
  apply Nat.add_le_mono_r. apply Nat.eq_le_incl. pot_set.
Qed.

Lemma pot_callK (id : nat) (k : Cont) (e : option JsError) (x : Arg) (s : FTP) :
  pot id (callK k e x s) <= pot id s + occK id k.
Proof.
  destruct k as [f|a cb|a cb]; cbn [callK occK].
  - rewrite pot_callUser. reflexivity.
  - apply (pot_authWith id _ _ _ (EnqueueK a cb)). intros e' x' s'.
    rewrite pot_pushCmd. reflexivity.
  - rewrite pot_pushCmd. reflexivity.
Qed.

Lemma pot_auth (id : nat) (u p : string) (k : Cont) (s : FTP) :
  pot id (auth u p k s) <= pot id s + occK id k.
Proof. apply pot_authWith. intros. apply pot_callK. Qed.

Lemma pot_getFeatures (id : nat) (k : Cont) (s : FTP) :
  pot id (getFeatures k s) <= pot id s + occK id k.
Proof.
  unfold getFeatures. destruct (features s); [apply pot_callK | apply pot_rawAuth].
Qed.

Lemma pot_runCommand (id : nat) (a : string) (cb : Callback) (s : FTP) :
  pot id (runCommand a cb s) <= pot id s + occCb id cb.
Proof.
  unfold runCommand. destruct (authenticated s || RE_AUTH a).
  - rewrite pot_pushCmd. reflexivity.
  - apply (pot_getFeatures id (AuthChainK a cb)).
Qed.

Lemma pot_execute (id : nat) (a : string) (cb : Callback) (s : FTP) :
  pot id (execute a cb s) <= pot id s + occCb id cb.
Proof. apply pot_executeWith. intros. apply pot_runCommand. Qed.

Lemma pot_raw (id : nat) (cmd : string) (args : list string) (cb : Callback) (s : FTP) :
  pot id (raw cmd args cb s) <= pot id s + occCb id cb.
Proof. apply pot_execute. Qed.

Ltac pot_step lem :=
  etransitivity; [apply lem|]; cbn [occCb occK];
  try (apply Nat.add_le_mono_r; apply Nat.eq_le_incl; pot_set).

Lemma pot_call (id : nat) (cb : Callback) (e : option JsError) (r : Response) (s : FTP) :
  pot id (call cb e r s) <= pot id s + occCb id cb.
Proof.
  destruct cb as [|f|k|k|u p k|u p k|r' k|t k|to f]; cbn [call occCb].
  - lia.
  - rewrite pot_callUser. reflexivity.
  - pot_step pot_raw.
  - etransitivity; [apply pot_callK|]. apply Nat.add_le_mono_r, Nat.eq_le_incl.
    destruct (negb (isSome e) && (code r =? 215)%Z); [pot_set | reflexivity].
  - destruct (isSome e || negb (memZ (code r) [230; 331; 332]%Z)).
    + pot_step pot_callK.
    + pot_step pot_raw.
  - destruct (isSome e); [pot_step pot_callK|].
    destruct (memZ (code r) [230; 202]%Z); [pot_step pot_raw|].
    destruct (code r =? 332)%Z.
    + etransitivity; [apply pot_raw|]. cbn [occCb].
      rewrite (pot_fields id s (set_authenticating false s)) by reflexivity. lia.
    + rewrite (pot_fields id s (set_authenticating false s)) by reflexivity. lia.
  - apply pot_callK.
  - etransitivity; [apply pot_callK|]. apply Nat.add_le_mono_r, Nat.eq_le_incl.
    destruct (isSome e); [reflexivity | pot_set].
  - destruct (isSome e).
    + rewrite pot_callUser. reflexivity.
    + pot_step pot_raw.
Qed.

Lemma pot_parse (id : nat) (r : Response) (cmd : Command) (s : FTP) :
  pot id (parse r cmd s) <= pot id s + occCmd id cmd.
Proof.
  unfold parse. rewrite pot_nextCmd.
  rewrite (pot_fields id (call (callback cmd) (errorOf r) r s)) by reflexivity.
  apply pot_call.
Qed.

Lemma pot_shift (id : nat) (cmd : Command) (rest : list Command) (s : FTP) :
  commandQueue s = cmd :: rest ->
  pot id (set_commandQueue rest s) + occCmd id cmd = pot id s.
Proof.
  intros Hq. unfold pot, occ, set_commandQueue. cbn [log commandQueue firstAction].
  rewrite Hq. unfold occQueue. cbn [map]. change (list_sum (?a :: ?l)) with (a + list_sum l). lia.
Qed.

Lemma pot_pairOrIgnore (id : nat) (r : Response) (cmd : Command) (rest : list Command)
    (s : FTP) :
  commandQueue s = cmd :: rest ->
  pot id (pairOrIgnore r cmd rest s) <= pot id s.
Proof.
  intros Hq. unfold pairOrIgnore. destruct (sameCode _ _).
  - apply Nat.eq_le_incl. pot_set.
  - etransitivity; [apply pot_parse|]. rewrite (pot_shift id cmd rest s Hq). reflexivity.
Qed.

Lemma pot_parseResponse (id : nat) (r : Response) (s : FTP) :
  pot id (parseResponse r s) <= pot id s.
Proof.
  unfold parseResponse. destruct (commandQueue s) as [|cmd rest] eqn:Hq; [reflexivity|].
  destruct (code r =? 220)%Z; [reflexivity|].
  destruct (isMark r); [|now apply pot_pairOrIgnore].
  destruct (expectsMark (callback cmd)) as [em|]; [|reflexivity].
  destruct (negb _); [reflexivity|].
  destruct (truthyCode (ignore em)).
  - etransitivity; [apply pot_pairOrIgnore; exact Hq|]. apply Nat.eq_le_incl. pot_set.
  - now apply pot_pairOrIgnore.
Qed.

Lemma pot_onConnect (id : nat) (s : FTP) : pot id (onConnect s) <= pot id s.
Proof.
  unfold onConnect. destruct (firstAction s) as [cmd|] eqn:Hf; [|reflexivity].
  etransitivity; [apply pot_runCommand|].
  unfold pot, occ, set_firstAction. cbn [log commandQueue firstAction].
  rewrite Hf. unfold occCmd. lia.
Qed.

Lemma pot_setType (id : nat) (t : string) (k : Cont) (s : FTP) :
  pot id (setType t k s) <= pot id s + occK id k.
Proof.
  unfold setType. destruct (type s) as [t'|].
  - destruct (String.eqb t' (toUpperCase t)); [apply pot_callK | apply pot_raw].
  - apply pot_raw.
Qed.

Lemma pot_stepInput (id : nat) (i : Input) (s : FTP) :
  pot id (stepInput i s) <= pot id s + occInput id i.
Proof.
  destruct i; cbn [stepInput occInput].
  - rewrite Nat.add_0_r. apply pot_parseResponse.
  - rewrite Nat.add_0_r. apply pot_onConnect.
  - rewrite Nat.add_0_r. apply Nat.eq_le_incl. apply pot_fields; reflexivity.
  - rewrite Nat.add_0_r. unfold destroy, pot, occ. cbn [log commandQueue firstAction
      set_authenticated set_features set_firstAction set_socketWritable]. lia.
  - apply pot_raw.
  - apply pot_execute.
  - apply pot_auth.
  - apply pot_getFeatures.
  - apply pot_setType.
  - apply (pot_raw id "rnfr" [from] (RnfrCb to f)).
Qed.

Lemma pot_runInputs (id : nat) (l : list Input) (s : FTP) :
  pot id (runInputs l s) <= pot id s + occInputs id l.
Proof.
  revert s. induction l as [|i l IH]; intros s.
  - cbn. lia.
  - change (runInputs (i :: l) s) with (runInputs l (stepInput i s)).
    etransitivity; [apply (IH (stepInput i s))|].
    pose proof (pot_stepInput id i s) as H. unfold occInputs. cbn [map].
    change (list_sum (?a :: ?l)) with (a + list_sum l). lia.
Qed.

Lemma pot_feed (id : nat) (rs : list Response) (s : FTP) :
  pot id (feed rs s) <= pot id s.
Proof.
  revert s. induction rs as [|r rs IH]; intros s; cbn; [reflexivity|].
  etransitivity; [apply IH | apply pot_parseResponse].
Qed.

(** The replies of the server alone never call a function more often
    than the session holds it. *)
Lemma called_feed (id : nat) (rs : list Response) (s : FTP) :
  called id (log (feed rs s)) <= occ id s + called id (log s).
Proof. pose proof (pot_feed id rs s) as H. unfold pot in H. lia. Qed.

(* ===================================================================== *)
(** * Pairing replies with commands *)
(* ===================================================================== *)

(** ** Replies that are dropped *)

Lemma parseResponse_empty (r : Response) (s : FTP) :
  commandQueue s = [] -> parseResponse r s = s.
Proof. intros H. unfold parseResponse. rewrite H. reflexivity. Qed.

Lemma parseResponse_220 (r : Response) (s : FTP) :
  code r = 220%Z -> parseResponse r s = s.
Proof.
  intros H. unfold parseResponse. destruct (commandQueue s); [reflexivity|].
  rewrite H. reflexivity.
Qed.

Lemma parseResponse_unexpected_mark (r : Response) (s : FTP) :
  isMark r = true -> headExpects (code r) s = false -> parseResponse r s = s.
Proof.
  intros Hm He. unfold parseResponse, headExpects in *.
  destruct (commandQueue s) as [|cmd rest]; [reflexivity|].
  destruct (code r =? 220)%Z; [reflexivity|]. rewrite Hm.
  destruct (expectsMark (callback cmd)) as [em|]; [|reflexivity].
  rewrite He. reflexivity.
Qed.

(** C4.  A reply that arrives while the queue is empty, a reply with
    code 220, and a mark that the head command does not expect (it has no
    [expectsMark], or the code is not among its marks) are dropped: the
    session is left exactly as it was, so no callback is called (the log
    is the same), the queue is the same and [inProgress] is the same. *)
Theorem dropped_replies_leave_session (r : Response) (s : FTP) :
  commandQueue s = []
  \/ code r = 220%Z
  \/ (isMark r = true /\ headExpects (code r) s = false) ->
  parseResponse r s = s
  /\ log (parseResponse r s) = log s
  /\ commandQueue (parseResponse r s) = commandQueue s
  /\ inProgress (parseResponse r s) = inProgress s.
Proof.
  intros H.
  assert (E : parseResponse r s = s).
  { destruct H as [H | [H | [Hm He]]].
    - now apply parseResponse_empty.
    - now apply parseResponse_220.
    - now apply parseResponse_unexpected_mark. }
  rewrite E. repeat split.
Qed.

Lemma dropped_replies_leave_session_witness :
  let s := pushCmd (mkCommand "pwd" (UserCb (mkUserFn 1 None)))
             (set_authenticated true (newFTP "" "")) in
  let r := reply 150 "opening" in
  parseResponse r s = s
  /\ log (parseResponse r s) = log s
  /\ commandQueue (parseResponse r s) = commandQueue s
  /\ inProgress (parseResponse r s) = inProgress s.
Proof.
  intros s r. apply (dropped_replies_leave_session r s).
  right. right. split; reflexivity.
Defined.

(** ** The ignored code *)

Lemma parseResponse_ignored (r : Response) (s : FTP) (c : Z) :
  commandQueue s <> [] -> ignoreCmdCode s = Some c ->
  isMark r = false -> code r = c -> c <> 220%Z ->
  parseResponse r s = set_ignoreCmdCode None s.
Proof.
  intros Hq Hi Hm Hc H220. unfold parseResponse.
  destruct (commandQueue s) as [|cmd rest]; [congruence|].
  destruct (Z.eqb_spec (code r) 220); [congruence|].
  rewrite Hm. unfold pairOrIgnore. rewrite Hi. cbn [sameCode].
  rewrite Hc, Z.eqb_refl. reflexivity.
Qed.

Lemma ignored_code_swallowed (r : Response) (s : FTP) (c : Z) :
  ignoreCmdCode s = Some c -> code r = c -> isMark r = false ->
  log (parseResponse r s) = log s
  /\ commandQueue (parseResponse r s) = commandQueue s.
Proof.
  intros Hi Hc Hm.
  destruct (commandQueue s) as [|cmd rest] eqn:Hq.
  - rewrite parseResponse_empty by assumption. auto.
  - destruct (Z.eq_dec c 220) as [E|E].
    + rewrite parseResponse_220 by congruence. auto.
    + rewrite (parseResponse_ignored r s c); try assumption; [|congruence].
      cbn. auto.
Qed.

(** C9.  When a reply arrives while the queue is empty and a code is
    armed in [ignoreCmdCode], the reply is dropped and the code stays
    armed: the guard on the empty queue comes first.  A command executed
    afterwards on the authenticated session is pushed and becomes the head
    of the queue; the next reply that is not a mark and bears the armed
    code is then swallowed: the command stays at the head of the queue
    and no callback is called; the code is cleared by that reply (unless
    it is 220, which is dropped before). *)
Theorem armed_code_survives_empty_queue
    (s : FTP) (r r' : Response) (c : Z) (a : string) (cb : Callback) :
  commandQueue s = [] -> ignoreCmdCode s = Some c ->
  authenticated s = true -> socketWritable s = true ->
  isMark r' = false -> code r' = c ->
  let s1 := parseResponse r s in
  let s2 := execute a cb s1 in
  let s3 := parseResponse r' s2 in
  s1 = s
  /\ ignoreCmdCode s1 = Some c
  /\ commandQueue s2 = [mkCommand a cb]
  /\ commandQueue s3 = [mkCommand a cb]
  /\ log s3 = log s2
  /\ (c <> 220%Z -> s3 = set_ignoreCmdCode None s2).
Proof.
  intros Hq Hi Ha Hw Hm Hc s1 s2 s3.
  assert (E1 : s1 = s) by (apply parseResponse_empty; assumption).
  assert (E2 : s2 = pushCmd (mkCommand a cb) s).
  { unfold s2. rewrite E1. unfold execute, executeWith, runCommand.
    rewrite Hw, Ha. reflexivity. }
  assert (Q2 : commandQueue s2 = [mkCommand a cb]).
  { rewrite E2, pushCmd_commandQueue, Hq. reflexivity. }
  assert (I2 : ignoreCmdCode s2 = Some c).
  { rewrite E2, pushCmd_ignoreCmdCode. exact Hi. }
  destruct (ignored_code_swallowed r' s2 c I2 Hc Hm) as [L3 Q3].
  repeat split; try assumption.
  - rewrite E1. exact Hi.
  - unfold s3. rewrite Q3. exact Q2.
  - intros H220. apply (parseResponse_ignored r' s2 c); try assumption.
    rewrite Q2. discriminate.
Qed.

Lemma armed_code_survives_empty_queue_witness :
  let s := set_ignoreCmdCode (Some 226%Z) (set_authenticated true (newFTP "" "")) in
  let r := reply 150 "stray" in
  let r' := reply 226 "Directory created" in
  let s1 := parseResponse r s in
  let s2 := execute "mkd /x" (UserCb (mkUserFn 7 None)) s1 in
  let s3 := parseResponse r' s2 in
  s1 = s
  /\ ignoreCmdCode s1 = Some 226%Z
  /\ commandQueue s2 = [mkCommand "mkd /x" (UserCb (mkUserFn 7 None))]
  /\ commandQueue s3 = [mkCommand "mkd /x" (UserCb (mkUserFn 7 None))]
  /\ log s3 = log s2
  /\ (226%Z <> 220%Z -> s3 = set_ignoreCmdCode None s2).
Proof.
  intros s r r'.
  apply (armed_code_survives_empty_queue s r r' 226%Z "mkd /x" (UserCb (mkUserFn 7 None)));
    reflexivity.
Defined.

(** ** Expected marks *)

Lemma parseResponse_expected_mark
    (s : FTP) (cmd : Command) (rest : list Command) (em : ExpectsMark) (r : Response) :
  commandQueue s = cmd :: rest ->
  expectsMark (callback cmd) = Some em ->
  isMark r = true -> memZ (code r) (marks em) = true -> code r <> 220%Z ->
  parseResponse r s = pairOrIgnore r cmd rest (arm em s).
Proof.
  intros Hq He Hm Hin H220. unfold parseResponse. rewrite Hq.
  destruct (Z.eqb_spec (code r) 220); [congruence|].
  rewrite Hm, He, Hin. reflexivity.
Qed.

Lemma expectsMark_user (cb : Callback) (em : ExpectsMark) :
  expectsMark cb = Some em -> exists f, cb = UserCb f /\ expects f = Some em.
Proof. destruct cb; cbn; try discriminate. eauto. Qed.

Lemma arm_commandQueue em s : commandQueue (arm em s) = commandQueue s.
Proof. unfold arm. destruct (truthyCode _); reflexivity. Qed.

Lemma arm_log em s : log (arm em s) = log s.
Proof. unfold arm. destruct (truthyCode _); reflexivity. Qed.

(** A reply paired with a caller's function: the function is called once
    with the reply, the command has left the queue. *)
Lemma parse_user (r : Response) (a : string) (f : UserFn) (q : list Command) (s : FTP) :
  let s1 := parse r (mkCommand a (UserCb f)) (set_commandQueue q s) in
  calls (log s1) = calls (log s) ++ [Called f (errorOf r) (Resp r)]
  /\ commandQueue s1 = q
  /\ ignoreCmdCode s1 = ignoreCmdCode s.
Proof.
  intros s1. unfold s1, parse. cbn [callback call callUser].
  rewrite nextCmd_calls, nextCmd_commandQueue, nextCmd_ignoreCmdCode.
  cbn. unfold calls. rewrite filter_app. repeat split.
Qed.

Lemma called_calls (id : nat) (l : list Event) : called id l = called id (calls l).
Proof.
  induction l as [|[d|f e x] l IH]; cbn; [reflexivity | exact IH | now rewrite IH].
Qed.

(** C1.  The head command was enqueued with
    [expectsMark = {marks: [125, 150], ignore: 226}].  When a mark with
    code 125 or 150 arrives, the command's callback is called once, with
    that mark as the response, and the command leaves the queue, so no
    later reply is paired with it; code 226 is armed.  A reply 226 that is
    not a mark, delivered right after or to any later state in which 226
    is still armed, reaches no callback: the log and the queue stay as
    they are.  When the session holds the callback in this command only,
    the mark is its one call: whatever replies follow, it is not called
    again. *)
Theorem expected_mark_then_226
    (s : FTP) (a : string) (f : UserFn) (rest : list Command) (r : Response) :
  commandQueue s = mkCommand a (UserCb f) :: rest ->
  expects f = Some expectedMarks ->
  isMark r = true ->
  code r = 125%Z \/ code r = 150%Z ->
  let s1 := parseResponse r s in
  calls (log s1) = calls (log s) ++ [Called f (errorOf r) (Resp r)]
  /\ commandQueue s1 = rest
  /\ ignoreCmdCode s1 = Some 226%Z
  /\ (forall r2 : Response, code r2 = 226%Z -> isMark r2 = false ->
        log (parseResponse r2 s1) = log s1
        /\ commandQueue (parseResponse r2 s1) = commandQueue s1)
  /\ (forall (r2 : Response) (s2 : FTP),
        code r2 = 226%Z -> isMark r2 = false -> ignoreCmdCode s2 = Some 226%Z ->
        log (parseResponse r2 s2) = log s2
        /\ commandQueue (parseResponse r2 s2) = commandQueue s2)
  /\ (occ (fid f) s = 1 ->
      called (fid f) (log s1) = called (fid f) (log s) + 1
      /\ forall rs : list Response,
           called (fid f) (log (feed rs s1)) <= called (fid f) (log s) + 1).
Proof.
  intros Hq He Hm Hc s1.
  assert (E : s1 = parse r (mkCommand a (UserCb f))
                     (set_commandQueue rest (set_ignoreCmdCode (Some 226%Z) s))).
  { unfold s1.
    rewrite (parseResponse_expected_mark s _ rest expectedMarks r Hq He Hm).
    - unfold pairOrIgnore, arm. cbn.
      destruct Hc as [Hc|Hc]; rewrite Hc; reflexivity.
    - destruct Hc as [Hc|Hc]; rewrite Hc; reflexivity.
    - destruct Hc as [Hc|Hc]; rewrite Hc; discriminate. }
  destruct (parse_user r a f rest (set_ignoreCmdCode (Some 226%Z) s)) as (P1 & P2 & P3).
  rewrite <- E in P1, P2, P3. cbn in P1, P3.
  repeat split; try assumption.
  - apply (ignored_code_swallowed r2 s1 226%Z); assumption.
  - apply (ignored_code_swallowed r2 s1 226%Z); assumption.
  - apply (ignored_code_swallowed r2 s2 226%Z); assumption.
  - apply (ignored_code_swallowed r2 s2 226%Z); assumption.
  - rewrite (called_calls _ (log s1)), P1, called_app, <- (called_calls _ (log s)).
    cbn [called]. unfold isFn. rewrite Nat.eqb_refl. lia.
  - intros rs. pose proof (called_feed (fid f) rs s1) as H1.
    pose proof (pot_parseResponse (fid f) r s) as H2. fold s1 in H2.
    unfold pot in H2. lia.
Qed.

Lemma expected_mark_then_226_witness :
  let f := mkUserFn 1 (Some expectedMarks) in
  let s := pushCmd (mkCommand "stor /tmp/a" (UserCb f))
             (set_authenticated true (newFTP "" "")) in
  let r := reply 150 "ok" in
  let s1 := parseResponse r s in
  calls (log s1) = calls (log s) ++ [Called f (errorOf r) (Resp r)]
  /\ commandQueue s1 = []
  /\ ignoreCmdCode s1 = Some 226%Z
  /\ (forall r2 : Response, code r2 = 226%Z -> isMark r2 = false ->
        log (parseResponse r2 s1) = log s1
        /\ commandQueue (parseResponse r2 s1) = commandQueue s1)
  /\ (forall (r2 : Response) (s2 : FTP),
        code r2 = 226%Z -> isMark r2 = false -> ignoreCmdCode s2 = Some 226%Z ->
        log (parseResponse r2 s2) = log s2
        /\ commandQueue (parseResponse r2 s2) = commandQueue s2)
  /\ (occ (fid f) s = 1 ->
      called (fid f) (log s1) = called (fid f) (log s) + 1
      /\ forall rs : list Response,
           called (fid f) (log (feed rs s1)) <= called (fid f) (log s) + 1).
Proof.
  intros f s r.
  apply (expected_mark_then_226 s "stor /tmp/a" f [] r); try reflexivity.
  right. reflexivity.
Defined.

(** C2, as the specification states it, fails: on the expected mark 150
    the head command 'stor' is shifted off the queue. *)
Lemma mark_pops_head_counterexample : ~ markKeepsHead.
Proof.
  intros H.
  pose (f := mkUserFn 1 (Some expectedMarks)).
  pose (cmd := mkCommand "stor /tmp/a" (UserCb f)).
  pose (s := pushCmd cmd (set_authenticated true (newFTP "" ""))).
  destruct (H s cmd [] expectedMarks (reply 150 "ok")) as [_ Hq]; try reflexivity.
  vm_compute in Hq. discriminate Hq.
Qed.

(** C2, amended.  When a mark whose code is among the marks of the head
    command arrives, the dispatcher arms [ignoreCmdCode] with
    [expectsMark.ignore] when that is set; unless the armed code is the
    code of the mark itself, the command is shifted off the queue on the
    mark and its callback is called with the mark as the response. *)
Theorem expected_mark_pops_head
    (s : FTP) (cmd : Command) (rest : list Command) (em : ExpectsMark) (r : Response) :
  commandQueue s = cmd :: rest ->
  expectsMark (callback cmd) = Some em ->
  isMark r = true ->
  memZ (code r) (marks em) = true ->
  code r <> 220%Z ->
  sameCode (ignoreCmdCode (arm em s)) (code r) = false ->
  let s1 := parseResponse r s in
  ignoreCmdCode s1 = (if truthyCode (ignore em) then ignore em else ignoreCmdCode s)
  /\ commandQueue s1 = rest
  /\ exists f, callback cmd = UserCb f
       /\ calls (log s1) = calls (log s) ++ [Called f (errorOf r) (Resp r)].
Proof.
  intros Hq He Hm Hin H220 Hsame s1.
  destruct (expectsMark_user _ _ He) as (f & Hcb & _).
  assert (E : s1 = parse r cmd (set_commandQueue rest (arm em s))).
  { unfold s1. rewrite (parseResponse_expected_mark s cmd rest em r) by assumption.
    unfold pairOrIgnore. rewrite Hsame. reflexivity. }
  destruct cmd as [a cb]. cbn in Hcb. subst cb.
  destruct (parse_user r a f rest (arm em s)) as (P1 & P2 & P3).
  rewrite <- E in P1, P2, P3. rewrite arm_log in P1.
  repeat split.
  - rewrite P3. unfold arm. destruct (truthyCode (ignore em)); reflexivity.
  - exact P2.
  - exists f. split; [reflexivity | exact P1].
Qed.

Lemma expected_mark_pops_head_witness :
  let f := mkUserFn 1 (Some expectedMarks) in
  let cmd := mkCommand "stor /tmp/a" (UserCb f) in
  let s := pushCmd cmd (set_authenticated true (newFTP "" "")) in
  let r := reply 150 "ok" in
  let s1 := parseResponse r s in
  ignoreCmdCode s1 = Some 226%Z
  /\ commandQueue s1 = []
  /\ exists f', callback cmd = UserCb f'
       /\ calls (log s1) = calls (log s) ++ [Called f' (errorOf r) (Resp r)].
Proof.
  intros f cmd s r.
  apply (expected_mark_pops_head s cmd [] expectedMarks r); try reflexivity.
  discriminate.
Defined.

(* ===================================================================== *)
(** * The implicit auth chain *)
(* ===================================================================== *)

(** A session whose first command, 'pwd', started the chain, after the
    replies to 'feat' and 'syst': 'user anonymous' is in flight. *)
Lemma chain_reaches_user :
  let f := mkUserFn 1 None in
  let s := feed [reply 211 "Features:"; reply 215 "UNIX Type: L8"]
             (raw "pwd" [] (UserCb f) (newFTP "" "")) in
  commandQueue s
  = [mkCommand "user anonymous"
       (AuthUserCb "anonymous" "@anonymous" (EnqueueK "pwd" (UserCb f)))]
  /\ socketWritable s = true /\ inProgress s = true /\ authenticated s = false.
Proof. repeat split. Qed.


Lemma truthy_completeCmd_pass (args : list string) :
  truthy (completeCmd "pass" args) = true.
Proof.
  destruct (completeCmd_word4 "p" "a" "s" "s" args) as [t Ht]; try reflexivity.
  rewrite Ht. reflexivity.
Qed.






(** ** The reply 332 to 'pass' *)

(** The reply 332 to 'pass' on a session that is not authenticated and
    has its features cached: [raw('acct', '')] runs the implicit chain
    again, which issues 'user'; 'acct' is not pushed, and the callback [k]
    of the running [auth] is dropped. *)
Lemma pass_reply_332
    (s : FTP) (pa u p : string) (k : Cont) (rest : list Command) (r : Response)
    (fs : list string) :
  commandQueue s = mkCommand pa (AuthPassCb u p k) :: rest ->
  terminal r s = true -> socketWritable s = true ->
  authenticated s = false -> features s = Some fs ->
  isError r = false -> code r = 332%Z ->
  commandQueue (parseResponse r s)
  = rest ++ [mkCommand (completeCmd "user" [orElse (user s) "anonymous"])
               (AuthUserCb (orElse (user s) "anonymous") (orElse (pass s) "@anonymous")
                  (EnqueueK "acct" NOOP))].
Proof.
  intros Hq Ht Hw Hauth Hf He Hc.
  rewrite (parseResponse_terminal r s _ rest Hq Ht).
  unfold parse. cbn [callback call]. rewrite isSome_errorOf, He, Hc.
  cbn [memZ existsb Z.eqb orb Pos.eqb].
  rewrite nextCmd_commandQueue. cbn [commandQueue set_inProgress].
  unfold raw, execute, executeWith. cbn [socketWritable set_authenticating set_commandQueue].
  rewrite Hw. unfold runCommand. cbn [authenticated set_authenticating set_commandQueue].
  rewrite Hauth. cbn [orb]. change (RE_AUTH (completeCmd "acct" [""])) with false.
  unfold getFeatures. cbn [features set_authenticating set_commandQueue]. rewrite Hf.
  cbn [callK]. unfold authWith. cbn [authenticating set_authenticating set_commandQueue].
  unfold rawAuth, executeWith. cbn [socketWritable set_authenticating set_commandQueue].
  rewrite Hw. rewrite pushCmd_commandQueue. reflexivity.
Qed.

(** C8.  The chain started by 'pwd' receives 331 for 'user' and 332 for
    'pass'.  The client then does not issue 'acct': the session is not
    authenticated and 'acct' is not one of the commands that [runCommand]
    pushes directly, so [raw('acct', '')] starts the chain again and
    'user anonymous' is written a second time; 'acct' is neither in the
    queue nor on the wire.  The function given with 'pwd' is no longer
    held by the session and, whatever the server replies from then on, it
    is never called. *)
Theorem pass_332_restarts_auth :
  let f := mkUserFn 1 None in
  let s := feed [reply 211 "Features:"; reply 215 "UNIX Type: L8";
                 reply 331 "Password required"; reply 332 "Account required"]
             (raw "pwd" [] (UserCb f) (newFTP "" "")) in
  commandQueue s
  = [mkCommand "user anonymous"
       (AuthUserCb "anonymous" "@anonymous" (EnqueueK "acct" NOOP))]
  /\ log s = [Sent ("feat" ++ CRLF); Sent ("syst" ++ CRLF);
              Sent ("user anonymous" ++ CRLF); Sent ("pass @anonymous" ++ CRLF);
              Sent ("user anonymous" ++ CRLF)]
  /\ forall rs : list Response,
       occ 1 (feed rs s) = 0 /\ called 1 (log (feed rs s)) = 0.
Proof.
  intros f s. split; [reflexivity|]. split; [reflexivity|].
  intros rs. pose proof (pot_feed 1 rs s) as H.
  change (pot 1 s) with 0 in H. unfold pot in H. lia.
Qed.

(* ===================================================================== *)
(** * The feature set *)
(* ===================================================================== *)

(** ** [_parseFeats] computes the feature set of the specification *)










(** ** The reply to FEAT *)





(* ===================================================================== *)
(** * The PASV reply *)
(* ===================================================================== *)

Import Pasv.

Lemma append_assoc (a b c : string) : ((a ++ b) ++ c = a ++ (b ++ c))%string.
Proof. induction a as [|x a IH]; cbn; [reflexivity | now rewrite IH]. Qed.

Lemma append_nil_r (a : string) : (a ++ "" = a)%string.
Proof. induction a as [|x a IH]; cbn; [reflexivity | now rewrite IH]. Qed.

(** ** Numerals up to 255 *)

Lemma numeralOk_255 (n : nat) : n <= 255 -> numeralOk n = true.
Proof.
  intros Hn.
  assert (H : forallb numeralOk (seq 0 256) = true) by (vm_compute; reflexivity).
  rewrite forallb_forall in H. apply H. apply in_seq. lia.
Qed.

Lemma numeral_facts (n : nat) :
  n <= 255 ->
  truthy (decimal n) = true /\ allClass (decimal n) = true
  /\ noComma (decimal n) = true
  /\ bitAnd (parseInt (decimal n)) 255 = Z.of_nat n.
Proof.
  intros Hn. pose proof (numeralOk_255 n Hn) as H. unfold numeralOk in H.
  apply andb_prop in H as [H H4]. apply andb_prop in H as [H H3].
  apply andb_prop in H as [H1 H2]. apply Z.eqb_eq in H4. auto.
Qed.

(** ** The greedy repetition *)

(** On a run of class characters followed by something else, the
    repetition takes the whole run when the rest of the pattern then
    succeeds. *)
Lemma greedyStar_run {R} (k : string -> string -> option R) (run rest : string) (r : R) :
  allClass run = true -> headIsClass rest = false ->
  forall run0 : string,
    k (run0 ++ run)%string rest = Some r ->
    greedyStar k run0 (run ++ rest)%string = Some r.
Proof.
  intros Hrun Hrest. induction run as [|c run IH]; intros run0 Hk.
  - rewrite append_nil_r in Hk. cbn [String.append].
    destruct rest as [|d rest]; cbn [greedyStar]; [exact Hk|].
    cbn in Hrest. rewrite Hrest. exact Hk.
  - cbn in Hrun. apply andb_prop in Hrun as [Hc Hrun].
    cbn [String.append greedyStar]. rewrite Hc.
    rewrite (IH Hrun (run0 ++ String c "")%string); [reflexivity|].
    rewrite append_assoc. exact Hk.
Qed.

Lemma greedyPlus_run {R} (k : string -> string -> option R) (run rest : string) (r : R) :
  truthy run = true -> allClass run = true -> headIsClass rest = false ->
  k run rest = Some r ->
  greedyPlus k (run ++ rest)%string = Some r.
Proof.
  intros Hne Hrun Hrest Hk. destruct run as [|c run]; [discriminate|].
  cbn in Hrun. apply andb_prop in Hrun as [Hc Hrun].
  cbn [String.append greedyPlus]. rewrite Hc.
  apply greedyStar_run; assumption.
Qed.

(** When the rest of the pattern wants a comma first, the repetition
    fails on such a text, at every length it tries. *)
Lemma greedyStar_fail {R} (k : string -> string -> option R) (s : string) :
  (forall run s', headIsComma s' = false -> k run s' = None) ->
  stopsBeforeComma s = true ->
  forall run0 : string, greedyStar k run0 s = None.
Proof.
  intros Hk. induction s as [|c s IH]; intros Hs run0.
  - cbn. apply Hk. reflexivity.
  - cbn [greedyStar]. cbn [stopsBeforeComma] in Hs.
    destruct (isClass c) eqn:Hc.
    + rewrite (IH Hs). apply Hk. cbn.
      destruct (Ascii.eqb_spec c ","); [subst c; discriminate Hc | reflexivity].
    + apply Hk. cbn. apply negb_true_iff in Hs. exact Hs.
Qed.

Lemma stopsBeforeComma_prefix (p t : string) :
  truthy p = true -> noComma p = true -> lastIsClass p = false ->
  stopsBeforeComma (p ++ t)%string = true.
Proof.
  induction p as [|c p IH]; intros Hne Hnc Hl; [discriminate|].
  cbn [String.append stopsBeforeComma]. cbn [noComma] in Hnc.
  apply andb_prop in Hnc as [Hc Hnc].
  destruct (isClass c) eqn:Hcl; [|exact Hc].
  destruct p as [|d p]; [cbn in Hl; congruence|].
  apply IH; [reflexivity | exact Hnc | exact Hl].
Qed.

(** ** No attempt succeeds before the group *)

Lemma matchHere_fails_in_prefix (c : ascii) (p t : string) :
  noComma (String c p) = true -> lastIsClass (String c p) = false ->
  matchHere RE_PASV startState (String c p ++ t)%string = None.
Proof.
  intros Hnc Hl. cbn [RE_PASV matchHere String.append greedyPlus].
  destruct (isClass c) eqn:Hc; [|reflexivity].
  apply greedyStar_fail.
  - intros run s' Hs'. cbn [matchHere]. destruct s' as [|d s']; [reflexivity|].
    cbn in Hs'. rewrite Ascii.eqb_sym, Hs'. reflexivity.
  - destruct p as [|d p]; [cbn in Hl; congruence|].
    cbn [noComma] in Hnc. apply andb_prop in Hnc as [_ Hnc].
    apply stopsBeforeComma_prefix; [reflexivity | exact Hnc | exact Hl].
Qed.

Lemma exec_skips_prefix (p t : string) :
  noComma p = true -> lastIsClass p = false ->
  exec RE_PASV (p ++ t)%string = exec RE_PASV t.
Proof.
  induction p as [|c p IH]; intros Hnc Hl; [reflexivity|].
  pose proof (matchHere_fails_in_prefix c p t Hnc Hl) as Hf.
  cbn [String.append] in Hf |- *. cbn [exec]. rewrite Hf. apply IH.
  - cbn [noComma] in Hnc. apply andb_prop in Hnc as [_ Hnc]. exact Hnc.
  - destruct p; [reflexivity | exact Hl].
Qed.

(** ** The attempt at the group succeeds *)

Lemma commasToDots_app (a b : string) :
  commasToDots (a ++ b) = (commasToDots a ++ commasToDots b)%string.
Proof. induction a as [|c a IH]; cbn; [reflexivity | now rewrite IH]. Qed.

Lemma commasToDots_noComma (d : string) : noComma d = true -> commasToDots d = d.
Proof.
  induction d as [|c d IH]; intros H; [reflexivity|].
  cbn in H |- *. apply andb_prop in H as [Hc Hd]. apply negb_true_iff in Hc.
  rewrite Hc, (IH Hd). reflexivity.
Qed.

Ltac take_run :=
  apply greedyPlus_run; [assumption | assumption | reflexivity | ];
  cbn [matchHere String.append]; rewrite ?Ascii.eqb_refl.

Lemma matchHere_group (d1 d2 d3 d4 d5 d6 post : string) :
  truthy d1 = true -> allClass d1 = true ->
  truthy d2 = true -> allClass d2 = true ->
  truthy d3 = true -> allClass d3 = true ->
  truthy d4 = true -> allClass d4 = true ->
  truthy d5 = true -> allClass d5 = true ->
  truthy d6 = true -> allClass d6 = true ->
  headIsClass post = false ->
  exists st,
    matchHere RE_PASV startState
      (d1 ++ "," ++ d2 ++ "," ++ d3 ++ "," ++ d4 ++ "," ++ d5 ++ "," ++ d6 ++ post)%string
    = Some st
    /\ closed st = [(3, d6); (2, d5);
                    (1, (d1 ++ "," ++ d2 ++ "," ++ d3 ++ "," ++ d4)%string)].
Proof.
  intros T1 C1 T2 C2 T3 C3 T4 C4 T5 C5 T6 C6 Hpost.
  eexists. split.
  - cbn [RE_PASV matchHere].
    take_run. take_run. take_run. take_run. take_run.
    apply greedyPlus_run; [assumption | assumption | exact Hpost | ].
    cbn [matchHere]. reflexivity.
  - cbn. rewrite !append_assoc. reflexivity.
Qed.

Lemma exec_succeeds_here (re : list Node) (s : string) (st : MatchState) :
  matchHere re startState s = Some st -> exec re s = Some st.
Proof. intros H. destruct s; cbn [exec]; rewrite H; reflexivity. Qed.

(** The error [getPasvSocket] fails with when [RE_PASV] finds no match:
    the error of the reply when it is an error reply, whose check comes
    first, and the error of a bad address otherwise. *)
Lemma pasvReply_without_match (response : Response) :
  exec RE_PASV (text response) = None ->
  pasvReply (errorOf response) response
  = PasvFail (if isError response
              then mkError (orElse (text response) "Unknown FTP error.")
                     (Some (code response))
              else mkError "Bad passive host/port combination" None).
Proof.
  intros Hnone. unfold pasvReply, errorOf, getPasvPort.
  destruct (isError response); [reflexivity|]. rewrite Hnone. reflexivity.
Qed.

(** That error reaches the caller of the transfer that asked for the
    socket. *)
Lemma transfer_fails_without_match (op : Ops.Op) (path : string) (response : Response)
    (session : Events.Emitter) :
  exec RE_PASV (text response) = None ->
  Ops.trace (Ops.step op path (Ops.PasvReply (errorOf response) response)
               (Ops.start session))
  = [Ops.Execute "pasv";
     Ops.UserCall
       (Ops.Err (if isError response
                 then mkError (orElse (text response) "Unknown FTP error.")
                        (Some (code response))
                 else mkError "Bad passive host/port combination" None))
       Ops.Nothing].
Proof.
  intros Hnone. unfold Ops.step. rewrite (pasvReply_without_match response Hnone).
  destruct op; reflexivity.
Qed.

(** The two sentences of the claim, read for any text around the group
    and for any reply, do not hold.  A text that goes on with a digit
    after the group gives another port, and an error reply without a
    match fails with the error of the server. *)
Lemma pasv_claim_counterexample : ~ roundTripAnywhere /\ ~ noMatchIsBadPassive.
Proof.
  split.
  - intros H. specialize (H 127 0 0 1 10 20 "227 Entering Passive Mode (" "5)").
    assert (E : getPasvPort ("227 Entering Passive Mode (" ++ pasvGroup 127 0 0 1 10 20 ++ "5)")
                = Some {| host := "127.0.0.1"; port := 2765 |}) by reflexivity.
    rewrite E in H.
    specialize (H ltac:(lia) ltac:(lia) ltac:(lia) ltac:(lia) ltac:(lia) ltac:(lia)).
    vm_compute in H. discriminate H.
  - intros H. specialize (H (reply 500 "Syntax error") eq_refl).
    vm_compute in H. discriminate H.
Qed.

(** C3.  For six numbers between 0 and 255, [getPasvPort] on a reply
    text that holds their canonical group [h1,h2,h3,h4,p1,p2], delimited
    as in [227 Entering Passive Mode (h1,h2,h3,h4,p1,p2)] (no comma
    before the group, no character of [[-\d]] right before or right after
    it), yields the host [h1.h2.h3.h4] and the port [p1 * 256 + p2].  And
    when [RE_PASV] finds no match in the text of a reply, the reply
    handler of [getPasvSocket] gives its callback an error, which reaches
    the caller of the transfer: the error "Bad passive host/port
    combination" when the reply is not an error reply, and the error of
    the reply itself (its text, or "Unknown FTP error.", and its code)
    when it is one. *)
Theorem pasv_round_trip
    (h1 h2 h3 h4 p1 p2 : nat) (pre post : string) :
  h1 <= 255 -> h2 <= 255 -> h3 <= 255 -> h4 <= 255 -> p1 <= 255 -> p2 <= 255 ->
  noComma pre = true -> lastIsClass pre = false -> headIsClass post = false ->
  getPasvPort (pre ++ pasvGroup h1 h2 h3 h4 p1 p2 ++ post)
  = Some {| host := dotted h1 h2 h3 h4;
            port := (Z.of_nat p1 * 256 + Z.of_nat p2)%Z |}
  /\ (forall response : Response,
        exec RE_PASV (text response) = None ->
        pasvReply (errorOf response) response
        = PasvFail (if isError response
                    then mkError (orElse (text response) "Unknown FTP error.")
                           (Some (code response))
                    else mkError "Bad passive host/port combination" None))
  /\ (forall (op : Ops.Op) (path : string) (response : Response)
             (session : Events.Emitter),
        exec RE_PASV (text response) = None ->
        Ops.trace (Ops.step op path (Ops.PasvReply (errorOf response) response)
                     (Ops.start session))
        = [Ops.Execute "pasv";
           Ops.UserCall
             (Ops.Err (if isError response
                       then mkError (orElse (text response) "Unknown FTP error.")
                              (Some (code response))
                       else mkError "Bad passive host/port combination" None))
             Ops.Nothing]).
Proof.
  intros H1 H2 H3 H4 H5 H6 Hpre Hlast Hpost. split; [|split].
  - destruct (numeral_facts h1 H1) as (T1 & C1 & N1 & _).
    destruct (numeral_facts h2 H2) as (T2 & C2 & N2 & _).
    destruct (numeral_facts h3 H3) as (T3 & C3 & N3 & _).
    destruct (numeral_facts h4 H4) as (T4 & C4 & N4 & _).
    destruct (numeral_facts p1 H5) as (T5 & C5 & _ & B5).
    destruct (numeral_facts p2 H6) as (T6 & C6 & _ & B6).
    destruct (matchHere_group (decimal h1) (decimal h2) (decimal h3) (decimal h4)
                (decimal p1) (decimal p2) post) as (st & Hst & Hcl); try assumption.
    unfold getPasvPort. rewrite exec_skips_prefix by assumption.
    unfold pasvGroup. rewrite !append_assoc. cbn [String.append] in Hst |- *.
    rewrite (exec_succeeds_here _ _ _ Hst), Hcl. cbn [group Nat.eqb].
    rewrite B5, B6. f_equal. f_equal.
    rewrite !commasToDots_app. cbn [commasToDots Ascii.eqb Bool.eqb].
    rewrite !commasToDots_noComma by assumption. reflexivity.
  - apply pasvReply_without_match.
  - intros op path response session. apply transfer_fails_without_match.
Qed.

Lemma pasv_round_trip_witness :
  getPasvPort ("227 Entering Passive Mode (" ++ pasvGroup 127 0 0 1 10 20 ++ ")")
  = Some {| host := dotted 127 0 0 1; port := (Z.of_nat 10 * 256 + Z.of_nat 20)%Z |}
  /\ (forall response : Response,
        exec RE_PASV (text response) = None ->
        pasvReply (errorOf response) response
        = PasvFail (if isError response
                    then mkError (orElse (text response) "Unknown FTP error.")
                           (Some (code response))
                    else mkError "Bad passive host/port combination" None))
  /\ (forall (op : Ops.Op) (path : string) (response : Response)
             (session : Events.Emitter),
        exec RE_PASV (text response) = None ->
        Ops.trace (Ops.step op path (Ops.PasvReply (errorOf response) response)
                     (Ops.start session))
        = [Ops.Execute "pasv";
           Ops.UserCall
             (Ops.Err (if isError response
                       then mkError (orElse (text response) "Unknown FTP error.")
                              (Some (code response))
                       else mkError "Bad passive host/port combination" None))
             Ops.Nothing]).
Proof.
  apply (pasv_round_trip 127 0 0 1 10 20 "227 Entering Passive Mode (" ")");
    try reflexivity; lia.
Defined.

(* ===================================================================== *)
(** * [put] from a local path *)
(* ===================================================================== *)

(** The only error of [fs.stat] that the callback handles before it reads
    [stats] is ENOENT. *)
Lemma statCallback_ENOENT (stats : option Put.Stats) :
  Put.statCallback (Some (Put.mkFsError "ENOENT")) stats
  = Put.CallbackError "Local file doesn't exist.".
Proof. reflexivity. Qed.

Lemma statCallback_other_error (e : Put.FsError) :
  Put.isENOENT (Some e) = false ->
  Put.reachesIsDirectory (Some e) = true
  /\ Put.statCallback (Some e) None = Put.ThrowsTypeError.
Proof.
  intros H. unfold Put.reachesIsDirectory, Put.statCallback. rewrite H. auto.
Qed.

(** C10.  When [fs.stat] fails with EACCES it calls back with the error
    and no [stats].  The guard before [stats.isDirectory()] only catches
    ENOENT, so the access is reached with [stats] undefined and the
    callback throws a [TypeError]; the caller's callback is not called.
    A failure with ENOENT is caught, and a successful stat reads
    [stats] that are there. *)
Theorem stat_error_reaches_isDirectory :
  let error := Some (Put.mkFsError "EACCES") in
  Put.reachesIsDirectory error = true
  /\ Put.statCallback error None = Put.ThrowsTypeError
  /\ Put.statCallback (Some (Put.mkFsError "ENOENT")) None
     = Put.CallbackError "Local file doesn't exist."
  /\ Put.statCallback None (Some (Put.mkStats false 42)) = Put.PutReadable 42.
Proof. repeat split. Qed.

(* ===================================================================== *)
(** * Completion functions run at most once *)
(* ===================================================================== *)

(** ** [once] *)

Section OnceLaws.

(** The wrapper in any program state: reading the cell gives what was
    written, and the wrapped function does not clear [called]. *)
Variables S A V : Type.
Variable getCell : S -> Once.Cell V.
Variable setCell : Once.Cell V -> S -> S.
Variable fn : A -> S -> S * V.
Hypothesis get_set : forall c s, getCell (setCell c s) = c.
Hypothesis fn_keeps_called :
  forall a s, Once.called (getCell s) = true ->
              Once.called (getCell (fst (fn a s))) = true.

Lemma cb_sets_called (a : A) (s : S) :
  Once.called (getCell (fst (Once.cb S A V getCell setCell fn a s))) = true.
Proof.
  unfold Once.cb. destruct (Once.called (getCell s)) eqn:Hc; [exact Hc|].
  pose proof (fn_keeps_called a
                (setCell (Once.mkCell true (Once.value (getCell s))) s)) as H.
  rewrite get_set in H. specialize (H eq_refl).
  destruct (fn a (setCell (Once.mkCell true (Once.value (getCell s))) s)) as [s2 v].
  cbn [fst] in H |- *. rewrite get_set. exact H.
Qed.

(** After a first call, a call of the wrapper changes nothing: the
    wrapped function does not run again. *)
Lemma cb_second_call (a a' : A) (s : S) :
  let s1 := fst (Once.cb S A V getCell setCell fn a s) in
  Once.cb S A V getCell setCell fn a' s1 = (s1, Once.value (getCell s1)).
Proof.
  intros s1. pose proof (cb_sets_called a s) as H. fold s1 in H.
  unfold Once.cb at 1. rewrite H. reflexivity.
Qed.

End OnceLaws.

(** Once the wrapper has been called, further calls leave the state as
    it is and return the stored value. *)
Lemma countingCb_called {A} (a : A) (c : Once.Cell A) (n : nat) :
  Once.called c = true ->
  Once.countingCb a (c, n) = ((c, n), Once.value c).
Proof. intros H. unfold Once.countingCb, Once.cb. cbn. rewrite H. reflexivity. Qed.

Lemma counting_calls_called {A} (l : list A) (c : Once.Cell A) (n : nat) :
  Once.called c = true ->
  fst (Once.calls _ _ _ fst (fun c s => (c, snd s)) Once.countingFn l (c, n)) = (c, n).
Proof.
  intros H. induction l as [|a l IH]; [reflexivity|].
  cbn [Once.calls]. unfold Once.cb at 1. cbn [fst]. rewrite H.
  destruct (Once.calls _ _ _ fst (fun c s => (c, snd s)) Once.countingFn l (c, n))
    as [s' vs] eqn:E.
  exact IH.
Qed.

(** The wrapped function runs on the first call and on no other. *)
Lemma counting_calls_runs {A} (l : list A) :
  snd (fst (Once.calls _ _ _ fst (fun c s => (c, snd s)) Once.countingFn l
              (Once.fresh, 0)))
  = match l with [] => 0 | _ => 1 end.
Proof.
  destruct l as [|a l]; [reflexivity|].
  cbn [Once.calls]. unfold Once.cb at 1. cbn.
  pose proof (counting_calls_called l (Once.mkCell true (Some a)) 1 eq_refl) as H.
  destruct (Once.calls _ _ _ fst (fun c s => (c, snd s)) Once.countingFn l
              (Once.mkCell true (Some a), 1)) as [s' vs].
  cbn in H |- *. rewrite H. reflexivity.
Qed.

(** ** The transfers *)

Import Ops.

Lemma userCalls_app (t1 t2 : list Out) : userCalls (t1 ++ t2) = userCalls t1 ++ userCalls t2.
Proof. apply filter_app. Qed.

Lemma keeps_out (o : Out) : isUserCall o = false -> keeps (out o).
Proof.
  intros Ho s H. unfold guarded in *. cbn [cUser trace out].
  rewrite userCalls_app. unfold userCalls at 2 4. cbn [filter].
  fold (isUserCall o). rewrite Ho. rewrite app_nil_r. exact H.
Qed.

(** The wrapper around the caller's function: the one place where the
    function runs, and it runs only while the cell is not set. *)
Lemma keeps_userOnce (a : Args) : keeps (userOnce a).
Proof.
  intros s H. unfold userOnce, Once.cb, guarded in *.
  destruct (Once.called (cUser s)) eqn:Hc.
  - cbn [fst]. rewrite Hc. exact H.
  - cbn. rewrite userCalls_app, H. cbn. lia.
Qed.

(** A wrapper on another cell runs a function that keeps the guard, or
    nothing; writing that cell does not touch the guard. *)
Lemma keeps_cb {A} (getCell : OpSt -> Once.Cell unit)
    (setCell : Once.Cell unit -> OpSt -> OpSt)
    (fn : A -> OpSt -> OpSt * unit) (a : A) :
  (forall c s, guarded s -> guarded (setCell c s)) ->
  (forall a, keeps (fun s => fst (fn a s))) ->
  keeps (fun s => fst (Once.cb OpSt A unit getCell setCell fn a s)).
Proof.
  intros Hset Hfn s H. unfold Once.cb. destruct (Once.called (getCell s)); [exact H|].
  pose proof (Hfn a _ (Hset (Once.mkCell true (Once.value (getCell s))) s H)) as H1.
  cbv beta in H1.
  destruct (fn a (setCell (Once.mkCell true (Once.value (getCell s))) s)) as [s1 v].
  cbn [fst] in H1 |- *. apply Hset. exact H1.
Qed.

Lemma guarded_set_cPasv c s : guarded s -> guarded (set_cPasv c s).
Proof. intros H. exact H. Qed.

Lemma guarded_set_cOuter c s : guarded s -> guarded (set_cOuter c s).
Proof. intros H. exact H. Qed.

Lemma guarded_set_cCmd c s : guarded s -> guarded (set_cCmd c s).
Proof. intros H. exact H. Qed.

Create HintDb guard.

#[local] Hint Resolve keeps_userOnce guarded_set_cPasv guarded_set_cOuter
  guarded_set_cCmd : guard.

(** A state that differs from a guarded one in the listeners, the
    listing or the issued flag only. *)
Ltac same_guard := match goal with H : guarded _ |- guarded _ => exact H end.

(** One more output that is not a call of the caller's function. *)
Ltac skip_outs := repeat (apply keeps_out; [reflexivity|]).

Section Transfer.

Variable path : string.

Lemma keeps_finalCallback (op : Op) (a : Args) : keeps (fun s => fst (finalCallback op a s)).
Proof.
  intros s H. unfold finalCallback.
  destruct op; try (cbn [fst]; apply keeps_userOnce; exact H).
  destruct (truthy1 (fst a)); cbn [fst].
  - apply keeps_userOnce; exact H.
  - skip_outs. same_guard.
Qed.

Lemma keeps_getCallback (op : Op) (a : Args) : keeps (getCallback op a).
Proof.
  apply (keeps_cb cOuter set_cOuter (finalCallback op) a); auto with guard.
  apply keeps_finalCallback.
Qed.

Lemma keeps_cmdCallbackGet (op : Op) (e : Arg1) (r : option Response) :
  keeps (cmdCallbackGet op e r).
Proof.
  intros s H. unfold cmdCallbackGet.
  destruct (truthy1 e); [apply keeps_getCallback; exact H|].
  destruct r as [r|]; [|exact H].
  destruct ((code r =? 125)%Z || (code r =? 150)%Z); apply keeps_getCallback; exact H.
Qed.

Lemma keeps_feedbackFn (a : Args) : keeps (fun s => fst (feedbackFn a s)).
Proof.
  intros s H. unfold feedbackFn. destruct (truthy1 (fst a)); cbn [fst].
  - apply keeps_userOnce; exact H.
  - skip_outs. same_guard.
Qed.

Lemma keeps_feedback (a : Args) : keeps (feedback a).
Proof.
  apply (keeps_cb cOuter set_cOuter feedbackFn a); auto with guard.
  apply keeps_feedbackFn.
Qed.

Lemma keeps_putCallbackFn (a : option JsError * Response) :
  keeps (fun s => fst (putCallbackFn a s)).
Proof.
  intros s H. unfold putCallbackFn. destruct (fst a); cbn [fst].
  - apply keeps_feedback; exact H.
  - destruct ((code (snd a) =? 125)%Z || (code (snd a) =? 150)%Z); cbn [fst];
      apply keeps_feedback; exact H.
Qed.

Lemma keeps_putCallback (e : option JsError) (r : Response) : keeps (putCallback e r).
Proof.
  apply (keeps_cb cCmd set_cCmd putCallbackFn (e, r)); auto with guard.
  apply keeps_putCallbackFn.
Qed.

Lemma keeps_cmdCallbackList (e : option JsError) (r : Response) : keeps (cmdCallbackList e r).
Proof.
  intros s H. unfold cmdCallbackList. destruct e; [apply keeps_userOnce; exact H|].
  destruct (existsb _ _); [exact H | apply keeps_userOnce; exact H].
Qed.

Lemma keeps_callTarget (op : Op) (t : Target) (a : Arg1) : keeps (callTarget op t a).
Proof.
  destruct t; cbn [callTarget]; [apply keeps_userOnce | apply keeps_cmdCallbackGet].
Qed.

Lemma guarded_set_session (e : Events.Emitter) (s : OpSt) :
  guarded s -> guarded (set_session e s).
Proof. intros H. exact H. Qed.

(** The listener of [pasvTimeout], whether the [emit] of the session
    returns or throws. *)
Lemma keeps_timeoutHandler (op : Op) (t : Target) :
  keeps (fun s => fst (timeoutHandler op t s)).
Proof.
  intros s H. unfold timeoutHandler.
  destruct (Events.emit "timeout" [] (session s)) as [r e|e]; cbn [fst].
  - apply keeps_callTarget. skip_outs. apply (guarded_set_session e). skip_outs. exact H.
  - apply (guarded_set_session e). skip_outs. exact H.
Qed.

Lemma keeps_runHandler (op : Op) (h : Handler) (p : Payload) :
  keeps (fun s => fst (runHandler op h p s)).
Proof.
  intros s H. destruct h; cbn [runHandler].
  - destruct p; exact H.
  - apply keeps_userOnce; exact H.
  - apply keeps_timeoutHandler; exact H.
  - apply keeps_callTarget; exact H.
  - apply keeps_callTarget; exact H.
  - exact H.
Qed.

(** The listeners that fire on an event, by induction on the listeners
    registered when it is emitted. *)
Lemma keeps_fire (op : Op) (ls : list Listener) (ev : EvName) (p : Payload) :
  keeps (fire op ls ev p).
Proof.
  induction ls as [|l ls IH]; intros s H; cbn [fire]; [exact H|].
  destruct (EvName_eqb (event l) ev); [|apply IH; exact H].
  set (s0 := if isOnce l then set_listeners (removeListener l (listeners s)) s else s).
  assert (H0 : guarded s0) by (unfold s0; destruct (isOnce l); exact H).
  pose proof (keeps_runHandler op (handler l) p s0 H0) as Hk. cbv beta in Hk.
  destruct (runHandler op (handler l) p s0) as [s1 threw]. cbn [fst] in Hk.
  destruct threw; [exact Hk | apply IH; exact Hk].
Qed.

Lemma keeps_pasvDone (op : Op) (a : Args) : keeps (fun s => fst (pasvDone op path a s)).
Proof.
  intros s H. unfold pasvDone.
  destruct op; destruct (truthy1 (fst a)); cbn [fst];
    try (apply keeps_userOnce; exact H);
    try (apply keeps_cmdCallbackGet; exact H);
    try (apply keeps_feedback; exact H);
    skip_outs; same_guard.
Qed.

Lemma keeps_pasvCallback (op : Op) (a : Args) : keeps (pasvCallback op path a).
Proof.
  apply (keeps_cb cPasv set_cPasv (pasvDone op path) a); auto with guard.
  apply keeps_pasvDone.
Qed.

Lemma keeps_step (op : Op) (e : Event) : keeps (step op path e).
Proof.
  intros s H. destruct e as [err r|err r|ev p]; cbn [step].
  - destruct (pasvReply err r); apply keeps_pasvCallback; exact H.
  - destruct (cmdIssued s); [|exact H].
    destruct op.
    + apply keeps_cmdCallbackList; exact H.
    + apply keeps_cmdCallbackGet; exact H.
    + apply keeps_cmdCallbackGet; exact H.
    + apply keeps_putCallback; exact H.
  - apply keeps_fire; exact H.
Qed.

(** Any sequence of events, by induction on the sequence. *)
Lemma keeps_run (op : Op) (es : list Event) : keeps (run op path es).
Proof.
  induction es as [|e es IH]; intros s H; [exact H|].
  change (run op path (e :: es) s) with (run op path es (step op path e s)).
  apply IH, keeps_step, H.
Qed.

End Transfer.

Lemma guarded_start (session : Events.Emitter) : guarded (start session).
Proof. reflexivity. Qed.

Lemma guarded_at_most_once (s : OpSt) :
  guarded s -> List.length (userCalls (trace s)) <= 1.
Proof.
  unfold guarded. destruct (Once.called (cUser s)); intros H; [exact H|].
  rewrite H. cbn. lia.
Qed.

Lemma run_at_most_once (op : Op) (path : string) (es : list Event)
    (session : Events.Emitter) :
  List.length (userCalls (trace (run op path es (start session)))) <= 1.
Proof. apply guarded_at_most_once, keeps_run, guarded_start. Qed.

Lemma putFromPath_at_most_once (error : option Put.FsError) (stats : option Put.Stats)
    (path : string) (es : list Event) (session : Events.Emitter) :
  List.length (userCalls (putFromPath error stats path es session)) <= 1.
Proof.
  unfold putFromPath. destruct (Put.statCallback error stats).
  - cbn. lia.
  - cbn. lia.
  - apply run_at_most_once.
Qed.

(** ** [ls] *)

Lemma callsOf_length (id : nat) (l : list Dispatch.Event) :
  List.length (Ls.callsOf id l) = called id l.
Proof.
  induction l as [|e l IH]; [reflexivity|].
  destruct e as [d|f err arg]; cbn [Ls.callsOf called]; [exact IH|].
  unfold isFn. destruct (fid f =? id); cbn [List.length]; rewrite IH; reflexivity.
Qed.

Lemma parsed_length (x : Ls.External) (input : Ls.ParserInput) :
  List.length (Ls.parsed x input) = 1.
Proof. unfold Ls.parsed. destruct (Ls.parseFTPEntries x input); reflexivity. Qed.

(** [entriesToList] calls the function given to [ls] at most once. *)
Lemma entriesToList_length (x : Ls.External) (error : Arg1) (entries : Ls.Entries) :
  List.length (Ls.entriesToList x error entries) <= 1.
Proof.
  unfold Ls.entriesToList. destruct (truthy1 error); [cbn; lia|].
  destruct entries; rewrite ?parsed_length; cbn; lia.
Qed.

Lemma fromList_length (x : Ls.External) (t : list Out) :
  List.length (flat_map (Ls.fromList x) t) <= List.length (userCalls t).
Proof.
  induction t as [|o t IH]; [reflexivity|].
  cbn [flat_map]. rewrite length_app.
  destruct o; cbn [Ls.fromList userCalls filter List.length Nat.add]; try exact IH.
  pose proof (entriesToList_length x a1
                (match a2 with
                 | Nothing => Ls.ENone
                 | Listing t0 => Ls.EText t0
                 | Socket => Ls.EOther
                 end)) as H.
  fold (userCalls t). lia.
Qed.

Lemma viaList_length (x : Ls.External) (path : string) (events : list Event)
    (session : Events.Emitter) :
  List.length (Ls.viaList x path events session) <= 1.
Proof.
  unfold Ls.viaList. etransitivity; [apply fromList_length | apply run_at_most_once].
Qed.

Lemma statCallback_length (x : Ls.External) (path : string) (system : option string)
    (events : list Event) (session : Events.Emitter) (call : option JsError * Arg) :
  List.length (Ls.statCallback x path system events session call) <= 1.
Proof.
  unfold Ls.statCallback.
  destruct (Ls.errored (fst call) || Ls.isHummingbird system);
    [apply viaList_length | apply entriesToList_length].
Qed.

(** [ls] calls its callback at most as often as the dispatcher calls
    the function given to [raw('stat', ...)], and at most once when it
    goes through [list]. *)
Lemma ls_length (x : Ls.External) (useList : bool) (path : string) (system : option string)
    (statCalls : list (option JsError * Arg)) (events : list Event)
    (session : Events.Emitter) :
  List.length statCalls <= 1 ->
  List.length (Ls.ls x useList path system statCalls events session) <= 1.
Proof.
  intros H. unfold Ls.ls. destruct useList; [apply viaList_length|].
  destruct statCalls as [|c [|c' l]]; cbn [flat_map].
  - cbn. lia.
  - rewrite app_nil_r. apply statCallback_length.
  - cbn in H. lia.
Qed.

(** C6.  The completion function a caller gives to an operation of the
    session runs at most once.

    - [once] itself: however often the wrapper is called, the wrapped
      function runs on the first call only.
    - [list], [get] and [put]: whatever replies to 'pasv' and to the
      transfer command arrive, and whatever events ('data', 'timeout',
      'close', 'error', 'end') the data socket and the write stream emit,
      in any order and any number of times, whatever listeners the
      session has for its own 'timeout' event, the caller's function is
      called at most once; so it is for [put] from a local path, whatever
      [fs.stat] calls back with.
    - [raw], [execute], [auth], [getFeatures], [setType] and [rename]: a
      function handed to the session once, on a session that did not hold
      it, is called at most once, whatever replies (duplicates included),
      connections and other operations follow.
    - [ls], whose callback is not wrapped in [once]: whether it lists at
      once ([useList]) or gives a function to [raw('stat', ...)] first,
      and whatever the listing parser yields, its callback is called at
      most once, under the same replies, operations and events. *)
Theorem completion_runs_at_most_once
    (A : Type) (args : list A)
    (op : Op) (path : string) (events : list Event) (session : Events.Emitter)
    (error : option Put.FsError) (stats : option Put.Stats)
    (id : nat) (s : FTP) (i : Input) (inputs : list Input)
    (x : Ls.External) (useList : bool) (system : option string) :
  pot id s = 0 -> occInput id i <= 1 -> occInputs id inputs = 0 ->
  snd (fst (Once.calls _ _ _ fst (fun c s => (c, snd s)) Once.countingFn args
              (Once.fresh, 0))) <= 1
  /\ List.length (userCalls (trace (run op path events (start session)))) <= 1
  /\ List.length (userCalls (putFromPath error stats path events session)) <= 1
  /\ called id (log (runInputs inputs (stepInput i s))) <= 1
  /\ List.length
       (Ls.ls x useList path system
          (Ls.callsOf id
             (log (runInputs inputs
                     (stepInput (Raw "stat" [path] (UserCb (mkUserFn id None))) s))))
          events session) <= 1.
Proof.
  intros Hs Hi Hrest. repeat split.
  - rewrite counting_calls_runs. destruct args; lia.
  - apply run_at_most_once.
  - apply putFromPath_at_most_once.
  - pose proof (pot_runInputs id inputs (stepInput i s)) as H1.
    pose proof (pot_stepInput id i s) as H2.
    unfold pot in H1 at 1. lia.
  - apply ls_length. rewrite callsOf_length.
    pose proof (pot_runInputs id inputs
                  (stepInput (Raw "stat" [path] (UserCb (mkUserFn id None))) s)) as H1.
    pose proof (pot_stepInput id (Raw "stat" [path] (UserCb (mkUserFn id None))) s) as H2.
    cbn [occInput occCb] in H2. unfold isFn in H2. cbn [fid] in H2.
    rewrite Nat.eqb_refl in H2.
    unfold pot in H1 at 1. lia.
Qed.

Lemma completion_runs_at_most_once_witness :
  let r150 := reply 150 "ok" in
  let events := [PasvReply None (reply 227 "Entering Passive Mode (127,0,0,1,10,20)");
                 CmdReply None r150; CmdReply None r150;
                 Emit EvTimeout PNone; Emit EvError (PError passiveTimeout);
                 Emit EvClose (PHadError true); Emit EvClose (PHadError false)] in
  let f := mkUserFn 1 None in
  let inputs := [Reply (reply 257 "/"); Reply (reply 257 "/"); Connected] in
  let x := Ls.mkExternal (fun _ => Ls.Parsed [Ls.mkFileEntry "a.txt" 0]) (fun n => n) in
  snd (fst (Once.calls _ _ _ fst (fun c s => (c, snd s)) Once.countingFn [1; 2; 3]
              (Once.fresh, 0))) <= 1
  /\ List.length (userCalls (trace (run List "/x" events (start Events.empty)))) <= 1
  /\ List.length
       (userCalls (putFromPath None (Some (Put.mkStats false 42)) "/x" events
                     Events.empty)) <= 1
  /\ called 1
       (log (runInputs inputs
               (stepInput (Raw "pwd" [] (UserCb f))
                  (set_authenticated true (newFTP "" ""))))) <= 1
  /\ List.length
       (Ls.ls x false "/x" None
          (Ls.callsOf 1
             (log (runInputs inputs
                     (stepInput (Raw "stat" ["/x"] (UserCb (mkUserFn 1 None)))
                        (set_authenticated true (newFTP "" ""))))))
          events Events.empty) <= 1.
Proof.
  intros r150 events f inputs x.
  apply (completion_runs_at_most_once nat [1; 2; 3] List "/x" events Events.empty
           None (Some (Put.mkStats false 42)) 1
           (set_authenticated true (newFTP "" "")) (Raw "pwd" [] (UserCb f)) inputs
           x false None).
  - reflexivity.
  - cbn. lia.
  - reflexivity.
Defined.

(* ===================================================================== *)
(** * The queue as a whole *)
(* ===================================================================== *)

Import Session.

(** ** A command is in flight exactly when the queue is not empty *)

Lemma consistent_fields (s s' : FTP) :
  commandQueue s' = commandQueue s -> inProgress s' = inProgress s ->
  consistent s -> consistent s'.
Proof. unfold consistent. intros Hq Hp H. rewrite Hq, Hp. exact H. Qed.

Lemma consistent_nextCmd (s : FTP) :
  (commandQueue s = [] -> inProgress s = false) -> consistent (nextCmd s).
Proof.
  intros H. unfold consistent, nextCmd.
  destruct (commandQueue s) as [|cmd q] eqn:Hq.
  - rewrite Hq. apply H. reflexivity.
  - destruct (inProgress s) eqn:Hp; cbn [negb].
    + rewrite Hq. exact Hp.
    + cbn [inProgress commandQueue set_inProgress]. rewrite send_commandQueue, Hq.
      reflexivity.
Qed.

Lemma consistent_pushCmd (cmd : Command) (s : FTP) : consistent (pushCmd cmd s).
Proof.
  apply consistent_nextCmd. cbn [commandQueue set_commandQueue]. intros H.
  destruct (commandQueue s); discriminate H.
Qed.

Lemma consistent_parse (r : Response) (cmd : Command) (s : FTP) :
  consistent (parse r cmd s).
Proof. apply consistent_nextCmd. reflexivity. Qed.

Ltac same_flight := eapply consistent_fields; [reflexivity | reflexivity | eassumption].

Lemma consistent_executeWith (run : string -> Callback -> FTP -> FTP)
    (a : string) (cb : Callback) (s : FTP) :
  (forall s', consistent s' -> consistent (run a cb s')) ->
  consistent s -> consistent (executeWith run a cb s).
Proof.
  intros Hrun H. unfold executeWith. destruct (socketWritable s); [now apply Hrun|].
  same_flight.
Qed.

Lemma consistent_rawAuth cmd args cb s : consistent s -> consistent (rawAuth cmd args cb s).
Proof.
  apply consistent_executeWith. intros s' _. apply consistent_pushCmd.
Qed.

Lemma consistent_authWith (invoke : option JsError -> Arg -> FTP -> FTP) u p k s :
  (forall e x s', consistent s' -> consistent (invoke e x s')) ->
  consistent s -> consistent (authWith invoke u p k s).
Proof.
  intros Hi H. unfold authWith. destruct (authenticating s); [now apply Hi|].
  apply consistent_rawAuth. same_flight.
Qed.

Lemma consistent_callK k e x s : consistent s -> consistent (callK k e x s).
Proof.
  intros H. destruct k as [f|a cb|a cb]; cbn [callK].
  - same_flight.
  - apply consistent_authWith; [|exact H]. intros. apply consistent_pushCmd.
  - apply consistent_pushCmd.
Qed.

Lemma consistent_getFeatures k s : consistent s -> consistent (getFeatures k s).
Proof.
  intros H. unfold getFeatures. destruct (features s);
    [now apply consistent_callK | now apply consistent_rawAuth].
Qed.

Lemma consistent_runCommand a cb s : consistent s -> consistent (runCommand a cb s).
Proof.
  intros H. unfold runCommand. destruct (authenticated s || RE_AUTH a);
    [apply consistent_pushCmd | now apply consistent_getFeatures].
Qed.

Lemma consistent_execute a cb s : consistent s -> consistent (execute a cb s).
Proof. apply consistent_executeWith. intros. now apply consistent_runCommand. Qed.

Lemma consistent_parseResponse r s : consistent s -> consistent (parseResponse r s).
Proof.
  intros H. unfold parseResponse. destruct (commandQueue s) as [|cmd rest] eqn:Hq; [exact H|].
  destruct (code r =? 220)%Z; [exact H|].
  assert (Hp : forall s', consistent s' -> consistent (pairOrIgnore r cmd rest s')).
  { intros s' H'. unfold pairOrIgnore. destruct (sameCode _ _).
    - eapply consistent_fields; [reflexivity | reflexivity | exact H'].
    - apply consistent_parse. }
  destruct (isMark r); [|now apply Hp].
  destruct (expectsMark (callback cmd)) as [em|]; [|exact H].
  destruct (negb _); [exact H|]. apply Hp.
  destruct (truthyCode (ignore em)); [same_flight | exact H].
Qed.

Lemma consistent_stepInput (i : Input) (s : FTP) :
  consistent s -> consistent (stepInput i s).
Proof.
  intros H. destruct i; cbn [stepInput].
  - now apply consistent_parseResponse.
  - unfold onConnect. destruct (firstAction s); [|exact H].
    apply consistent_runCommand. same_flight.
  - same_flight.
  - same_flight.
  - now apply consistent_execute.
  - now apply consistent_execute.
  - apply consistent_authWith; [|exact H]. intros. now apply consistent_callK.
  - now apply consistent_getFeatures.
  - unfold setType. destruct (type s) as [t'|].
    + destruct (String.eqb t' (toUpperCase t));
        [now apply consistent_callK | now apply consistent_execute].
    + now apply consistent_execute.
  - now apply consistent_execute.
Qed.

(** X1.  From its construction on, whatever replies, connections and
    operations reach the session, [inProgress] is set exactly when the
    queue is not empty: the head of the queue is the command in flight. *)
Theorem in_flight_iff_queued (optUser optPass : string) (inputs : list Input) :
  consistent (runInputs inputs (newFTP optUser optPass)).
Proof.
  assert (H : forall l s, consistent s -> consistent (runInputs l s)).
  { induction l as [|i l IH]; intros s Hs; [exact Hs|].
    change (runInputs (i :: l) s) with (runInputs l (stepInput i s)).
    apply IH, consistent_stepInput, Hs. }
  apply H. reflexivity.
Qed.

(** ** Writes to the control socket *)

Lemma sends_app (l1 l2 : list Dispatch.Event) : sends (l1 ++ l2) = sends l1 + sends l2.
Proof.
  induction l1 as [|[d|f e x] l1 IH]; cbn; [reflexivity | now rewrite IH | exact IH].
Qed.

Lemma quiet_fields (F : FTP -> FTP) :
  (forall s, log (F s) = log s /\ inProgress (F s) = inProgress s) -> quiet F.
Proof.
  intros H s. destruct (H s) as [Hl Hp]. rewrite Hl, Hp. split; [lia | auto].
Qed.

(** A step after a change of fields other than the log and the flag. *)
Lemma quiet_after (F G : FTP -> FTP) :
  quiet F -> (forall s, log (G s) = log s /\ inProgress (G s) = inProgress s) ->
  quiet (fun s => F (G s)).
Proof.
  intros HF HG s. destruct (HG s) as [Hl Hp]. destruct (HF (G s)) as [H1 H2].
  rewrite Hl, Hp in *. split; assumption.
Qed.

Lemma quiet_nextCmd : quiet nextCmd.
Proof.
  intros s. unfold nextCmd. destruct (commandQueue s) as [|cmd q].
  - split; [lia | auto].
  - destruct (inProgress s) eqn:Hp; cbn [negb].
    + split; [lia | auto].
    + split; [|discriminate]. cbn [log set_inProgress]. unfold send.
      destruct (truthy (action cmd)); [|lia].
      cbn [log emit]. rewrite sends_app. cbn. lia.
Qed.

Lemma quiet_pushCmd (cmd : Command) : quiet (pushCmd cmd).
Proof.
  apply (quiet_after nextCmd (fun s => set_commandQueue (commandQueue s ++ [cmd]) s)).
  - apply quiet_nextCmd.
  - intros s. split; reflexivity.
Qed.

Lemma quiet_callUser f e x : quiet (callUser f e x).
Proof.
  intros s. unfold callUser. cbn [log emit inProgress]. rewrite sends_app. cbn.
  split; [lia | intros H; split; [lia | exact H]].
Qed.

Lemma quiet_executeWith (run : string -> Callback -> FTP -> FTP) a cb :
  quiet (run a cb) -> quiet (executeWith run a cb).
Proof.
  intros Hrun s. unfold executeWith. destruct (socketWritable s); [apply Hrun|].
  cbn. split; [lia | auto].
Qed.

Lemma quiet_rawAuth cmd args cb : quiet (rawAuth cmd args cb).
Proof. apply quiet_executeWith. apply (quiet_pushCmd (mkCommand _ cb)). Qed.

Lemma quiet_authWith (invoke : option JsError -> Arg -> FTP -> FTP) u p k :
  (forall e x, quiet (invoke e x)) -> quiet (authWith invoke u p k).
Proof.
  intros Hi s. unfold authWith. destruct (authenticating s); [apply Hi|].
  apply (quiet_after (rawAuth "user" [orElse u "anonymous"]
                        (AuthUserCb (orElse u "anonymous") (orElse p "@anonymous") k))
           (set_authenticating true)).
  - apply quiet_rawAuth.
  - intros s'. split; reflexivity.
Qed.

Lemma quiet_callK k e x : quiet (callK k e x).
Proof.
  destruct k as [f|a cb|a cb]; cbn [callK].
  - apply quiet_callUser.
  - intros s. apply (quiet_authWith (fun _ _ => pushCmd (mkCommand a cb))).
    intros. apply quiet_pushCmd.
  - apply quiet_pushCmd.
Qed.

Lemma quiet_getFeatures k : quiet (getFeatures k).
Proof.
  intros s. unfold getFeatures. destruct (features s);
    [apply quiet_callK | apply quiet_rawAuth].
Qed.

Lemma quiet_runCommand a cb : quiet (runCommand a cb).
Proof.
  intros s. unfold runCommand. destruct (authenticated s || RE_AUTH a);
    [apply quiet_pushCmd | apply quiet_getFeatures].
Qed.

Lemma quiet_execute a cb : quiet (execute a cb).
Proof. apply quiet_executeWith, quiet_runCommand. Qed.

Lemma quiet_raw cmd args cb : quiet (raw cmd args cb).
Proof. apply quiet_execute. Qed.

(** A step taken after a change of fields other than the log and the
    flag, at one state. *)
Lemma quiet_pre (F : FTP -> FTP) (s s' : FTP) :
  quiet F -> log s' = log s -> inProgress s' = inProgress s ->
  sends (log (F s')) <= sends (log s) + 1
  /\ (inProgress s = true ->
      sends (log (F s')) = sends (log s) /\ inProgress (F s') = true).
Proof. intros HF Hl Hp. destruct (HF s') as [H1 H2]. rewrite Hl, Hp in *. auto. Qed.

Ltac quiet_at F s' := apply (quiet_pre F _ s'); [ | reflexivity | reflexivity].

Lemma quiet_call cb e r : quiet (call cb e r).
Proof.
  intros s. destruct cb as [|f|k|k|u p k|u p k|r' k|t k|to f]; cbn [call].
  - split; [lia | auto].
  - apply quiet_callUser.
  - quiet_at (raw "syst" [] (SystCb k))
      (set_features (Some (if isSome e then [] else parseFeats (text r))) s).
    apply quiet_raw.
  - destruct (negb (isSome e) && (code r =? 215)%Z).
    + quiet_at (callK k None
                  (argFeatures (features (set_system (Some (toLowerCase (text r))) s))))
        (set_system (Some (toLowerCase (text r))) s).
      apply quiet_callK.
    + apply quiet_callK.
  - destruct (isSome e || negb (memZ (code r) [230; 331; 332]%Z)).
    + quiet_at (callK k e Undefined) (set_authenticating false s). apply quiet_callK.
    + apply quiet_raw.
  - destruct (isSome e).
    + quiet_at (callK k e Undefined) (set_authenticating false s). apply quiet_callK.
    + destruct (memZ (code r) [230; 202]%Z).
      * quiet_at (raw "type" ["I"] (AuthTypeCb r k))
          (set_pass p (set_user u (set_authenticated true (set_authenticating false s)))).
        apply quiet_raw.
      * destruct (code r =? 332)%Z.
        -- quiet_at (raw "acct" [""] NOOP) (set_authenticating false s). apply quiet_raw.
        -- cbn. split; [lia | auto].
  - apply quiet_callK.
  - destruct (isSome e); [apply quiet_callK|].
    quiet_at (callK k e (Resp r)) (set_type (Some t) s). apply quiet_callK.
  - destruct (isSome e); [apply quiet_callUser | apply quiet_raw].
Qed.

Lemma quiet_stepInput_notReply (i : Input) : notReply i = true -> quiet (stepInput i).
Proof.
  intros Hi s. destruct i; try discriminate Hi; cbn [stepInput].
  - unfold onConnect. destruct (firstAction s) as [cmd|].
    + quiet_at (runCommand (action cmd) (callback cmd)) (set_firstAction None s).
      apply quiet_runCommand.
    + split; [lia | auto].
  - cbn. split; [lia | auto].
  - cbn. split; [lia | auto].
  - apply quiet_raw.
  - apply quiet_execute.
  - apply quiet_authWith. intros. apply quiet_callK.
  - apply quiet_getFeatures.
  - unfold setType. destruct (type s) as [t'|].
    + destruct (String.eqb t' (toUpperCase t)); [apply quiet_callK | apply quiet_raw].
    + apply quiet_raw.
  - apply quiet_raw.
Qed.

(** A reply on a session whose head is in flight: the callback writes
    nothing, then [nextCmd] writes at most the next command. *)
Lemma sends_parseResponse (r : Response) (s : FTP) :
  consistent s -> sends (log (parseResponse r s)) <= sends (log s) + 1.
Proof.
  intros Hc. unfold parseResponse. destruct (commandQueue s) as [|cmd rest] eqn:Hq; [lia|].
  assert (Hp : inProgress s = true) by (unfold consistent in Hc; now rewrite Hq in Hc).
  destruct (code r =? 220)%Z; [lia|].
  assert (Hpair : forall s', log s' = log s -> inProgress s' = true ->
                  sends (log (pairOrIgnore r cmd rest s')) <= sends (log s) + 1).
  { intros s' Hl Hp'. unfold pairOrIgnore. destruct (sameCode _ _).
    - cbn [log set_ignoreCmdCode]. rewrite Hl. lia.
    - unfold parse.
      destruct (quiet_call (callback cmd) (errorOf r) r (set_commandQueue rest s'))
        as [_ Hq']. destruct (Hq' Hp') as [Hs _]. cbn [log set_commandQueue] in Hs.
      destruct (quiet_nextCmd
                  (set_inProgress false
                     (call (callback cmd) (errorOf r) r (set_commandQueue rest s'))))
        as [Hn _]. cbn [log set_inProgress] in Hn. rewrite Hs, Hl in Hn. exact Hn. }
  destruct (isMark r); [|now apply Hpair].
  destruct (expectsMark (callback cmd)) as [em|]; [|lia].
  destruct (negb _); [lia|].
  apply Hpair; destruct (truthyCode (ignore em)); auto.
Qed.

(** X2.  On a session in which [inProgress] is set exactly when the
    queue is not empty, a reply, a connection or an operation writes at
    most one line to the control socket. *)
Theorem one_line_per_input (i : Input) (s : FTP) :
  consistent s -> sends (log (stepInput i s)) <= sends (log s) + 1.
Proof.
  intros Hc. destruct (notReply i) eqn:Hi.
  - apply (quiet_stepInput_notReply i Hi s).
  - destruct i; try discriminate Hi. now apply sends_parseResponse.
Qed.

Lemma one_line_per_input_witness :
  let s := execute "pwd" (UserCb (mkUserFn 1 None))
             (set_authenticated true (newFTP "" "")) in
  sends (log (stepInput (Reply (reply 257 "/")) s)) <= sends (log s) + 1.
Proof.
  intros s. apply (one_line_per_input (Reply (reply 257 "/")) s). reflexivity.
Defined.


(** X3.  While a command is in flight, nothing is written to the
    control socket until a reply arrives: operations are queued behind
    it, and neither a connection, nor a close, nor [destroy] followed by a
    reconnection releases the queue, since none of them clears
    [inProgress]. *)
Theorem no_write_while_in_flight (inputs : list Input) (s : FTP) :
  inProgress s = true ->
  forallb notReply inputs = true ->
  sends (log (runInputs inputs s)) = sends (log s)
  /\ inProgress (runInputs inputs s) = true.
Proof.
  revert s. induction inputs as [|i l IH]; intros s Hp Hl; [auto|].
  cbn [forallb] in Hl. apply andb_prop in Hl as [Hi Hl].
  change (runInputs (i :: l) s) with (runInputs l (stepInput i s)).
  destruct (quiet_stepInput_notReply i Hi s) as [_ H]. destruct (H Hp) as [Hs Hp'].
  destruct (IH (stepInput i s) Hp' Hl) as [Hs' Hp'']. split; [lia | exact Hp''].
Qed.

Lemma no_write_while_in_flight_witness :
  let s := execute "retr /big" (UserCb (mkUserFn 1 None))
             (set_authenticated true (newFTP "" "")) in
  let inputs := [Destroy; Linear.Execute "pwd" (UserCb (mkUserFn 2 None)); Connected;
                 Raw "noop" [] NOOP] in
  sends (log (runInputs inputs s)) = sends (log s)
  /\ inProgress (runInputs inputs s) = true.
Proof.
  intros s inputs. apply (no_write_while_in_flight inputs s); reflexivity.
Defined.

(** ** First in, first out *)

Lemma feed_empty (rs : list Response) (s : FTP) :
  commandQueue s = [] -> feed rs s = s.
Proof.
  intros Hq. induction rs as [|r rs IH]; [reflexivity|].
  change (feed (r :: rs) s) with (feed rs (parseResponse r s)).
  rewrite parseResponse_empty by exact Hq. exact IH.
Qed.

Lemma terminal_plain (r : Response) (s : FTP) :
  ignoreCmdCode s = None -> terminal r s = plain r.
Proof. intros H. unfold terminal, plain. rewrite H. cbn. apply andb_true_r. Qed.

(** One reply on a queue of callers' commands. *)
Lemma parseResponse_userCommand
    (r : Response) (a : string) (f : UserFn) (q : list (string * UserFn)) (s : FTP) :
  commandQueue s = map userCommand ((a, f) :: q) ->
  ignoreCmdCode s = None -> plain r = true ->
  let s1 := parseResponse r s in
  commandQueue s1 = map userCommand q
  /\ ignoreCmdCode s1 = None
  /\ log s1 = log s ++ fifoLog ((a, f) :: q) [r].
Proof.
  intros Hq Hi Hr s1. unfold s1.
  rewrite (parseResponse_terminal r s (userCommand (a, f)) (map userCommand q) Hq)
    by (rewrite terminal_plain; assumption).
  unfold parse. cbn [callback userCommand snd call]. unfold callUser.
  rewrite nextCmd_commandQueue, nextCmd_ignoreCmdCode.
  cbn [commandQueue ignoreCmdCode set_inProgress emit set_commandQueue].
  repeat split; [exact Hi|].
  unfold nextCmd, send.
  destruct q as [|[a' f'] q'];
    cbn [map fifoLog commandQueue set_inProgress emit set_commandQueue inProgress negb
         userCommand fst snd action log].
  - reflexivity.
  - destruct (truthy a'); cbn [log emit set_inProgress set_commandQueue app].
    + rewrite <- app_assoc. reflexivity.
    + reflexivity.
Qed.

Lemma fifoLog_cons (a : string) (f : UserFn) (q : list (string * UserFn))
    (r : Response) (rs : list Response) :
  fifoLog ((a, f) :: q) (r :: rs) = fifoLog ((a, f) :: q) [r] ++ fifoLog q rs.
Proof.
  cbn [fifoLog]. destruct q as [|[a' f'] q']; cbn [app fifoLog].
  - destruct rs; reflexivity.
  - f_equal. rewrite app_nil_r. reflexivity.
Qed.

(** X4.  Replies are paired with the queued commands in the order the
    commands were executed: on a queue of callers' commands, each reply
    that is neither a mark nor a greeting calls the function of the
    command at the head with that reply, then the next command is written.
    Replies that arrive when the queue is empty are dropped. *)
Theorem replies_pair_first_in_first_out
    (q : list (string * UserFn)) (rs : list Response) (s : FTP) :
  commandQueue s = map userCommand q ->
  ignoreCmdCode s = None ->
  forallb plain rs = true ->
  log (feed rs s) = log s ++ fifoLog q rs
  /\ commandQueue (feed rs s) = map userCommand (skipn (List.length rs) q).
Proof.
  revert q s. induction rs as [|r rs IH]; intros q s Hq Hi Hrs.
  - destruct q as [|[a f] q]; cbn; rewrite app_nil_r; auto.
  - cbn [forallb] in Hrs. apply andb_prop in Hrs as [Hr Hrs].
    change (feed (r :: rs) s) with (feed rs (parseResponse r s)).
    destruct q as [|[a f] q].
    + rewrite parseResponse_empty by exact Hq. rewrite feed_empty by exact Hq.
      cbn. rewrite app_nil_r. auto.
    + destruct (parseResponse_userCommand r a f q s Hq Hi Hr) as (Q1 & I1 & L1).
      destruct (IH q (parseResponse r s) Q1 I1 Hrs) as [L Q].
      rewrite L, L1, Q, (fifoLog_cons a f q r rs), app_assoc. split; reflexivity.
Qed.

Lemma replies_pair_first_in_first_out_witness :
  let f1 := mkUserFn 1 None in
  let f2 := mkUserFn 2 None in
  let s := execute "cwd /x" (UserCb f2)
             (execute "pwd" (UserCb f1) (set_authenticated true (newFTP "" ""))) in
  let rs := [reply 257 "/"; reply 550 "No such directory"; reply 200 "stray"] in
  log (feed rs s) = log s ++ fifoLog [("pwd", f1); ("cwd /x", f2)] rs
  /\ commandQueue (feed rs s)
     = map userCommand (skipn (List.length rs) [("pwd", f1); ("cwd /x", f2)]).
Proof.
  intros f1 f2 s rs.
  apply (replies_pair_first_in_first_out [("pwd", f1); ("cwd /x", f2)] rs s); reflexivity.
Defined.

(* ===================================================================== *)
(** * Logging in and the commands built on [raw] *)
(* ===================================================================== *)

Lemma plain_inv (r : Response) :
  plain r = true -> isMark r = false /\ (code r =? 220)%Z = false.
Proof.
  unfold plain. intros H. apply andb_prop in H as [A B].
  apply negb_true_iff in A, B. auto.
Qed.

Lemma truthy_completeCmd_user (args : list string) : truthy (completeCmd "user" args) = true.
Proof.
  destruct (completeCmd_word4 "u" "s" "e" "r" args) as [t Ht]; try reflexivity.
  rewrite Ht. reflexivity.
Qed.

Lemma truthy_completeCmd_type (args : list string) : truthy (completeCmd "type" args) = true.
Proof.
  destruct (completeCmd_word4 "t" "y" "p" "e" args) as [t Ht]; try reflexivity.
  rewrite Ht. reflexivity.
Qed.

Lemma truthy_completeCmd_rnfr (args : list string) : truthy (completeCmd "rnfr" args) = true.
Proof.
  destruct (completeCmd_word4 "r" "n" "f" "r" args) as [t Ht]; try reflexivity.
  rewrite Ht. reflexivity.
Qed.

Lemma truthy_completeCmd_rnto (args : list string) : truthy (completeCmd "rnto" args) = true.
Proof.
  destruct (completeCmd_word4 "r" "n" "t" "o" args) as [t Ht]; try reflexivity.
  rewrite Ht. reflexivity.
Qed.

(** A plain reply, with a command in the queue and no code to ignore,
    goes to the command at the head. *)
Lemma reply_on_head (r : Response) (cmd : Command) (rest : list Command) (s : FTP) :
  commandQueue s = cmd :: rest -> ignoreCmdCode s = None -> plain r = true ->
  parseResponse r s
  = nextCmd (set_inProgress false
               (call (callback cmd) (errorOf r) r (set_commandQueue rest s))).
Proof.
  intros Hq Hi Hr. rewrite (parseResponse_terminal r s cmd rest Hq); [reflexivity|].
  rewrite terminal_plain; assumption.
Qed.

Lemma rejected_user (r : Response) :
  userAccepted r = false ->
  isError r || negb (memZ (code r) [230; 331; 332]%Z) = true.
Proof.
  unfold userAccepted. destruct (isError r), (memZ (code r) [230; 331; 332]%Z);
    cbn; congruence.
Qed.

Lemma other_pass_code (c : Z) :
  memZ c [230; 202; 332]%Z = false ->
  memZ c [230; 202]%Z = false /\ (c =? 332)%Z = false.
Proof.
  unfold memZ. cbn [existsb]. intros H.
  destruct (c =? 230)%Z, (c =? 202)%Z, (c =? 332)%Z; cbn in H; try discriminate H.
  split; reflexivity.
Qed.

Lemma if_set_system (c : bool) (v : option string) (s : FTP) :
  (if c then set_system v s else s) = set_system (if c then v else system s) s.
Proof. destruct c; destruct s; reflexivity. Qed.

(** The state of a session in normal form. *)
Ltac flds :=
  cbv [set_user set_pass set_commandQueue set_inProgress set_ignoreCmdCode
       set_authenticated set_authenticating set_features set_system set_type
       set_socketWritable set_firstAction emit
       user pass commandQueue inProgress ignoreCmdCode authenticated authenticating
       features system type socketWritable firstAction log negb orb andb
       callback action].

Ltac norm := flds; cbn [app]; flds.

Ltac settle := unfold pushCmd, nextCmd, send, callUser; norm.

Ltac at_rest s H :=
  let us := fresh "us" in let pa := fresh "pa" in let q := fresh "q" in
  let ip := fresh "ip" in let ig := fresh "ig" in let au := fresh "au" in
  let ag := fresh "ag" in let fe := fresh "fe" in let sy := fresh "sy" in
  let ty := fresh "ty" in let sw := fresh "sw" in let fa := fresh "fa" in
  let lg := fresh "lg" in
  destruct s as [us pa q ip ig au ag fe sy ty sw fa lg];
  let Hw := fresh "Hw" in let Hq := fresh "Hq" in
  let Hp := fresh "Hp" in let Hi := fresh "Hi" in
  destruct H as (Hw & Hq & Hp & Hi); cbn in Hw, Hq, Hp, Hi; subst.

(** The reply [r] reaches the command at the head of the queue. *)
Ltac head_reply r H :=
  erewrite (reply_on_head r); [|reflexivity|reflexivity|exact H];
  cbn [callback call]; rewrite ?isSome_errorOf.

(** X5.  A login that succeeds.  On a connected session at rest,
    [auth(user, pass, callback)] writes USER; on a USER reply that is not
    an error and has code 230, 331 or 332 it writes PASS; on a PASS reply
    that is not an error and has code 230 or 202 it marks the session
    authenticated, stores the user and the password it used ('anonymous'
    and '@anonymous' in place of empty ones) and writes TYPE I; on the
    reply to that, whatever it is, it calls [callback] once, with no
    error and the PASS reply.  Nothing else is written or called. *)
Theorem auth_success (s : FTP) (u p : string) (f : UserFn) (rU rP rT : Response) :
  idle s -> authenticating s = false ->
  plain rU = true -> plain rP = true -> plain rT = true ->
  userAccepted rU = true ->
  isError rP = false -> memZ (code rP) [230; 202]%Z = true ->
  let u' := orElse u "anonymous" in
  let p' := orElse p "@anonymous" in
  let s3 := feed [rU; rP; rT] (auth u p (UserK f) s) in
  authenticated s3 = true /\ authenticating s3 = false
  /\ user s3 = u' /\ pass s3 = p' /\ commandQueue s3 = [] /\ inProgress s3 = false
  /\ log s3 = log s ++ [Sent (completeCmd "user" [u'] ++ CRLF);
                        Sent (completeCmd "pass" [p'] ++ CRLF);
                        Sent ("type I" ++ CRLF);
                        Called f None (Resp rP)].
Proof.
  intros Hs Ha HU HP HT HaU HeP HcP u' p' s3.
  unfold userAccepted in HaU. apply andb_prop in HaU as [eU cU]. apply negb_true_iff in eU.
  at_rest s Hs. cbn in Ha. subst.
  assert (E : s3 = mkFTP u' p' [] false None true false fe sy ty true fa
                (lg ++ [Sent (completeCmd "user" [u'] ++ CRLF);
                        Sent (completeCmd "pass" [p'] ++ CRLF);
                        Sent ("type I" ++ CRLF);
                        Called f None (Resp rP)])).
  { unfold s3, feed, auth, authWith, rawAuth, executeWith. cbn [fold_left].
    fold u' p'. norm. settle. rewrite truthy_completeCmd_user. norm.
    head_reply rU HU. rewrite eU, cU. cbn [orb negb].
    rewrite raw_push by (try reflexivity; rewrite RE_AUTH_pass; apply orb_true_r).
    settle. rewrite truthy_completeCmd_pass. norm.
    head_reply rP HP. rewrite HeP, HcP.
    rewrite raw_push by reflexivity.
    settle. change (completeCmd "type" ["I"]) with "type I".
    change (truthy "type I") with true. norm.
    head_reply rT HT. cbn [callK]. settle. rewrite <- !app_assoc. reflexivity. }
  rewrite E. repeat split.
Qed.

Lemma auth_success_witness :
  let s := newFTP "joe" "secret" in
  let f := mkUserFn 1 None in
  let s3 := feed [reply 331 "Password required"; reply 230 "Logged in"; reply 200 "Type set"]
              (auth "joe" "secret" (UserK f) s) in
  authenticated s3 = true /\ authenticating s3 = false
  /\ user s3 = "joe" /\ pass s3 = "secret" /\ commandQueue s3 = [] /\ inProgress s3 = false
  /\ log s3 = log s ++ [Sent (completeCmd "user" ["joe"] ++ CRLF);
                        Sent (completeCmd "pass" ["secret"] ++ CRLF);
                        Sent ("type I" ++ CRLF);
                        Called f None (Resp (reply 230 "Logged in"))].
Proof.
  intros s f.
  apply (auth_success s "joe" "secret" f (reply 331 "Password required")
           (reply 230 "Logged in") (reply 200 "Type set"));
    try reflexivity.
  repeat split.
Defined.

(** X6.  A login refused at USER.  When the USER reply is an error, or
    has a code other than 230, 331 and 332, [auth] writes no PASS, clears
    [authenticating], leaves [authenticated] as it was and calls
    [callback] once with the error of the reply and nothing else: with
    [null] when the reply is not an error reply. *)
Theorem rejected_user_reported_once (s : FTP) (u p : string) (f : UserFn) (rU : Response) :
  idle s -> authenticating s = false ->
  plain rU = true -> userAccepted rU = false ->
  let s1 := feed [rU] (auth u p (UserK f) s) in
  log s1 = log s ++ [Sent (completeCmd "user" [orElse u "anonymous"] ++ CRLF);
                     Called f (errorOf rU) Undefined]
  /\ authenticating s1 = false /\ authenticated s1 = authenticated s
  /\ commandQueue s1 = [] /\ inProgress s1 = false.
Proof.
  intros Hs Ha HU HrU s1. apply rejected_user in HrU.
  at_rest s Hs. cbn in Ha. subst.
  assert (E : s1 = mkFTP us pa [] false None au false fe sy ty true fa
                (lg ++ [Sent (completeCmd "user" [orElse u "anonymous"] ++ CRLF);
                        Called f (errorOf rU) Undefined])).
  { unfold s1, feed, auth, authWith, rawAuth, executeWith. cbn [fold_left].
    norm. settle. rewrite truthy_completeCmd_user. norm.
    head_reply rU HU. rewrite HrU. cbn [callK]. settle.
    rewrite <- !app_assoc. reflexivity. }
  rewrite E. repeat split.
Qed.

Lemma rejected_user_reported_once_witness :
  let s := newFTP "" "" in
  let f := mkUserFn 1 None in
  let r := reply 200 "Command okay" in
  let s1 := feed [r] (auth "" "" (UserK f) s) in
  log s1 = log s ++ [Sent (completeCmd "user" ["anonymous"] ++ CRLF); Called f None Undefined]
  /\ authenticating s1 = false /\ authenticated s1 = authenticated s
  /\ commandQueue s1 = [] /\ inProgress s1 = false.
Proof.
  intros s f r.
  apply (rejected_user_reported_once s "" "" f r); try reflexivity.
  repeat split.
Defined.

(** X7.  A PASS reply that [auth] has no branch for.  When the PASS reply
    is not an error and its code is none of 230, 202 and 332, [auth]
    clears [authenticating] and does nothing more: the session is not
    authenticated, nothing is written, and [callback] is not called, then
    or at any later time, whatever replies, connections and operations
    (that do not pass the function again) follow. *)
Theorem unexpected_pass_code_never_reported
    (s : FTP) (u p : string) (f : UserFn) (rU rP : Response) (more : list Input) :
  idle s -> authenticating s = false ->
  pot (fid f) s = 0 -> occInputs (fid f) more = 0 ->
  plain rU = true -> plain rP = true ->
  userAccepted rU = true ->
  isError rP = false -> memZ (code rP) [230; 202; 332]%Z = false ->
  let s2 := feed [rU; rP] (auth u p (UserK f) s) in
  log s2 = log s ++ [Sent (completeCmd "user" [orElse u "anonymous"] ++ CRLF);
                     Sent (completeCmd "pass" [orElse p "@anonymous"] ++ CRLF)]
  /\ authenticating s2 = false /\ authenticated s2 = authenticated s
  /\ commandQueue s2 = [] /\ inProgress s2 = false
  /\ called (fid f) (log (runInputs more s2)) = 0.
Proof.
  intros Hs Ha Hpot Hmore HU HP HaU HeP HcP s2.
  unfold userAccepted in HaU. apply andb_prop in HaU as [eU cU]. apply negb_true_iff in eU.
  apply other_pass_code in HcP as [HcP Hc332].
  at_rest s Hs. cbn in Ha. subst.
  assert (E : s2 = mkFTP us pa [] false None au false fe sy ty true fa
                (lg ++ [Sent (completeCmd "user" [orElse u "anonymous"] ++ CRLF);
                        Sent (completeCmd "pass" [orElse p "@anonymous"] ++ CRLF)])).
  { unfold s2, feed, auth, authWith, rawAuth, executeWith. cbn [fold_left].
    norm. settle. rewrite truthy_completeCmd_user. norm.
    head_reply rU HU. rewrite eU, cU. cbn [orb negb].
    rewrite raw_push by (try reflexivity; rewrite RE_AUTH_pass; apply orb_true_r).
    settle. rewrite truthy_completeCmd_pass. norm.
    head_reply rP HP. rewrite HeP, HcP, Hc332. settle.
    rewrite <- !app_assoc. reflexivity. }
  rewrite E. repeat split.
  pose proof (pot_runInputs (fid f) more
                (mkFTP us pa [] false None au false fe sy ty true fa
                   (lg ++ [Sent (completeCmd "user" [orElse u "anonymous"] ++ CRLF);
                           Sent (completeCmd "pass" [orElse p "@anonymous"] ++ CRLF)])))
    as H.
  unfold pot in H at 1. unfold pot, occ in H, Hpot. cbn [commandQueue firstAction log] in H, Hpot.
  rewrite called_app in H. cbn [called] in H. lia.
Qed.

Lemma unexpected_pass_code_never_reported_witness :
  let s := newFTP "" "" in
  let f := mkUserFn 1 None in
  let rU := reply 331 "Password required" in
  let rP := reply 200 "Command okay" in
  let more := [Reply (reply 200 "ok"); Connected; Raw "noop" [] NOOP; Reply (reply 226 "ok")] in
  let s2 := feed [rU; rP] (auth "" "" (UserK f) s) in
  log s2 = log s ++ [Sent (completeCmd "user" ["anonymous"] ++ CRLF);
                     Sent (completeCmd "pass" ["@anonymous"] ++ CRLF)]
  /\ authenticating s2 = false /\ authenticated s2 = authenticated s
  /\ commandQueue s2 = [] /\ inProgress s2 = false
  /\ called 1 (log (runInputs more s2)) = 0.
Proof.
  intros s f rU rP more.
  apply (unexpected_pass_code_never_reported s "" "" f rU rP more); try reflexivity.
  repeat split.
Defined.

Lemma auth_sets_authenticating (u p : string) (f : UserFn) (s : FTP) :
  authenticating (auth u p (UserK f) s) = true.
Proof.
  unfold auth, authWith. destruct (authenticating s) eqn:Ha; [exact Ha|].
  unfold rawAuth, executeWith, createSocket.
  match goal with |- context [if ?c then _ else _] => destruct c end; [|reflexivity].
  unfold pushCmd. rewrite nextCmd_authenticating. reflexivity.
Qed.

(** X8.  One login at a time.  Right after a call of [auth], and until
    the reply to USER or PASS has cleared [authenticating], a further
    call of [auth] changes nothing in the session and writes nothing: it
    calls its own callback at once with the error 'This client is already
    authenticating'. *)
Theorem second_auth_refused (s : FTP) (u p u2 p2 : string) (f g : UserFn) :
  let s1 := auth u p (UserK f) s in
  auth u2 p2 (UserK g) s1 = callUser g (Some alreadyAuthenticating) Undefined s1.
Proof.
  intros s1. unfold auth at 1, authWith.
  unfold s1. rewrite auth_sets_authenticating. reflexivity.
Qed.

(** X9.  The first command of a session logs in first.  On a connected
    session at rest that is not authenticated and has no features
    cached, [execute(action, callback)] for an action other than
    FEAT/SYST/USER/PASS writes FEAT, then SYST, then USER and PASS with
    the user and password of the session, then TYPE I, and only then the
    action; the reply to the action is what [callback] is called with.
    The replies to FEAT, SYST and TYPE I may be anything (errors
    included): the features are cached from the FEAT reply, empty on an
    error, and the system from a SYST reply 215. *)
Theorem first_command_logs_in
    (s : FTP) (a : string) (f : UserFn) (rF rS rU rP rT rA : Response) :
  idle s -> authenticated s = false -> authenticating s = false ->
  features s = None ->
  RE_AUTH a = false -> truthy a = true ->
  plain rF = true -> plain rS = true -> plain rU = true ->
  plain rP = true -> plain rT = true -> plain rA = true ->
  userAccepted rU = true ->
  isError rP = false -> memZ (code rP) [230; 202]%Z = true ->
  let u' := orElse (user s) "anonymous" in
  let p' := orElse (pass s) "@anonymous" in
  let s' := feed [rF; rS; rU; rP; rT; rA] (execute a (UserCb f) s) in
  log s' = log s ++ [Sent ("feat" ++ CRLF); Sent ("syst" ++ CRLF);
                     Sent (completeCmd "user" [u'] ++ CRLF);
                     Sent (completeCmd "pass" [p'] ++ CRLF);
                     Sent ("type I" ++ CRLF);
                     Sent (a ++ CRLF);
                     Called f (errorOf rA) (Resp rA)]
  /\ authenticated s' = true
  /\ features s' = Some (if isError rF then [] else parseFeats (text rF))
  /\ system s' = (if negb (isError rS) && (code rS =? 215)%Z
                  then Some (toLowerCase (text rS)) else system s)
  /\ commandQueue s' = [] /\ inProgress s' = false.
Proof.
  intros Hs Hau Ha Hfe Hre Hta HF HS HU HP HT HA HaU HeP HcP u' p' s'.
  unfold userAccepted in HaU. apply andb_prop in HaU as [eU cU]. apply negb_true_iff in eU.
  at_rest s Hs. cbn in Hau, Ha, Hfe. subst. cbn [user pass] in u', p'.
  assert (E : s' = mkFTP u' p' [] false None true false
                    (Some (if isError rF then [] else parseFeats (text rF)))
                    (if negb (isError rS) && (code rS =? 215)%Z
                     then Some (toLowerCase (text rS)) else sy)
                    ty true fa
                    (lg ++ [Sent ("feat" ++ CRLF); Sent ("syst" ++ CRLF);
                            Sent (completeCmd "user" [u'] ++ CRLF);
                            Sent (completeCmd "pass" [p'] ++ CRLF);
                            Sent ("type I" ++ CRLF);
                            Sent (a ++ CRLF);
                            Called f (errorOf rA) (Resp rA)])).
  { unfold s', feed, execute, executeWith, runCommand. cbn [fold_left].
    norm. rewrite Hre. unfold getFeatures, rawAuth, executeWith. norm.
    change (completeCmd "feat" []) with "feat". settle.
    change (truthy "feat") with true. norm.
    head_reply rF HF.
    rewrite raw_push by reflexivity.
    change (completeCmd "syst" []) with "syst". settle.
    change (truthy "syst") with true. norm.
    head_reply rS HS.
    rewrite if_set_system. norm.
    cbn [callK]. unfold authWith, rawAuth, executeWith. norm. fold u' p'.
    settle. rewrite truthy_completeCmd_user. norm.
    head_reply rU HU. rewrite eU, cU. cbn [orb negb].
    rewrite raw_push by (try reflexivity; rewrite RE_AUTH_pass; apply orb_true_r).
    settle. rewrite truthy_completeCmd_pass. norm.
    head_reply rP HP. rewrite HeP, HcP.
    rewrite raw_push by reflexivity.
    settle. change (completeCmd "type" ["I"]) with "type I".
    change (truthy "type I") with true. norm.
    head_reply rT HT. cbn [callK]. settle. rewrite Hta. norm.
    head_reply rA HA. settle. rewrite <- !app_assoc. reflexivity. }
  rewrite E. repeat split.
Qed.

Lemma first_command_logs_in_witness :
  let s := newFTP "joe" "secret" in
  let f := mkUserFn 1 None in
  let rF := reply 211 ("Features:" ++ LF ++ " MLSD" ++ LF ++ " UTF8" ++ LF ++ "211 End") in
  let rA := reply 257 "/home/joe" in
  let s' := feed [rF; reply 215 "UNIX"; reply 331 "Password required";
                  reply 230 "Logged in"; reply 200 "Type set"; rA]
              (execute "pwd" (UserCb f) s) in
  log s' = log s ++ [Sent ("feat" ++ CRLF); Sent ("syst" ++ CRLF);
                     Sent (completeCmd "user" ["joe"] ++ CRLF);
                     Sent (completeCmd "pass" ["secret"] ++ CRLF);
                     Sent ("type I" ++ CRLF);
                     Sent ("pwd" ++ CRLF);
                     Called f None (Resp rA)]
  /\ authenticated s' = true
  /\ features s' = Some ["mlsd"; "utf8"]
  /\ system s' = Some "unix"
  /\ commandQueue s' = [] /\ inProgress s' = false.
Proof.
  intros s f rF rA.
  apply (first_command_logs_in s "pwd" f rF (reply 215 "UNIX")
           (reply 331 "Password required") (reply 230 "Logged in")
           (reply 200 "Type set") rA);
    try reflexivity.
  repeat split.
Defined.



(** X11.  [setType] remembers the type the server accepted.  On an
    authenticated session at rest whose type is another one,
    [setType(type, callback)] writes TYPE with the type in upper case and
    calls [callback] with the error and the reply; the type is stored
    unless the reply is an error.  Once it is stored, [setType] for the
    same type, in whatever case, writes nothing and calls its callback at
    once without arguments.  (The type is taken to be made of code units
    below 128, as the types of FTP are.) *)
Theorem setType_remembers_accepted_type
    (s : FTP) (t t2 : string) (f g : UserFn) (r : Response) :
  idle s -> authenticated s = true ->
  allChars isAscii7 t = true -> allChars isAscii7 t2 = true ->
  type s <> Some (toUpperCase t) ->
  plain r = true -> toUpperCase t2 = toUpperCase t ->
  let s1 := feed [r] (setType t (UserK f) s) in
  log s1 = log s ++ [Sent (completeCmd "type" [toUpperCase t] ++ CRLF);
                     Called f (errorOf r) (Resp r)]
  /\ type s1 = (if isError r then type s else Some (toUpperCase t))
  /\ commandQueue s1 = [] /\ inProgress s1 = false
  /\ (isError r = false ->
      setType t2 (UserK g) s1 = callUser g None Undefined s1).
Proof.
  intros Hs Hau _ _ Hty Hr Ht2 s1.
  at_rest s Hs. cbn in Hau, Hty. subst.
  assert (E : s1 = mkFTP us pa [] false None true ag fe sy
                (if isError r then ty else Some (toUpperCase t)) true fa
                (lg ++ [Sent (completeCmd "type" [toUpperCase t] ++ CRLF);
                        Called f (errorOf r) (Resp r)])).
  { unfold s1, feed, setType. cbn [fold_left]. norm.
    assert (Eraw : (match ty with
                    | Some t' => if String.eqb t' (toUpperCase t)
                                 then callK (UserK f) None Undefined
                                        (mkFTP us pa [] false None true ag fe sy ty true fa lg)
                                 else raw "type" [toUpperCase t] (SetTypeCb (toUpperCase t) (UserK f))
                                        (mkFTP us pa [] false None true ag fe sy ty true fa lg)
                    | None => raw "type" [toUpperCase t] (SetTypeCb (toUpperCase t) (UserK f))
                                (mkFTP us pa [] false None true ag fe sy ty true fa lg)
                    end)
                   = raw "type" [toUpperCase t] (SetTypeCb (toUpperCase t) (UserK f))
                       (mkFTP us pa [] false None true ag fe sy ty true fa lg)).
    { destruct ty as [t'|]; [|reflexivity].
      destruct (String.eqb t' (toUpperCase t)) eqn:Et; [|reflexivity].
      apply String.eqb_eq in Et. subst t'. contradiction Hty. reflexivity. }
    rewrite Eraw. clear Eraw.
    rewrite raw_push by reflexivity.
    settle. rewrite truthy_completeCmd_type. norm.
    head_reply r Hr. cbn [callK]. destruct (isError r); settle;
      rewrite <- !app_assoc; reflexivity. }
  rewrite E. repeat split.
  intros He. rewrite He. unfold setType. norm. rewrite Ht2, String.eqb_refl. reflexivity.
Qed.

Lemma setType_remembers_accepted_type_witness :
  let s := set_authenticated true (newFTP "" "") in
  let f := mkUserFn 1 None in
  let g := mkUserFn 2 None in
  let r := reply 200 "Type set to A" in
  let s1 := feed [r] (setType "a" (UserK f) s) in
  log s1 = log s ++ [Sent (completeCmd "type" ["A"] ++ CRLF); Called f None (Resp r)]
  /\ type s1 = Some "A"
  /\ commandQueue s1 = [] /\ inProgress s1 = false
  /\ (isError r = false -> setType "A" (UserK g) s1 = callUser g None Undefined s1).
Proof.
  intros s f g r.
  apply (setType_remembers_accepted_type s "a" "A" f g r); try reflexivity.
  - repeat split.
  - discriminate.
Defined.

(** X12.  [rename] is RNFR followed by RNTO.  On an authenticated session
    at rest, [rename(from, to, callback)] writes RNFR.  When the reply is
    an error, RNTO is never written and [callback] is called once with
    that error; otherwise RNTO is written and [callback] is called once
    with the error and the reply of RNTO. *)
Theorem rename_is_rnfr_then_rnto
    (s : FTP) (from to : string) (f : UserFn) (r1 r2 : Response) :
  idle s -> authenticated s = true ->
  plain r1 = true -> plain r2 = true ->
  let s2 := feed [r1; r2] (rename from to f s) in
  log s2 = log s ++
           (if isError r1
            then [Sent (completeCmd "rnfr" [from] ++ CRLF);
                  Called f (errorOf r1) Undefined]
            else [Sent (completeCmd "rnfr" [from] ++ CRLF);
                  Sent (completeCmd "rnto" [to] ++ CRLF);
                  Called f (errorOf r2) (Resp r2)])
  /\ commandQueue s2 = [] /\ inProgress s2 = false.
Proof.
  intros Hs Hau H1 H2 s2.
  at_rest s Hs. cbn in Hau. subst.
  assert (E : s2 = mkFTP us pa [] false None true ag fe sy ty true fa
                (lg ++ (if isError r1
                        then [Sent (completeCmd "rnfr" [from] ++ CRLF);
                              Called f (errorOf r1) Undefined]
                        else [Sent (completeCmd "rnfr" [from] ++ CRLF);
                              Sent (completeCmd "rnto" [to] ++ CRLF);
                              Called f (errorOf r2) (Resp r2)]))).
  { unfold s2, feed, rename. cbn [fold_left].
    rewrite raw_push by reflexivity.
    settle. rewrite truthy_completeCmd_rnfr. norm.
    head_reply r1 H1. destruct (isError r1).
    - settle. rewrite <- !app_assoc. reflexivity.
    - rewrite raw_push by reflexivity.
      settle. rewrite truthy_completeCmd_rnto. norm.
      head_reply r2 H2. settle. rewrite <- !app_assoc. reflexivity. }
  rewrite E. repeat split.
Qed.

Lemma rename_is_rnfr_then_rnto_witness :
  let s := set_authenticated true (newFTP "" "") in
  let f := mkUserFn 1 None in
  let r1 := reply 550 "No such file" in
  let r2 := reply 250 "ok" in
  let s2 := feed [r1; r2] (rename "a.txt" "b.txt" f s) in
  log s2 = log s ++
           [Sent (completeCmd "rnfr" ["a.txt"] ++ CRLF); Called f (errorOf r1) Undefined]
  /\ commandQueue s2 = [] /\ inProgress s2 = false.
Proof.
  intros s f r1 r2.
  apply (rename_is_rnfr_then_rnto s "a.txt" "b.txt" f r1 r2); try reflexivity.
  repeat split.
Defined.





(* ===================================================================== *)
(** * The values the client computes from replies *)
(* ===================================================================== *)

(** ** The address of a PASV reply *)

Lemma bitAnd_255 (a : option Z) : (0 <= bitAnd a 255 <= 255)%Z.
Proof.
  unfold bitAnd.
  assert (E : Z.land (toInt32 a) 255 = (toInt32 a mod 256)%Z)
    by (change 255%Z with (Z.ones 8); rewrite Z.land_ones by lia; reflexivity).
  rewrite E. pose proof (Z.mod_pos_bound (toInt32 a) 256 ltac:(lia)). lia.
Qed.

Lemma allChars_app (p : ascii -> bool) (a b : string) :
  allChars p (a ++ b) = allChars p a && allChars p b.
Proof.
  induction a as [|c a IH]; [reflexivity|].
  cbn [String.append allChars]. rewrite IH. apply andb_assoc.
Qed.

Lemma groupsOk_consume (cs : string) (st : MatchState) :
  allChars groupChar cs = true -> groupsOk st -> groupsOk (consume cs st).
Proof.
  intros Hcs [Ho Hc]. split; [|exact Hc]. cbn [opened consume].
  induction Ho as [|g l Hg Hl IH]; cbn [map]; constructor.
  - cbn [snd]. rewrite allChars_app, Hg, Hcs. reflexivity.
  - exact IH.
Qed.

Lemma groupsOk_openGroup (n : nat) (st : MatchState) : groupsOk st -> groupsOk (openGroup n st).
Proof. intros [Ho Hc]. split; [constructor; [reflexivity | exact Ho] | exact Hc]. Qed.

Lemma groupsOk_closeGroup (n : nat) (st : MatchState) : groupsOk st -> groupsOk (closeGroup n st).
Proof.
  intros [Ho Hc]. unfold closeGroup. destruct (opened st) as [|[m txt] rest] eqn:E.
  - split; [rewrite E; constructor | exact Hc].
  - inversion Ho; subst. split; [assumption | constructor; assumption].
Qed.

(** A successful greedy repetition hands a run of class characters to the
    rest of the pattern. *)
Lemma greedyStar_some {R} (k : string -> string -> option R) (run s : string) (r : R) :
  allChars groupChar run = true ->
  greedyStar k run s = Some r ->
  exists run' s', allChars groupChar run' = true /\ k run' s' = Some r.
Proof.
  revert run. induction s as [|c s IH]; intros run Hrun H; cbn [greedyStar] in H.
  - eauto.
  - destruct (isClass c) eqn:Hc; [|eauto].
    destruct (greedyStar k (run ++ String c "") s) eqn:Hg; [|eauto].
    apply (IH (run ++ String c "")%string); [|congruence].
    rewrite allChars_app, Hrun. cbn [allChars]. unfold groupChar. rewrite Hc. reflexivity.
Qed.

Lemma matchHere_groupsOk (re : list Node) (st st' : MatchState) (s : string) :
  Forall (fun n => match n with Lit c => groupChar c = true | _ => True end) re ->
  groupsOk st -> matchHere re st s = Some st' -> groupsOk st'.
Proof.
  intros Hre. revert st s. induction Hre as [|n re Hn Hre IH]; intros st s Hst H.
  - cbn in H. congruence.
  - destruct n as [c| |n|n]; cbn [matchHere] in H.
    + destruct s as [|c' s]; [discriminate H|].
      destruct (Ascii.eqb c c'); [|discriminate H].
      eapply IH; [|exact H]. apply groupsOk_consume; [|exact Hst].
      cbn [allChars]. rewrite Hn. reflexivity.
    + unfold greedyPlus in H. destruct s as [|c s]; [discriminate H|].
      destruct (isClass c) eqn:Hc; [|discriminate H].
      apply greedyStar_some in H as (run' & s' & Hrun & H).
      * eapply IH; [|exact H]. apply groupsOk_consume; assumption.
      * cbn [allChars]. unfold groupChar. rewrite Hc. reflexivity.
    + eapply IH; [|exact H]. apply groupsOk_openGroup, Hst.
    + eapply IH; [|exact H]. apply groupsOk_closeGroup, Hst.
Qed.

Lemma exec_groupsOk (s : string) (m : MatchState) :
  exec RE_PASV s = Some m -> groupsOk m.
Proof.
  induction s as [|c s IH]; cbn [exec]; intros H.
  - destruct (matchHere RE_PASV startState "") eqn:E; [|discriminate H].
    injection H as <-. eapply matchHere_groupsOk; [| |exact E].
    + repeat constructor.
    + split; constructor.
  - destruct (matchHere RE_PASV startState (String c s)) eqn:E.
    + injection H as <-. eapply matchHere_groupsOk; [| |exact E].
      * repeat constructor.
      * split; constructor.
    + apply IH, H.
Qed.

Lemma group_ok (n : nat) (gs : list (nat * string)) :
  Forall (fun g => allChars groupChar (snd g) = true) gs ->
  allChars groupChar (group n gs) = true.
Proof.
  induction 1 as [|[m txt] gs Hg Hgs IH]; cbn [group]; [reflexivity|].
  destruct (Nat.eqb m n); [exact Hg | exact IH].
Qed.

Lemma commasToDots_hostChar (s : string) :
  allChars groupChar s = true -> allChars hostChar (commasToDots s) = true.
Proof.
  induction s as [|c s IH]; [reflexivity|]. cbn [allChars commasToDots].
  intros H. apply andb_prop in H as [Hc Hs]. rewrite (IH Hs), andb_true_r.
  destruct (Ascii.eqb c ",") eqn:E; [reflexivity|].
  unfold groupChar in Hc. rewrite E, orb_false_r in Hc.
  unfold hostChar. rewrite Hc. reflexivity.
Qed.

(** X15.  Whatever the text of the PASV reply, an address that
    [getPasvPort] returns is one [Net.createConnection] can be given: the
    port is a number from 0 to 65535 (the two numbers are cut to their low
    eight bits), and the host is made of digits, minus signs and dots,
    without any comma left. *)
Theorem pasv_address_is_well_formed (text : string) (o : PasvOptions) :
  getPasvPort text = Some o ->
  (0 <= port o <= 65535)%Z /\ allChars hostChar (host o) = true.
Proof.
  unfold getPasvPort. destruct (exec RE_PASV text) as [m|] eqn:E; [|discriminate].
  intros H. injection H as <-. cbn [port host]. split.
  - pose proof (bitAnd_255 (parseInt (group 2 (closed m)))).
    pose proof (bitAnd_255 (parseInt (group 3 (closed m)))). lia.
  - apply commasToDots_hostChar, group_ok. apply (exec_groupsOk text m E).
Qed.

Lemma pasv_address_is_well_formed_witness :
  let o := mkPasvOptions "10.0.0.300" 65535 in
  (0 <= port o <= 65535)%Z /\ allChars hostChar (host o) = true.
Proof.
  intros o.
  apply (pasv_address_is_well_formed "227 Entering Passive Mode (10,0,0,300,-1,511)" o).
  reflexivity.
Defined.

(** ** The features *)

Lemma lowerChar_idem (c : ascii) : lowerChar (lowerChar c) = lowerChar c.
Proof. destruct c as [[] [] [] [] [] [] [] []]; reflexivity. Qed.

Lemma isWhiteSpace_lowerChar (c : ascii) : isWhiteSpace (lowerChar c) = isWhiteSpace c.
Proof. destruct c as [[] [] [] [] [] [] [] []]; reflexivity. Qed.

Lemma toLowerCase_idem (s : string) : toLowerCase (toLowerCase s) = toLowerCase s.
Proof.
  induction s as [|c s IH]; [reflexivity|].
  cbn [toLowerCase]. rewrite lowerChar_idem, IH. reflexivity.
Qed.

Lemma trimStart_toLowerCase (s : string) :
  trimStart (toLowerCase s) = toLowerCase (trimStart s).
Proof.
  induction s as [|c s IH]; [reflexivity|].
  cbn [toLowerCase trimStart]. rewrite isWhiteSpace_lowerChar.
  destruct (isWhiteSpace c); [exact IH | reflexivity].
Qed.

Lemma trimEnd_toLowerCase (s : string) :
  trimEnd (toLowerCase s) = toLowerCase (trimEnd s).
Proof.
  induction s as [|c s IH]; [reflexivity|].
  cbn [toLowerCase trimEnd]. rewrite IH, isWhiteSpace_lowerChar.
  destruct (trimEnd s); cbn [toLowerCase]; [destruct (isWhiteSpace c)|]; reflexivity.
Qed.

Lemma trim_toLowerCase (s : string) : trim (toLowerCase s) = toLowerCase (trim s).
Proof. unfold trim. rewrite trimStart_toLowerCase, trimEnd_toLowerCase. reflexivity. Qed.

Lemma trimEnd_idem (s : string) : trimEnd (trimEnd s) = trimEnd s.
Proof.
  induction s as [|c s IH]; [reflexivity|]. cbn [trimEnd].
  destruct (trimEnd s) as [|d t] eqn:E.
  - destruct (isWhiteSpace c) eqn:Hc; [reflexivity|]. cbn [trimEnd]. rewrite Hc. reflexivity.
  - cbn [trimEnd]. cbn [trimEnd] in IH. rewrite IH. reflexivity.
Qed.

Lemma headNotWhite_trimStart (s : string) : headNotWhite (trimStart s) = true.
Proof.
  induction s as [|c s IH]; [reflexivity|]. cbn [trimStart].
  destruct (isWhiteSpace c) eqn:Hc; [exact IH|]. cbn. rewrite Hc. reflexivity.
Qed.

Lemma trimStart_headNotWhite (s : string) : headNotWhite s = true -> trimStart s = s.
Proof.
  destruct s as [|c s]; [reflexivity|]. cbn. intros H.
  apply negb_true_iff in H. rewrite H. reflexivity.
Qed.

Lemma headNotWhite_trimEnd (s : string) :
  headNotWhite s = true -> headNotWhite (trimEnd s) = true.
Proof.
  destruct s as [|c s]; [reflexivity|]. cbn [headNotWhite trimEnd]. intros H.
  apply negb_true_iff in H.
  destruct (trimEnd s); [rewrite H|]; cbn; rewrite H; reflexivity.
Qed.

Lemma trim_idem (s : string) : trim (trim s) = trim s.
Proof.
  unfold trim.
  rewrite (trimStart_headNotWhite (trimEnd (trimStart s))).
  - apply trimEnd_idem.
  - apply headNotWhite_trimEnd, headNotWhite_trimStart.
Qed.

Lemma truthy_toLowerCase (s : string) : truthy (toLowerCase s) = truthy s.
Proof. destruct s; reflexivity. Qed.

(** X16.  The features [_parseFeats] returns are normal: none is empty,
    none starts or ends with white space, none has a capital letter,
    whatever the text of the FEAT reply. *)
Theorem parsed_features_are_normal (feats f : string) :
  In f (parseFeats feats) -> normalFeature f.
Proof.
  unfold parseFeats. intros H. apply filter_In in H as [H Ht].
  apply in_map_iff in H as (line & <- & _). repeat split.
  - exact Ht.
  - rewrite trim_toLowerCase, trim_idem. reflexivity.
  - apply toLowerCase_idem.
Qed.

Lemma parsed_features_are_normal_witness :
  normalFeature "mlsd".
Proof.
  apply (parsed_features_are_normal
           ("211-Features:" ++ LF ++ "  MLSD " ++ CRLF ++ "   " ++ LF ++ "211 End")%string
           "mlsd").
  left. reflexivity.
Defined.

Lemma existsb_eqb_In (x : string) (l : list string) :
  In x l -> existsb (String.eqb x) l = true.
Proof.
  intros H. apply existsb_exists. exists x. split; [exact H | apply String.eqb_refl].
Qed.

(** X17.  [hasFeat] finds what the server listed, in any case.  Once the
    features of a FEAT reply are cached, every line of the reply between
    the first and the last that is not blank is a feature: [hasFeat]
    returns [true] for every string that differs from the trimmed line in
    the case of its letters only. *)
Theorem hasFeat_finds_listed_feature (feats line asked : string) (s : FTP) :
  features s = Some (parseFeats feats) ->
  In line (slice_1_m1 (splitNewline [] feats)) ->
  truthy (trim line) = true ->
  toLowerCase asked = toLowerCase (trim line) ->
  hasFeat asked s = Returns true.
Proof.
  intros Hf Hin Ht Hcase. unfold hasFeat. rewrite Hf.
  assert (Ha : truthy asked = true).
  { rewrite <- truthy_toLowerCase, Hcase, truthy_toLowerCase. exact Ht. }
  rewrite Ha, Hcase. f_equal. apply existsb_eqb_In.
  unfold parseFeats. apply filter_In. split.
  - apply in_map_iff. exists line. split; [reflexivity | exact Hin].
  - rewrite truthy_toLowerCase. exact Ht.
Qed.

Lemma hasFeat_finds_listed_feature_witness :
  let feats :=
    ("211-Features:" ++ LF ++ " MLSD" ++ CRLF ++ " UTF8" ++ LF ++ "211 End")%string in
  hasFeat "Utf8" (set_features (Some (parseFeats feats)) (newFTP "" "")) = Returns true.
Proof.
  intros feats.
  apply (hasFeat_finds_listed_feature feats " UTF8" "Utf8"); try reflexivity.
  right. left. reflexivity.
Defined.

(** X18.  [hasFeat] without features.  For a feature name that is not
    empty, [hasFeat] throws (it reads [indexOf] of [null]) on a new
    session and after [destroy], which forgets the features.  For the
    empty name it returns [false], features or not. *)
Theorem hasFeat_throws_without_features (feature : string) (s : FTP) (u p : string) :
  truthy feature = true ->
  hasFeat feature (destroy s) = ThrowsTypeError
  /\ hasFeat feature (newFTP u p) = ThrowsTypeError
  /\ hasFeat "" s = Returns false.
Proof.
  intros H. unfold hasFeat. rewrite H. repeat split.
Qed.

Lemma hasFeat_throws_without_features_witness :
  hasFeat "mlsd" (destroy (newFTP "" "")) = ThrowsTypeError
  /\ hasFeat "mlsd" (newFTP "" "") = ThrowsTypeError
  /\ hasFeat "" (newFTP "" "") = Returns false.
Proof.
  apply (hasFeat_throws_without_features "mlsd" (newFTP "" "") "" ""). reflexivity.
Defined.

(** ** The value of [once] *)

(** X19.  The wrapper that [once] returns remembers its first result.  Called
    any number of times, with whatever arguments, it runs the function on
    the first arguments only and returns the result of that run every
    time. *)
Theorem once_returns_first_value (A : Type) (a : A) (l : list A) :
  Once.calls _ _ _ fst (fun c s => (c, snd s)) Once.countingFn (a :: l) (Once.fresh, 0)
  = ((Once.mkCell true (Some a), 1), Some a :: map (fun _ => Some a) l).
Proof.
  cbn [Once.calls]. unfold Once.cb at 1. cbn [fst snd Once.called Once.fresh Once.countingFn].
  cbn [Once.value].
  assert (H : forall l,
             Once.calls _ _ _ fst (fun c s => (c, snd s)) Once.countingFn l
               (Once.mkCell true (Some a), 1)
             = ((Once.mkCell true (Some a), 1), map (fun _ => Some a) l)).
  { clear l. induction l as [|b l IH]; [reflexivity|].
    cbn [Once.calls map]. unfold Once.cb at 1. cbn [fst Once.called Once.value].
    rewrite IH. reflexivity. }
  rewrite H. reflexivity.
Qed.

(* ===================================================================== *)
(** * The transfers, event by event *)
(* ===================================================================== *)

Lemma mark_cases (r : Response) :
  memZ (code r) (marks expectedMarks) = true -> code r = 125%Z \/ code r = 150%Z.
Proof.
  unfold memZ. cbn [marks expectedMarks existsb]. intros H.
  apply orb_prop in H as [H|H]; [left; apply Z.eqb_eq, H|].
  apply orb_prop in H as [H|H]; [right; apply Z.eqb_eq, H | discriminate H].
Qed.

Lemma run_app (op : Op) (path : string) (es1 es2 : list Event) (s : OpSt) :
  run op path (es1 ++ es2) s = run op path es2 (run op path es1 s).
Proof. apply fold_left_app. Qed.

(** The reply to 'pasv' carries an address: the transfer gets its
    socket. *)
Lemma pasvReply_connect (r : Response) (o : PasvOptions) :
  getPasvPort (text r) = Some o -> pasvReply None r = PasvConnect o.
Proof. intros H. unfold pasvReply. rewrite H. reflexivity. Qed.

Lemma step_pasv_connect (op : Op) (path : string) (r : Response) (o : PasvOptions) (s : OpSt) :
  getPasvPort (text r) = Some o ->
  step op path (PasvReply None r) s = pasvCallback op path (NoError, Socket) s.
Proof. intros H. unfold step. rewrite (pasvReply_connect r o H). reflexivity. Qed.

(** The listeners [list] registers on the data socket. *)
Lemma list_listeners (path : string) (r : Response) (o : PasvOptions)
    (session : Events.Emitter) :
  getPasvPort (text r) = Some o ->
  step List path (PasvReply None r) (start session)
  = mkOpSt Once.fresh (Once.mkCell true (Some tt)) Once.fresh Once.fresh ""
      [mkListener EvData false HListData;
       mkListener EvTimeout true (HTimeout TUser);
       mkListener EvClose true HListClose;
       mkListener EvError true (HCall TUser)]
      true session [Execute "pasv"; Execute ("list " ++ path)].
Proof. intros H. unfold step. rewrite (pasvReply_connect r o H). reflexivity. Qed.

Lemma list_mark (path : string) (r : Response) (s : OpSt) :
  cmdIssued s = true ->
  memZ (code r) (marks expectedMarks) = true ->
  step List path (CmdReply None r) s = s.
Proof.
  intros Hc Hm. unfold step, cmdCallbackList. rewrite Hc.
  destruct (mark_cases r Hm) as [E|E]; rewrite E; reflexivity.
Qed.

Lemma list_data (path : string) (ds : list string)
    (cU cP cO cC : Once.Cell unit) (lst : string) (ci : bool)
    (session : Events.Emitter) (tr : list Out) :
  let ls := [mkListener EvData false HListData;
             mkListener EvTimeout true (HTimeout TUser);
             mkListener EvClose true HListClose;
             mkListener EvError true (HCall TUser)] in
  run List path (map (fun d => Emit EvData (PData d)) ds)
    (mkOpSt cU cP cO cC lst ls ci session tr)
  = mkOpSt cU cP cO cC (fold_left String.append ds lst) ls ci session tr.
Proof.
  intros ls. revert lst. induction ds as [|d ds IH]; intros lst; [reflexivity|].
  cbn [map fold_left]. unfold run in *. cbn [fold_left]. rewrite <- IH. reflexivity.
Qed.

(** X20.  [list] hands over the whole listing when the data socket
    closes.  After a PASV reply with an address and the mark 125 or 150
    for LIST, the pieces the data socket delivers are appended in their
    order of arrival; when the socket closes, the caller's function is
    called, once, with the [hadError] flag of the 'close' event as its
    first argument and the text as its second. *)
Theorem list_delivers_listing_on_close
    (path : string) (rPasv rMark : Response) (o : PasvOptions)
    (ds : list string) (hadError : bool) (session : Events.Emitter) :
  getPasvPort (text rPasv) = Some o ->
  memZ (code rMark) (marks expectedMarks) = true ->
  let events := [PasvReply None rPasv; CmdReply None rMark]
                ++ map (fun d => Emit EvData (PData d)) ds
                ++ [Emit EvClose (PHadError hadError)] in
  trace (run List path events (start session))
  = [Execute "pasv"; Execute ("list " ++ path);
     UserCall (HadError hadError) (Listing (fold_left String.append ds ""))].
Proof.
  intros Hp Hm events. unfold events. rewrite !run_app.
  change (run List path [PasvReply None rPasv; CmdReply None rMark] (start session))
    with (step List path (CmdReply None rMark) (step List path (PasvReply None rPasv) (start session))).
  rewrite (list_listeners path rPasv o session Hp).
  rewrite list_mark by (reflexivity || exact Hm).
  rewrite list_data. reflexivity.
Qed.

Lemma list_delivers_listing_on_close_witness :
  let rPasv := reply 227 "Entering Passive Mode (127,0,0,1,10,20)" in
  let events := [PasvReply None rPasv; CmdReply None (reply 150 "Here comes the listing")]
                ++ map (fun d => Emit EvData (PData d)) ["a.txt" ++ LF; "b.txt" ++ LF]%string
                ++ [Emit EvClose (PHadError false)] in
  trace (run List "/pub" events (start Events.empty))
  = [Execute "pasv"; Execute ("list " ++ "/pub");
     UserCall (HadError false)
       (Listing (fold_left String.append ["a.txt" ++ LF; "b.txt" ++ LF]%string ""))].
Proof.
  intros rPasv.
  apply (list_delivers_listing_on_close "/pub" rPasv (reply 150 "Here comes the listing")
           (mkPasvOptions "127.0.0.1" 2580) ["a.txt" ++ LF; "b.txt" ++ LF]%string false
           Events.empty);
    reflexivity.
Defined.

(** The listener of [pasvTimeout] when the [emit] of the session
    returns, and when it throws. *)
Lemma timeoutHandler_returned (op : Op) (t : Target) (s : OpSt)
    (e0 : Events.Emitter) (r : Events.Result) (e : Events.Emitter) :
  session s = e0 ->
  Events.emit "timeout" [] e0 = Events.Returned r e ->
  timeoutHandler op t s
  = (callTarget op t (Err passiveTimeout)
       (out SocketEnd (set_session e (out EmitTimeout s))), false).
Proof. intros <- H. unfold timeoutHandler. rewrite H. reflexivity. Qed.

Lemma timeoutHandler_threw (op : Op) (t : Target) (s : OpSt)
    (e0 e : Events.Emitter) :
  session s = e0 ->
  Events.emit "timeout" [] e0 = Events.ThrewTypeError e ->
  timeoutHandler op t s = (set_session e (out EmitTimeout s), true).
Proof. intros <- H. unfold timeoutHandler. rewrite H. reflexivity. Qed.

(** X21.  A passive socket that times out during [list] or [get].
    [pasvTimeout] first has the session emit 'timeout'.  When that
    [emit] returns, the data socket is ended and the error 'Passive
    socket timeout' is passed on: before the reply to LIST or RETR it
    reaches the caller's function, and the 'error' and 'close' events
    that may follow are not reported any more; after the mark it still
    reaches the caller of [list], while for [get], whose caller has got
    the socket by then, the socket is ended and nothing is reported.
    When the [emit] of the session throws (as it does when a listener
    of 'timeout' was registered after a [once] listener), the socket is
    not ended and the caller's function is not called. *)
Theorem passive_timeout_is_reported
    (op : Op) (path : string) (rPasv rMark : Response) (o : PasvOptions)
    (hadError : bool) (e : JsError) (session : Events.Emitter) :
  op <> PutOp ->
  getPasvPort (text rPasv) = Some o ->
  memZ (code rMark) (marks expectedMarks) = true ->
  let s0 := run op path [PasvReply None rPasv] (start session) in
  let s := run op path [Emit EvTimeout PNone] s0 in
  let s1 := run op path [CmdReply None rMark] s0 in
  match Events.emit "timeout" [] session with
  | Events.Returned _ session' =>
      trace s
      = trace s0 ++ [EmitTimeout; SocketEnd;
                     UserCall (Err (mkError "Passive socket timeout" None)) Nothing]
      /\ Ops.session s = session'
      /\ trace (run op path [Emit EvError (PError e); Emit EvClose (PHadError hadError)] s)
         = trace s
      /\ trace (run op path [Emit EvTimeout PNone] s1)
         = trace s1 ++ [EmitTimeout; SocketEnd]
           ++ match op with
              | List => [UserCall (Err (mkError "Passive socket timeout" None)) Nothing]
              | _ => []
              end
  | Events.ThrewTypeError session' =>
      trace s = trace s0 ++ [EmitTimeout]
      /\ Ops.session s = session'
      /\ trace (run op path [Emit EvTimeout PNone] s1) = trace s1 ++ [EmitTimeout]
  end.
Proof.
  intros Hop Hp Hm s0 s s1. unfold s, s1, s0, run. cbn [fold_left].
  rewrite (step_pasv_connect op path rPasv o (start session) Hp).
  destruct rMark as [c t er m].
  assert (Hc : c = 125%Z \/ c = 150%Z) by exact (mark_cases _ Hm).
  destruct (Events.emit "timeout" [] session) as [r session'|session'] eqn:E.
  - destruct op; [| | |contradiction Hop; reflexivity];
      destruct Hc as [-> | ->];
      unfold step, emitEvent;
      cbv -[Events.emit timeoutHandler String.append];
      rewrite !(timeoutHandler_returned _ _ _ session r session')
        by (reflexivity || exact E);
      repeat split; vm_compute; reflexivity.
  - destruct op; [| | |contradiction Hop; reflexivity];
      destruct Hc as [-> | ->];
      unfold step, emitEvent;
      cbv -[Events.emit timeoutHandler String.append];
      rewrite !(timeoutHandler_threw _ _ _ session session')
        by (reflexivity || exact E);
      repeat split; vm_compute; reflexivity.
Qed.

Lemma passive_timeout_is_reported_witness :
  let rPasv := reply 227 "Entering Passive Mode (127,0,0,1,10,20)" in
  let rMark := reply 150 "Opening data connection" in
  let listener := Events.mkEntry (Events.Plain (Events.mkFn 1 Events.RUndefined)) Events.Self in
  let session := Events.mkEmitter [("timeout", [listener])] 0 [] in
  let s0 := run GetFn "/f" [PasvReply None rPasv] (start session) in
  let s := run GetFn "/f" [Emit EvTimeout PNone] s0 in
  let s1 := run GetFn "/f" [CmdReply None rMark] s0 in
  match Events.emit "timeout" [] session with
  | Events.Returned _ session' =>
      trace s
      = trace s0 ++ [EmitTimeout; SocketEnd;
                     UserCall (Err (mkError "Passive socket timeout" None)) Nothing]
      /\ Ops.session s = session'
      /\ trace (run GetFn "/f" [Emit EvError (PError passiveTimeout);
                                Emit EvClose (PHadError true)] s)
         = trace s
      /\ trace (run GetFn "/f" [Emit EvTimeout PNone] s1)
         = trace s1 ++ [EmitTimeout; SocketEnd] ++ []
  | Events.ThrewTypeError session' =>
      trace s = trace s0 ++ [EmitTimeout]
      /\ Ops.session s = session'
      /\ trace (run GetFn "/f" [Emit EvTimeout PNone] s1) = trace s1 ++ [EmitTimeout]
  end.
Proof.
  intros rPasv rMark listener session.
  apply (passive_timeout_is_reported GetFn "/f" rPasv rMark (mkPasvOptions "127.0.0.1" 2580)
           true passiveTimeout session).
  - discriminate.
  - reflexivity.
  - reflexivity.
Defined.

(** X22.  [put] watches for the timeout only after the mark.
    [getPutSocket] calls [pasvTimeout] in the callback of STOR, on the
    mark 125 or 150.  A 'timeout' of the data socket before that reply is
    not handled at all: nothing is emitted, the socket is not ended and
    the caller's function is not called.  After the mark the session
    emits 'timeout'; when that [emit] returns, the socket is ended and
    the caller's function gets the error 'Passive socket timeout'; when
    it throws, neither happens. *)
Theorem put_timeout_needs_the_mark
    (path : string) (rPasv rMark : Response) (o : PasvOptions)
    (session : Events.Emitter) :
  getPasvPort (text rPasv) = Some o ->
  memZ (code rMark) (marks expectedMarks) = true ->
  trace (run PutOp path [PasvReply None rPasv; Emit EvTimeout PNone] (start session))
  = [Execute "pasv"; Execute ("stor " ++ path)]
  /\ trace (run PutOp path [PasvReply None rPasv; CmdReply None rMark;
                            Emit EvTimeout PNone] (start session))
     = [Execute "pasv"; Execute ("stor " ++ path); Pipe; EmitTimeout]
       ++ match Events.emit "timeout" [] session with
          | Events.Returned _ _ =>
              [SocketEnd; UserCall (Err (mkError "Passive socket timeout" None)) Nothing]
          | Events.ThrewTypeError _ => []
          end.
Proof.
  intros Hp Hm. unfold run. cbn [fold_left].
  rewrite (step_pasv_connect PutOp path rPasv o (start session) Hp).
  split; [vm_compute; reflexivity|].
  destruct rMark as [c t e m].
  assert (Hc : c = 125%Z \/ c = 150%Z) by exact (mark_cases _ Hm).
  destruct (Events.emit "timeout" [] session) as [r session'|session'] eqn:E;
    destruct Hc as [-> | ->];
    unfold step, emitEvent;
    cbv -[Events.emit timeoutHandler String.append];
    [ rewrite !(timeoutHandler_returned _ _ _ session r session')
        by (reflexivity || exact E)
    | rewrite !(timeoutHandler_returned _ _ _ session r session')
        by (reflexivity || exact E)
    | rewrite !(timeoutHandler_threw _ _ _ session session')
        by (reflexivity || exact E)
    | rewrite !(timeoutHandler_threw _ _ _ session session')
        by (reflexivity || exact E) ];
    vm_compute; reflexivity.
Qed.

Lemma put_timeout_needs_the_mark_witness :
  let rPasv := reply 227 "Entering Passive Mode (127,0,0,1,10,20)" in
  let rMark := reply 150 "Ok to send data" in
  let first := Events.mkEntry (Events.Feedback001 0 (Events.mkFn 1 Events.RUndefined))
                 Events.Self in
  let second := Events.mkEntry (Events.Plain (Events.mkFn 2 Events.RUndefined)) Events.Self in
  let session := Events.mkEmitter [("timeout", [first; second])] 1 [] in
  trace (run PutOp "/f" [PasvReply None rPasv; Emit EvTimeout PNone] (start session))
  = [Execute "pasv"; Execute ("stor " ++ "/f")]
  /\ trace (run PutOp "/f" [PasvReply None rPasv; CmdReply None rMark;
                            Emit EvTimeout PNone] (start session))
     = [Execute "pasv"; Execute ("stor " ++ "/f"); Pipe; EmitTimeout]
       ++ match Events.emit "timeout" [] session with
          | Events.Returned _ _ =>
              [SocketEnd; UserCall (Err (mkError "Passive socket timeout" None)) Nothing]
          | Events.ThrewTypeError _ => []
          end.
Proof.
  intros rPasv rMark first second session.
  apply (put_timeout_needs_the_mark "/f" rPasv rMark (mkPasvOptions "127.0.0.1" 2580) session);
    reflexivity.
Defined.

(** X23.  What [get] with a function gives its caller.  After a PASV
    reply with an address, the reply to RETR decides: on an error reply
    the function gets that error; on the mark 125 or 150 it gets the
    paused data socket; on any other reply it gets the error 'Unexpected
    command ' followed by the text of the reply. *)
Theorem get_hands_over_socket_on_mark
    (path : string) (rPasv r : Response) (o : PasvOptions) (error : option JsError)
    (session : Events.Emitter) :
  getPasvPort (text rPasv) = Some o ->
  trace (run GetFn path [PasvReply None rPasv; CmdReply error r] (start session))
  = [Execute "pasv"; SocketPause; Execute ("retr " ++ path);
     match error with
     | Some e => UserCall (Err e) Nothing
     | None =>
         if memZ (code r) (marks expectedMarks) then UserCall NoError Socket
         else UserCall (Err (unexpected r)) Nothing
     end].
Proof.
  intros Hp. unfold run. cbn [fold_left].
  rewrite (step_pasv_connect GetFn path rPasv o (start session) Hp).
  destruct error as [e|]; [reflexivity|].
  unfold memZ. cbn [marks expectedMarks existsb]. rewrite orb_false_r.
  unfold step, cmdCallbackGet.
  change (cmdIssued (pasvCallback GetFn path (NoError, Socket) (start session))) with true.
  cbv iota. cbn [truthy1].
  destruct ((code r =? 125)%Z || (code r =? 150)%Z); reflexivity.
Qed.

Lemma get_hands_over_socket_on_mark_witness :
  let rPasv := reply 227 "Entering Passive Mode (127,0,0,1,10,20)" in
  let r := reply 150 "Opening data connection" in
  trace (run GetFn "/f" [PasvReply None rPasv; CmdReply None r] (start Events.empty))
  = [Execute "pasv"; SocketPause; Execute ("retr " ++ "/f"); UserCall NoError Socket].
Proof.
  intros rPasv r.
  apply (get_hands_over_socket_on_mark "/f" rPasv r (mkPasvOptions "127.0.0.1" 2580) None
           Events.empty).
  reflexivity.
Defined.

(** X24.  What [put] reports, and when.  After a PASV reply with an
    address, an error reply to STOR goes to the caller's function at
    once, and so does any other reply that is not the mark 125 or 150,
    as the error 'Unexpected command ' followed by its text.  On the mark
    the source is piped into the data socket and nothing is reported
    yet: the caller's function is called when the data socket closes,
    with the [hadError] flag of the 'close' event as its only
    argument. *)
Theorem put_reports_on_close
    (path : string) (rPasv r : Response) (o : PasvOptions) (error : option JsError)
    (hadError : bool) (session : Events.Emitter) :
  getPasvPort (text rPasv) = Some o ->
  trace (run PutOp path [PasvReply None rPasv; CmdReply error r;
                         Emit EvClose (PHadError hadError)] (start session))
  = [Execute "pasv"; Execute ("stor " ++ path)]
    ++ match error with
       | Some e => [UserCall (Err e) Nothing]
       | None =>
           if memZ (code r) (marks expectedMarks)
           then [Pipe; UserCall (HadError hadError) Nothing]
           else [UserCall (Err (unexpected r)) Nothing]
       end.
Proof.
  intros Hp. unfold run. cbn [fold_left].
  rewrite (step_pasv_connect PutOp path rPasv o (start session) Hp).
  destruct error as [e|]; [vm_compute; reflexivity|].
  unfold memZ. cbn [marks expectedMarks existsb]. rewrite orb_false_r.
  unfold step at 2, putCallback, Once.cb, putCallbackFn.
  change (cmdIssued (pasvCallback PutOp path (NoError, Socket) (start session))) with true.
  cbv iota. cbn [fst snd].
  change (Once.called (cCmd (pasvCallback PutOp path (NoError, Socket) (start session)))) with false.
  cbv iota.
  destruct ((code r =? 125)%Z || (code r =? 150)%Z); vm_compute; reflexivity.
Qed.

Lemma put_reports_on_close_witness :
  let rPasv := reply 227 "Entering Passive Mode (127,0,0,1,10,20)" in
  let r := reply 150 "Ok to send data" in
  trace (run PutOp "/f" [PasvReply None rPasv; CmdReply None r;
                         Emit EvClose (PHadError false)] (start Events.empty))
  = [Execute "pasv"; Execute ("stor " ++ "/f")]
    ++ [Pipe; UserCall (HadError false) Nothing].
Proof.
  intros rPasv r.
  apply (put_reports_on_close "/f" rPasv r (mkPasvOptions "127.0.0.1" 2580) None false
           Events.empty).
  reflexivity.
Defined.

(** X25.  [get] into a local file ends with the first event.  After a
    PASV reply with an address and the mark for RETR, the data socket is
    piped into the file; the first 'end', 'close' or 'error' of the
    socket, or 'error' of the write stream, calls the caller's function
    with what the event carries as its first argument (nothing for 'end',
    the [hadError] flag for 'close', the error for 'error'), and the
    events that follow are not reported. *)
Theorem get_to_file_reports_first_event
    (path : string) (rPasv rMark : Response) (o : PasvOptions)
    (ev ev2 : EvName) (p p2 : Payload) (session : Events.Emitter) :
  getPasvPort (text rPasv) = Some o ->
  memZ (code rMark) (marks expectedMarks) = true ->
  In ev [EvEnd; EvClose; EvError; EvFileError] ->
  In ev2 [EvEnd; EvClose; EvError; EvFileError; EvReadable; EvData] ->
  trace (run GetFile path [PasvReply None rPasv; CmdReply None rMark;
                           Emit ev p; Emit ev2 p2] (start session))
  = [Execute "pasv"; SocketPause; Execute ("retr " ++ path); Pipe;
     UserCall (arg1Of p) Nothing].
Proof.
  intros Hp Hm Hev Hev2. unfold run. cbn [fold_left].
  rewrite (step_pasv_connect GetFile path rPasv o (start session) Hp).
  destruct rMark as [c t e m].
  assert (Hc : c = 125%Z \/ c = 150%Z) by exact (mark_cases _ Hm).
  cbn [In] in Hev, Hev2.
  destruct Hc as [-> | ->];
    repeat (destruct Hev as [<- | Hev]; [|]); try contradiction;
    repeat (destruct Hev2 as [<- | Hev2]; [|]); try contradiction;
    destruct p as [|d|[]|err]; destruct p2 as [|d2|[]|err2]; vm_compute; reflexivity.
Qed.

Lemma get_to_file_reports_first_event_witness :
  let rPasv := reply 227 "Entering Passive Mode (127,0,0,1,10,20)" in
  let rMark := reply 150 "Opening data connection" in
  trace (run GetFile "/f" [PasvReply None rPasv; CmdReply None rMark;
                           Emit EvEnd PNone; Emit EvClose (PHadError false)] (start Events.empty))
  = [Execute "pasv"; SocketPause; Execute ("retr " ++ "/f"); Pipe;
     UserCall (arg1Of PNone) Nothing].
Proof.
  intros rPasv rMark.
  apply (get_to_file_reports_first_event "/f" rPasv rMark (mkPasvOptions "127.0.0.1" 2580)
           EvEnd EvClose PNone (PHadError false) Events.empty);
    [reflexivity | reflexivity | left; reflexivity | right; left; reflexivity].
Defined.

(* ===================================================================== *)
(** * The emitter: [on], [once], [off] and [emit] *)
(* ===================================================================== *)

(** ** The object [__events] *)

Lemma lookup_store (k name : string) (l : list Events.Entry)
    (m : list (string * list Events.Entry)) :
  Events.lookup k (Events.store name l m)
  = if String.eqb name k then Some l else Events.lookup k m.
Proof.
  induction m as [|[k' l'] m IH]; cbn [Events.store Events.lookup].
  - reflexivity.
  - destruct (String.eqb k' name) eqn:E; cbn [Events.lookup].
    + apply String.eqb_eq in E. subst k'. destruct (String.eqb name k); reflexivity.
    + destruct (String.eqb k' k) eqn:E'; [|exact IH].
      apply String.eqb_eq in E'. subst k'.
      rewrite String.eqb_sym, E. reflexivity.
Qed.

Lemma lookup_delete (k name : string) (m : list (string * list Events.Entry)) :
  Events.lookup k (Events.delete name m)
  = if String.eqb name k then None else Events.lookup k m.
Proof.
  induction m as [|[k' l'] m IH]; cbn [Events.delete Events.lookup].
  - destruct (String.eqb name k); reflexivity.
  - destruct (String.eqb k' name) eqn:E.
    + rewrite IH. apply String.eqb_eq in E. subst k'.
      destruct (String.eqb name k); reflexivity.
    + cbn [Events.lookup]. destruct (String.eqb k' k) eqn:E'; [|exact IH].
      apply String.eqb_eq in E'. subst k'.
      rewrite String.eqb_sym, E. reflexivity.
Qed.

Lemma listenersOf_record (name : string) (c : Events.Call) (e : Events.Emitter) :
  Events.listenersOf name (Events.record c e) = Events.listenersOf name e.
Proof. reflexivity. Qed.

(** [events[name]] is the array of the entry, or [undefined], when the
    name has an entry or is none of the inherited ones. *)
Lemma property_own (name : string) (e : Events.Emitter) :
  Events.listenersOf name e <> [] ->
  Events.property name e = Events.Own (Events.listenersOf name e).
Proof.
  unfold Events.property, Events.listenersOf.
  destruct (Events.lookup name (Events.events e)); [reflexivity | congruence].
Qed.

Lemma property_not_inherited (name : string) (e : Events.Emitter) :
  Events.inherited name = None ->
  Events.property name e
  = match Events.lookup name (Events.events e) with
    | Some l => Events.Own l
    | None => Events.Missing
    end.
Proof. intros H. unfold Events.property. rewrite H. reflexivity. Qed.

Lemma lengthOf_own (name : string) (e : Events.Emitter) :
  Events.listenersOf name e <> [] ->
  Events.lengthOf name e = List.length (Events.listenersOf name e).
Proof. intros H. unfold Events.lengthOf. rewrite (property_own name e H). reflexivity. Qed.

Lemma lengthOf_not_inherited (name : string) (e : Events.Emitter) :
  Events.inherited name = None ->
  Events.lengthOf name e = List.length (Events.listenersOf name e).
Proof.
  intros H. unfold Events.lengthOf, Events.listenersOf.
  rewrite (property_not_inherited name e H).
  destruct (Events.lookup name (Events.events e)); reflexivity.
Qed.

(** [on] for a name that is not inherited. *)
Lemma on_done (name : string) (listener : Events.Listener)
    (context : option Events.Context) (e : Events.Emitter) :
  Events.inherited name = None ->
  exists e',
    Events.on name listener context e = Events.Done e'
    /\ Events.ran e' = Events.ran e
    /\ Events.closures e' = Events.closures e
    /\ (forall k,
          Events.listenersOf k e'
          = if String.eqb name k
            then Events.listenersOf name e
                 ++ [Events.mkEntry listener (Events.orSelf context)]
            else Events.listenersOf k e)
    /\ Events.lookup name (Events.events e') <> None.
Proof.
  intros H. unfold Events.on. rewrite (property_not_inherited name e H).
  unfold Events.listenersOf.
  destruct (Events.lookup name (Events.events e)) as [l|] eqn:El;
    eexists; (split; [reflexivity|]); cbn [Events.ran Events.closures Events.events
                                          Events.set_events];
    repeat split; try (intros k; rewrite lookup_store;
                       destruct (String.eqb name k); reflexivity);
    rewrite lookup_store, String.eqb_refl; discriminate.
Qed.

(** [off] for a name that has an entry, or is not inherited. *)
Lemma off_done (name : string) (listener : Events.Listener)
    (context : option Events.Context) (e : Events.Emitter) :
  Events.inherited name = None \/ Events.lookup name (Events.events e) <> None ->
  exists e',
    Events.off name listener context e = Events.Done e'
    /\ Events.ran e' = Events.ran e
    /\ Events.closures e' = Events.closures e
    /\ (forall k,
          Events.listenersOf k e'
          = if String.eqb name k
            then Events.removeFirst listener (Events.orSelf context)
                   (Events.listenersOf name e)
            else Events.listenersOf k e)
    /\ (Events.removeFirst listener (Events.orSelf context) (Events.listenersOf name e) = [] ->
        Events.lookup name (Events.events e') = None).
Proof.
  intros H. unfold Events.off, Events.property, Events.listenersOf.
  destruct (Events.lookup name (Events.events e)) as [l|] eqn:El.
  - destruct (Events.removeFirst listener (Events.orSelf context) l) as [|en l'] eqn:Er;
      eexists; (split; [reflexivity|]);
      cbn [Events.ran Events.closures Events.events Events.set_events]; repeat split.
    + intros k. rewrite lookup_delete. destruct (String.eqb name k); reflexivity.
    + intros _. rewrite lookup_delete, String.eqb_refl. reflexivity.
    + intros k. rewrite lookup_store. destruct (String.eqb name k); reflexivity.
    + discriminate.
  - destruct H as [H|H]; [|congruence]. rewrite H.
    exists e. repeat split.
    + intros k. destruct (String.eqb name k) eqn:E; [|reflexivity].
      apply String.eqb_eq in E. subst k. rewrite El. reflexivity.
    + intros _. exact El.
Qed.

(** ** [off] *)

Lemma Context_eqb_refl (c : Events.Context) : Events.Context_eqb c c = true.
Proof. destruct c; cbn; [reflexivity | reflexivity | apply Nat.eqb_refl]. Qed.

Lemma Listener_eqb_refl (l : Events.Listener) : Events.Listener_eqb l l = true.
Proof. destruct l; cbn; apply Nat.eqb_refl. Qed.

Lemma removeFirst_absent (listener : Events.Listener) (context : Events.Context)
    (l : list Events.Entry) :
  Events.absent listener context l = true -> Events.removeFirst listener context l = l.
Proof.
  induction l as [|en l IH]; [reflexivity|]. cbn [Events.absent forallb Events.removeFirst].
  intros H. apply andb_prop in H as [Hen Hl]. apply negb_true_iff in Hen.
  rewrite Hen. f_equal. apply IH, Hl.
Qed.

Lemma removeFirst_found (listener : Events.Listener) (context : Events.Context)
    (pre post : list Events.Entry) :
  Events.absent listener context pre = true ->
  Events.removeFirst listener context (pre ++ Events.mkEntry listener context :: post)
  = pre ++ post.
Proof.
  induction pre as [|en pre IH]; cbn [Events.absent forallb Events.removeFirst app].
  - intros _. cbn [Events.fn Events.context].
    rewrite Listener_eqb_refl, Context_eqb_refl. reflexivity.
  - intros H. apply andb_prop in H as [Hen Hl]. apply negb_true_iff in Hen.
    rewrite Hen. f_equal. apply IH, Hl.
Qed.

(** A closure of [once] is none of the callers' functions. *)
Lemma absent_plain (listener : Events.Listener) (context : Events.Context)
    (l : list Events.Entry) :
  (match listener with Events.Plain _ => false | _ => true end) = true ->
  forallb Events.isPlain l = true -> Events.absent listener context l = true.
Proof.
  intros Hl. induction l as [|en l IH]; [reflexivity|].
  cbn [forallb Events.absent]. intros H. apply andb_prop in H as [Hen H].
  unfold Events.absent in IH. rewrite (IH H), andb_true_r.
  unfold Events.isPlain in Hen. destruct (Events.fn en); try discriminate Hen.
  destruct listener; try discriminate Hl; reflexivity.
Qed.

(** X26.  [on] followed by [off] with the same arguments.  For an event
    name that is none of the names every object inherits from
    [Object.prototype] ('constructor', 'toString', ...: there
    [events[name]] is no array, and [on] throws), and a listener that is
    not yet registered for the event with that context, both calls
    return, and they leave the listeners of every event as they were
    (and an event without listeners without an entry in [__events]). *)
Theorem off_undoes_on (name k : string) (listener : Events.Listener)
    (context : option Events.Context) (e : Events.Emitter) :
  Events.inherited name = None ->
  Events.absent listener (Events.orSelf context) (Events.listenersOf name e) = true ->
  exists e1 e',
    Events.on name listener context e = Events.Done e1
    /\ Events.off name listener context e1 = Events.Done e'
    /\ Events.listenersOf k e' = Events.listenersOf k e
    /\ (Events.lookup name (Events.events e) = None ->
        Events.lookup name (Events.events e') = None).
Proof.
  intros Hn Ha.
  destruct (on_done name listener context e Hn) as (e1 & Hon & _ & _ & Hl1 & _).
  destruct (off_done name listener context e1 (or_introl Hn))
    as (e' & Hoff & _ & _ & Hl' & Hdel).
  exists e1, e'. split; [exact Hon|]. split; [exact Hoff|].
  assert (Hrm : Events.removeFirst listener (Events.orSelf context)
                  (Events.listenersOf name e1) = Events.listenersOf name e).
  { rewrite (Hl1 name), String.eqb_refl. rewrite removeFirst_found by exact Ha.
    apply app_nil_r. }
  split.
  - rewrite Hl'. destruct (String.eqb name k) eqn:E.
    + apply String.eqb_eq in E. subst k. exact Hrm.
    + rewrite (Hl1 k), E. reflexivity.
  - intros Hnone. apply Hdel. rewrite Hrm. unfold Events.listenersOf. rewrite Hnone.
    reflexivity.
Qed.

Lemma off_undoes_on_witness :
  let f := Events.Plain (Events.mkFn 1 Events.RUndefined) in
  let g := Events.mkEntry (Events.Plain (Events.mkFn 2 Events.RUndefined)) Events.Self in
  let e := Events.mkEmitter [("data", [g])] 0 [] in
  Events.on "data" (Events.fn g) None Events.empty = Events.Done e
  /\ exists e1 e',
    Events.on "data" f None e = Events.Done e1
    /\ Events.off "data" f None e1 = Events.Done e'
    /\ Events.listenersOf "data" e' = Events.listenersOf "data" e
    /\ (Events.lookup "data" (Events.events e) = None ->
        Events.lookup "data" (Events.events e') = None).
Proof.
  intros f g e. split; [reflexivity|].
  apply (off_undoes_on "data" "data" f None e); reflexivity.
Defined.

(** ** [emit] over callers' functions *)

Lemma nth_error_skipn_head {A} (i : nat) (l : list A) (x : A) (t : list A) :
  skipn i l = x :: t -> nth_error l i = Some x /\ skipn (S i) l = t.
Proof.
  revert l. induction i as [|i IH]; intros l H.
  - cbn in H. subst l. split; reflexivity.
  - destruct l as [|y l]; [discriminate H|]. cbn [skipn] in H.
    destruct (IH l H) as [H1 H2]. split; [exact H1 | exact H2].
Qed.

Lemma emitLoop_plain (name : string) (data : list nat) (l rest : list Events.Entry) :
  forall (i k : nat) (returned : Events.Result) (e : Events.Emitter),
    skipn i (Events.listenersOf name e) = l ++ rest ->
    forallb Events.isPlain l = true ->
    Events.emitLoop name data i (List.length l + k) returned e
    = Events.emitLoop name data (i + List.length l) k
        (fold_left Events.keepFalse (map Events.resultOf l) returned)
        (Events.mkEmitter (Events.events e) (Events.closures e)
           (Events.ran e ++ Events.runs data l)).
Proof.
  induction l as [|en l IH]; intros i k returned e Hs Hp.
  - cbn [List.length map fold_left Events.runs Nat.add]. rewrite Nat.add_0_r, app_nil_r.
    destruct e; reflexivity.
  - cbn [forallb] in Hp. apply andb_prop in Hp as [Hen Hp].
    cbn [app] in Hs. destruct (nth_error_skipn_head i _ en (l ++ rest) Hs) as [Hn Hs'].
    cbn [List.length Nat.add Events.emitLoop]. rewrite Hn.
    unfold Events.applyEntry. unfold Events.isPlain in Hen.
    destruct (Events.fn en) as [f| |] eqn:Ef; try discriminate Hen.
    assert (Hr : Events.resultOf en = Events.result f)
      by (unfold Events.resultOf; rewrite Ef; reflexivity).
    assert (Hw : Events.wrapped en = f)
      by (unfold Events.wrapped; rewrite Ef; reflexivity).
    rewrite (IH (S i) k _ (Events.record (Events.Ran f (Events.context en) data) e))
      by (try rewrite listenersOf_record; assumption).
    unfold Events.runs.
    cbn [map fold_left Events.record Events.events Events.closures Events.ran].
    rewrite Hr, Hw, <- app_assoc, Nat.add_succ_r. reflexivity.
Qed.

Lemma last_cons_default {A} (x d : A) (l : list A) : last (x :: l) d = last l x.
Proof.
  revert x d. induction l as [|y l IH]; intros x d; [reflexivity|].
  change (last (x :: y :: l) d) with (last (y :: l) d). rewrite !IH. reflexivity.
Qed.

Lemma fold_keepFalse (rs : list Events.Result) (r : Events.Result) :
  fold_left Events.keepFalse rs r
  = match r with
    | Events.RFalse => Events.RFalse
    | _ => if existsb (fun r => match r with Events.RFalse => true | _ => false end) rs
           then Events.RFalse else last rs r
    end.
Proof.
  revert r. induction rs as [|x rs IH]; intros r.
  - destruct r; reflexivity.
  - cbn [fold_left existsb]. rewrite IH, last_cons_default.
    destruct r, x; cbn [Events.keepFalse orb]; try reflexivity;
      destruct (existsb _ rs); reflexivity.
Qed.

Lemma emit_plain (name : string) (data : list nat) (e : Events.Emitter) :
  Events.lengthOf name e = List.length (Events.listenersOf name e) ->
  forallb Events.isPlain (Events.listenersOf name e) = true ->
  Events.emit name data e
  = Events.Returned
      (Events.emitValue (map Events.resultOf (Events.listenersOf name e)))
      (Events.mkEmitter (Events.events e) (Events.closures e)
         (Events.ran e ++ Events.runs data (Events.listenersOf name e))).
Proof.
  intros Hlen Hp. unfold Events.emit. rewrite Hlen.
  rewrite <- (Nat.add_0_r (List.length (Events.listenersOf name e))).
  rewrite (emitLoop_plain name data (Events.listenersOf name e) [] 0 0 Events.RUndefined e)
    by (try exact Hp; rewrite app_nil_r; reflexivity).
  cbn [Events.emitLoop]. rewrite fold_keepFalse. reflexivity.
Qed.

(** X27.  [emit] over callers' functions.  For an event name that is
    none of the names inherited from [Object.prototype], when the
    listeners of the event are functions registered with [on], [emit]
    calls each of them once, in the order of registration, with the
    context it was registered with and the data of the event, and leaves
    [__events] alone.  It returns [false] as soon as one listener has
    returned [false], whatever the later ones return, and else what the
    last listener returned ([undefined] without listeners). *)
Theorem emit_runs_listeners_in_order (name : string) (data : list nat) (e : Events.Emitter) :
  Events.inherited name = None ->
  forallb Events.isPlain (Events.listenersOf name e) = true ->
  Events.emit name data e
  = Events.Returned
      (Events.emitValue (map Events.resultOf (Events.listenersOf name e)))
      (Events.mkEmitter (Events.events e) (Events.closures e)
         (Events.ran e ++ Events.runs data (Events.listenersOf name e))).
Proof.
  intros Hn Hp. unfold Events.emit. rewrite (lengthOf_not_inherited name e Hn).
  rewrite <- (Nat.add_0_r (List.length (Events.listenersOf name e))).
  rewrite (emitLoop_plain name data (Events.listenersOf name e) [] 0 0 Events.RUndefined e)
    by (try exact Hp; rewrite app_nil_r; reflexivity).
  cbn [Events.emitLoop]. rewrite fold_keepFalse. reflexivity.
Qed.

Lemma emit_runs_listeners_in_order_witness :
  let f := Events.mkFn 1 Events.RFalse in
  let g := Events.mkFn 2 (Events.RValue 7) in
  let e0 := Events.mkEmitter
              [("progress", [Events.mkEntry (Events.Plain f) Events.Self])] 0 [] in
  let e := Events.mkEmitter
             [("progress", [Events.mkEntry (Events.Plain f) Events.Self;
                            Events.mkEntry (Events.Plain g) (Events.Other 5)])] 0 [] in
  Events.on "progress" (Events.Plain f) None Events.empty = Events.Done e0
  /\ Events.on "progress" (Events.Plain g) (Some (Events.Other 5)) e0 = Events.Done e
  /\ Events.emit "progress" [42] e
     = Events.Returned Events.RFalse
         (Events.mkEmitter (Events.events e) (Events.closures e)
            [Events.Ran f Events.Self [42]; Events.Ran g (Events.Other 5) [42]]).
Proof.
  intros f g e0 e. split; [reflexivity|]. split; [reflexivity|].
  apply (emit_runs_listeners_in_order "progress" [42] e); reflexivity.
Defined.

(** ** [emit] with a closure of [once] among the listeners *)

Lemma removesItself_found (name : string) (en : Events.Entry) (data : list nat)
    (pre post : list Events.Entry) (e : Events.Emitter) :
  Events.removesItself en = true ->
  forallb Events.isPlain pre = true ->
  Events.listenersOf name e = pre ++ en :: post ->
  exists e',
    Events.applyEntry name en data e = Some (e', Events.RUndefined)
    /\ Events.listenersOf name e' = pre ++ post
    /\ Events.ran e' = Events.ran e ++ Events.runs data [en]
    /\ Events.closures e' = Events.closures e.
Proof.
  intros Hr Hp Hl. destruct en as [l c]. unfold Events.removesItself in Hr.
  unfold Events.applyEntry, Events.runs, Events.wrapped.
  cbn [Events.fn Events.context map] in *.
  assert (Hown : Events.lookup name (Events.events e) <> None).
  { unfold Events.listenersOf in Hl. destruct (Events.lookup name (Events.events e));
      [discriminate | destruct pre; discriminate Hl]. }
  destruct l as [f|n f|n f]; [discriminate Hr| |].
  - assert (c = Events.Self) by (destruct c; try discriminate Hr; reflexivity). subst c.
    destruct (off_done name (Events.Feedback000 n f) None e (or_intror Hown))
      as (e1 & Hoff & Hran & Hcl & Hls & _).
    rewrite Hoff. eexists. split; [reflexivity|].
    rewrite listenersOf_record, (Hls name), String.eqb_refl, Hl.
    cbn [Events.orSelf]. rewrite removeFirst_found by (apply absent_plain; auto).
    cbn [Events.record Events.ran Events.closures]. rewrite Hran, Hcl. repeat split.
  - destruct (off_done name (Events.Feedback001 n f) (Some c) e (or_intror Hown))
      as (e1 & Hoff & Hran & Hcl & Hls & _).
    rewrite Hoff. eexists. split; [reflexivity|].
    rewrite listenersOf_record, (Hls name), String.eqb_refl, Hl.
    cbn [Events.orSelf]. rewrite removeFirst_found by (apply absent_plain; auto).
    cbn [Events.record Events.ran Events.closures]. rewrite Hran, Hcl. repeat split.
Qed.

Lemma skipn_app_length {A} (l1 l2 : list A) : skipn (List.length l1) (l1 ++ l2) = l2.
Proof. induction l1 as [|x l1 IH]; [reflexivity | exact IH]. Qed.

Lemma nth_error_app_length {A} (l1 l2 : list A) :
  nth_error (l1 ++ l2) (List.length l1) = nth_error l2 0.
Proof. induction l1 as [|x l1 IH]; [reflexivity | exact IH]. Qed.

(** [emit] when one closure of [once], which removes itself, stands
    among callers' functions. *)
Lemma emit_over_once (name : string) (data : list nat) (en : Events.Entry)
    (pre post : list Events.Entry) (e : Events.Emitter) :
  Events.removesItself en = true ->
  forallb Events.isPlain pre = true ->
  forallb Events.isPlain post = true ->
  Events.listenersOf name e = pre ++ en :: post ->
  exists e',
    Events.emit name data e
    = match post with
      | [] => Events.Returned (Events.emitValue (map Events.resultOf (pre ++ [en]))) e'
      | _ :: _ => Events.ThrewTypeError e'
      end
    /\ Events.ran e' = Events.ran e ++ Events.runs data (pre ++ en :: tl post)
    /\ Events.listenersOf name e' = pre ++ post.
Proof.
  intros Hr Hpre Hpost Hl. unfold Events.emit.
  rewrite lengthOf_own by (rewrite Hl; destruct pre; discriminate).
  rewrite Hl, length_app.
  rewrite (emitLoop_plain name data pre (en :: post) 0) by (try exact Hpre; rewrite Hl; reflexivity).
  cbn [Nat.add List.length Events.emitLoop].
  set (e1 := Events.mkEmitter (Events.events e) (Events.closures e)
               (Events.ran e ++ Events.runs data pre)).
  assert (Hl1 : Events.listenersOf name e1 = pre ++ en :: post) by exact Hl.
  rewrite Hl1, nth_error_app_length. cbn [nth_error].
  destruct (removesItself_found name en data pre post e1 Hr Hpre Hl1)
    as (e2 & Happ & Hl2 & Hran & _).
  rewrite Happ. destruct post as [|p post].
  - exists e2. cbn [List.length Events.emitLoop tl]. repeat split.
    + assert (Hen : Events.resultOf en = Events.RUndefined).
      { unfold Events.resultOf. unfold Events.removesItself in Hr.
        destruct (Events.fn en); [discriminate Hr | reflexivity | reflexivity]. }
      assert (Hv : forall rs, Events.emitValue rs
                              = fold_left Events.keepFalse rs Events.RUndefined)
        by (intros rs; rewrite fold_keepFalse; reflexivity).
      rewrite Hv, map_app, fold_left_app. cbn [map fold_left]. rewrite Hen. reflexivity.
    + rewrite Hran. cbn [Events.ran e1]. unfold Events.runs. rewrite !map_app, <- app_assoc.
      reflexivity.
    + exact Hl2.
  - cbn [forallb] in Hpost. apply andb_prop in Hpost as [_ Hpost].
    cbn [List.length]. rewrite <- (Nat.add_1_r (List.length post)).
    rewrite (emitLoop_plain name data post [] (S (0 + List.length pre)) 1 _ e2).
    + cbn [Events.emitLoop].
      set (e3 := Events.mkEmitter (Events.events e2) (Events.closures e2)
                   (Events.ran e2 ++ Events.runs data post)).
      assert (Hl3 : Events.listenersOf name e3 = pre ++ p :: post) by exact Hl2.
      rewrite Hl3.
      assert (Hnone : nth_error (pre ++ p :: post) (S (0 + List.length pre) + List.length post)
                      = None).
      { apply nth_error_None. rewrite length_app. cbn [List.length]. lia. }
      rewrite Hnone. exists e3. repeat split.
      * cbn [Events.ran e3 tl]. rewrite Hran. cbn [Events.ran e1].
        unfold Events.runs. rewrite !map_app. cbn [map]. rewrite <- !app_assoc. reflexivity.
      * exact Hl3.
    + rewrite Hl2, app_nil_r. cbn [Nat.add].
      replace (S (List.length pre)) with (List.length (pre ++ [p]))
        by (rewrite length_app; cbn; lia).
      change (pre ++ p :: post) with (pre ++ [p] ++ post). rewrite app_assoc.
      apply skipn_app_length.
    + exact Hpost.
Qed.

(** X28.  [once] of part_001 runs its listener once.  For an event name
    that is none of the names inherited from [Object.prototype] (for
    those [once] throws, as [on] does), and registered after callers'
    functions, the listener runs at the first [emit], after them, with
    the context given to [once] (the emitter by default) and the data of
    the event; it is then gone from the listeners, and a second [emit]
    runs the others only. *)
Theorem once_listener_runs_once (name : string) (d1 d2 : list nat) (g : Events.Fn)
    (context : option Events.Context) (e : Events.Emitter) :
  Events.inherited name = None ->
  forallb Events.isPlain (Events.listenersOf name e) = true ->
  let ls := Events.listenersOf name e in
  exists e0 r1 e1 r2 e2,
    Events.once001 name g context e = Events.Done e0
    /\ Events.emit name d1 e0 = Events.Returned r1 e1
    /\ Events.ran e1
       = Events.ran e ++ Events.runs d1 ls ++ [Events.Ran g (Events.orSelf context) d1]
    /\ Events.listenersOf name e1 = ls
    /\ Events.emit name d2 e1 = Events.Returned r2 e2
    /\ Events.ran e2 = Events.ran e1 ++ Events.runs d2 ls.
Proof.
  intros Hn Hp ls.
  set (en := Events.mkEntry (Events.Feedback001 (Events.closures e) g) (Events.orSelf context)).
  destruct (on_done name (Events.Feedback001 (Events.closures e) g)
              (Some (Events.orSelf context))
              (Events.mkEmitter (Events.events e) (S (Events.closures e)) (Events.ran e)) Hn)
    as (e0 & Hon & Hran0 & _ & Hl0 & _).
  destruct (emit_over_once name d1 en ls [] e0) as (e1 & He & Hran & Hl);
    try reflexivity; try exact Hp.
  { rewrite (Hl0 name), String.eqb_refl. reflexivity. }
  rewrite app_nil_r in Hl.
  exists e0. eexists _, e1, _, _. split; [exact Hon|]. split; [exact He|]. split.
  { rewrite Hran, Hran0. cbn [tl Events.ran]. unfold Events.runs. rewrite map_app. reflexivity. }
  split; [exact Hl|]. split.
  - apply emit_plain; rewrite ?Hl; [|exact Hp].
    rewrite (lengthOf_not_inherited name e1 Hn), Hl. reflexivity.
  - cbn [Events.ran]. rewrite Hl. reflexivity.
Qed.

Lemma once_listener_runs_once_witness :
  let f := Events.mkFn 1 Events.RUndefined in
  let g := Events.mkFn 2 Events.RUndefined in
  let e := Events.mkEmitter [("timeout", [Events.mkEntry (Events.Plain f) Events.Self])] 0 [] in
  let ls := Events.listenersOf "timeout" e in
  Events.on "timeout" (Events.Plain f) None Events.empty = Events.Done e
  /\ exists e0 r1 e1 r2 e2,
    Events.once001 "timeout" g None e = Events.Done e0
    /\ Events.emit "timeout" [1] e0 = Events.Returned r1 e1
    /\ Events.ran e1
       = Events.ran e ++ Events.runs [1] ls ++ [Events.Ran g Events.Self [1]]
    /\ Events.listenersOf "timeout" e1 = ls
    /\ Events.emit "timeout" [2] e1 = Events.Returned r2 e2
    /\ Events.ran e2 = Events.ran e1 ++ Events.runs [2] ls.
Proof.
  intros f g e. split; [reflexivity|].
  apply (once_listener_runs_once "timeout" [1] [2] g None e); reflexivity.
Defined.

(** X29.  A listener registered after a [once] listener breaks [emit].
    [off] splices the array [emit] is walking, while [emit] keeps the
    length it read before the loop.  So when a closure of [once] that
    removes itself is followed by further listeners, the [emit] that runs
    it skips the listener right after it, runs the remaining ones and
    then throws a [TypeError] on reading [listeners[i].fn] past the end
    of the array.  This holds for [once] of part_001, and for [once] of
    part_000 when it is given the emitter as context.  The skipped
    listener is still registered afterwards. *)
Theorem listener_after_once_breaks_emit (name : string) (data : list nat)
    (en next : Events.Entry) (pre post : list Events.Entry) (e : Events.Emitter) :
  Events.removesItself en = true ->
  forallb Events.isPlain pre = true ->
  forallb Events.isPlain (next :: post) = true ->
  Events.listenersOf name e = pre ++ en :: next :: post ->
  exists e',
    Events.emit name data e = Events.ThrewTypeError e'
    /\ Events.ran e' = Events.ran e ++ Events.runs data (pre ++ en :: post)
    /\ Events.listenersOf name e' = pre ++ next :: post.
Proof.
  intros Hr Hpre Hpost Hl.
  destruct (emit_over_once name data en pre (next :: post) e Hr Hpre Hpost Hl)
    as (e' & He & Hran & Hl').
  exists e'. repeat split; assumption.
Qed.

Lemma listener_after_once_breaks_emit_witness :
  let f := Events.mkFn 1 Events.RUndefined in
  let g := Events.mkFn 2 Events.RUndefined in
  let e0 := Events.mkEmitter
              [("timeout", [Events.mkEntry (Events.Feedback001 0 g) Events.Self])] 1 [] in
  let e := Events.mkEmitter
             [("timeout", [Events.mkEntry (Events.Feedback001 0 g) Events.Self;
                           Events.mkEntry (Events.Plain f) Events.Self])] 1 [] in
  Events.once001 "timeout" g None Events.empty = Events.Done e0
  /\ Events.on "timeout" (Events.Plain f) None e0 = Events.Done e
  /\ exists e',
       Events.emit "timeout" [] e = Events.ThrewTypeError e'
       /\ Events.ran e'
          = Events.ran e
            ++ Events.runs [] ([] ++ Events.mkEntry (Events.Feedback001 0 g) Events.Self :: [])
       /\ Events.listenersOf "timeout" e'
          = [] ++ Events.mkEntry (Events.Plain f) Events.Self :: [].
Proof.
  intros f g e0 e. split; [reflexivity|]. split; [reflexivity|].
  apply (listener_after_once_breaks_emit "timeout" []
           (Events.mkEntry (Events.Feedback001 0 g) Events.Self)
           (Events.mkEntry (Events.Plain f) Events.Self) [] [] e);
    reflexivity.
Defined.

(** X30.  [once] of part_000 without a context never lets go.  For an
    event name that is none of the names inherited from
    [Object.prototype], the closure is registered with the context
    [undefined], and its call of [off] looks for the context of the
    emitter: nothing is removed.  The listener runs at this [emit], with
    [this] undefined, and is still registered afterwards, so it runs at
    every later [emit] as well. *)
Theorem once_without_context_is_never_removed (name : string) (data : list nat)
    (g : Events.Fn) (e : Events.Emitter) :
  Events.inherited name = None ->
  forallb Events.isPlain (Events.listenersOf name e) = true ->
  exists e0 r e1,
    Events.once000 name g None e = Events.Done e0
    /\ Events.emit name data e0 = Events.Returned r e1
    /\ Events.ran e1
       = Events.ran e ++ Events.runs data (Events.listenersOf name e)
         ++ [Events.Ran g Events.NoContext data]
    /\ Events.listenersOf name e1 = Events.listenersOf name e0
    /\ Events.listenersOf name e0
       = Events.listenersOf name e
         ++ [Events.mkEntry (Events.Feedback000 (Events.closures e) g) Events.NoContext].
Proof.
  intros Hn Hp.
  set (ls := Events.listenersOf name e).
  set (en := Events.mkEntry (Events.Feedback000 (Events.closures e) g) Events.NoContext).
  destruct (on_done name (Events.Feedback000 (Events.closures e) g) (Some Events.NoContext)
              (Events.mkEmitter (Events.events e) (S (Events.closures e)) (Events.ran e)) Hn)
    as (e0 & Hon & Hran0 & _ & Hls0 & Hown0).
  assert (Hl0 : Events.listenersOf name e0 = ls ++ [en]).
  { rewrite (Hls0 name), String.eqb_refl. reflexivity. }
  exists e0.
  unfold Events.emit. rewrite (lengthOf_not_inherited name e0 Hn), Hl0, length_app.
  rewrite (emitLoop_plain name data ls [en] 0) by (try exact Hp; rewrite Hl0; reflexivity).
  cbn [Nat.add List.length Events.emitLoop].
  set (e1 := Events.mkEmitter (Events.events e0) (Events.closures e0)
               (Events.ran e0 ++ Events.runs data ls)).
  assert (Hl1 : Events.listenersOf name e1 = ls ++ [en]) by exact Hl0.
  rewrite Hl1, nth_error_app_length. cbn [nth_error].
  unfold Events.applyEntry. cbn [Events.fn Events.context en].
  destruct (off_done name (Events.Feedback000 (Events.closures e) g) None e1
              (or_introl Hn)) as (e2 & Hoff & Hran2 & _ & Hls2 & _).
  rewrite Hoff. cbn [Events.emitLoop].
  eexists _, _. split; [exact Hon|]. split; [reflexivity|]. split; [|split; [|reflexivity]].
  - cbn [Events.record Events.ran]. rewrite Hran2. cbn [Events.ran e1].
    rewrite Hran0. cbn [Events.ran]. rewrite <- app_assoc. reflexivity.
  - rewrite listenersOf_record, (Hls2 name), String.eqb_refl, Hl1.
    apply removeFirst_absent. unfold Events.absent. rewrite forallb_app.
    cbn [forallb Events.fn Events.context en Events.orSelf Events.Context_eqb].
    rewrite andb_false_r. cbn [negb andb]. rewrite andb_true_r.
    apply (absent_plain _ Events.Self ls); [reflexivity | exact Hp].
Qed.

Lemma once_without_context_is_never_removed_witness :
  let g := Events.mkFn 2 Events.RUndefined in
  exists e0 r e1,
    Events.once000 "timeout" g None Events.empty = Events.Done e0
    /\ Events.emit "timeout" [] e0 = Events.Returned r e1
    /\ Events.ran e1
       = Events.ran Events.empty ++ Events.runs [] (Events.listenersOf "timeout" Events.empty)
         ++ [Events.Ran g Events.NoContext []]
    /\ Events.listenersOf "timeout" e1 = Events.listenersOf "timeout" e0
    /\ Events.listenersOf "timeout" e0
       = Events.listenersOf "timeout" Events.empty
         ++ [Events.mkEntry (Events.Feedback000 (Events.closures Events.empty) g)
               Events.NoContext].
Proof.
  intros g.
  apply (once_without_context_is_never_removed "timeout" [] g Events.empty); reflexivity.
Defined.
